(** * MOSFiT synthetic photometry: band registry, bandpass loading,
      photometry engine and the photospheres

    A shallow embedding of
      - [mosfit/modules/observables/filters.py]  (class [Filters]),
      - [mosfit/modules/photospheres/tde_photosphere.py] and
      - [mosfit/modules/photospheres/temperature_floor.py]
    together with the properties stated about them.

    Numbers.  Python floats are idealised as exact rationals [Q]; the
    transcendental functions ([np.log10], [**] with a real exponent) and the
    physical constants imported from [mosfit.constants] and [astropy] are
    Section variables, so every definition below still computes once they
    are instantiated.  [np.inf] is a separate constructor of [mag].  In
    the TDE photosphere, where [**] is applied to values that can be
    negative, [nan] is a separate constructor of [npfloat], with NumPy's
    rules for powers and comparisons.  A quotient by zero is [0] in [Q]
    where NumPy yields [inf] or [nan], and values beyond the range of a
    float are not modelled; where the conclusion of a statement compares
    the value of a quotient, the statement carries the hypothesis that
    the divisor is not zero.

    Exceptions.  Python exceptions are values of [exn]; a computation that
    may raise returns [res A]. *)

From Stdlib Require Import QArith Qminmax String Ascii List Bool Lia Lqa.
From Stdlib Require Import Sorted Permutation.
From stdpp Require Import base option list strings.

Open Scope string_scope.
Open Scope list_scope.

(** ** Exceptions *)

Inductive exn : Type :=
| ValueError
| IndexError
| KeyError
| RuntimeError
| IOError.

Inductive res (A : Type) : Type :=
| Ok (a : A)
| Raise (e : exn).
Arguments Ok {A} a.
Arguments Raise {A} e.

Definition bind {A B : Type} (m : res A) (k : A -> res B) : res B :=
  match m with
  | Ok a => k a
  | Raise e => Raise e
  end.

Notation "'do' x <- m ; k" := (bind m (fun x => k))
  (at level 10, x name, m at level 100, k at level 200).
Notation "'do' ' p <- m ; k" := (bind m (fun x => let p := x in k))
  (at level 10, p strict pattern, m at level 100, k at level 200).

(** [seq[i]] for a non-negative index: [IndexError] out of range. *)
Definition index {A : Type} (l : list A) (i : nat) : res A :=
  match l !! i with
  | Some a => Ok a
  | None => Raise IndexError
  end.

(** [d[key]] on a dict field that may be absent: [KeyError]. *)
Definition getitem {A : Type} (o : option A) : res A :=
  match o with
  | Some a => Ok a
  | None => Raise KeyError
  end.

(** [seq[-1]]: the last element, [IndexError] on an empty sequence. *)
Definition index_last {A : Type} (l : list A) : res A :=
  match last l with
  | Some a => Ok a
  | None => Raise IndexError
  end.

(** [list(map(f, l))] where [f] may raise: the first exception wins. *)
Fixpoint map_res {A B : Type} (f : A -> res B) (l : list A) : res (list B) :=
  match l with
  | [] => Ok []
  | a :: l' => do b <- f a; do bs <- map_res f l'; Ok (b :: bs)
  end.

(** ** Python strings *)

(** [a in b] for two [str]: [a] occurs in [b] as a contiguous substring. *)
Fixpoint str_in (a b : string) : bool :=
  String.prefix a b ||
  match b with
  | EmptyString => false
  | String _ b' => str_in a b'
  end.

(** [s.split(c)] for a one-character separator: never empty. *)
Fixpoint split (c : ascii) (s : string) : list string :=
  match s with
  | EmptyString => [EmptyString]
  | String x s' =>
      if Ascii.eqb x c then EmptyString :: split c s'
      else match split c s' with
           | [] => [String x EmptyString]
           | w :: ws => String x w :: ws
           end
  end.

(** [sep.join(l)]. *)
Fixpoint join (sep : string) (l : list string) : string :=
  match l with
  | [] => EmptyString
  | [w] => w
  | w :: ws => String.append w (String.append sep (join sep ws))
  end.

(** [l[:-1]]. *)
Definition all_but_last {A : Type} (l : list A) : list A :=
  removelast l.

(** ** The rule table ([filterrules.json])

    The file itself is data outside the code; its shape is read off the
    accesses made by [Filters.__init__].  A band dictionary is a mutable
    object: every key the code reads or writes is an optional field. *)

Record band : Type := mkBand {
  b_SVO : option string;
  b_path : option string;
  b_offset : option Q;
  b_systems : option string;
  b_instruments : option string;
  b_bandsets : option string;
  b_name : option string
}.

Record rule : Type := mkRule {
  r_systems : option (list string);
  r_instruments : option (list string);
  r_bandsets : option (list string);
  r_filters : option (list (string * band))
}.

(** [rule.get(key, [''])]. *)
Definition get_axis (o : option (list string)) : list string :=
  default [""] o.

(** [rule.get('filters', [])], as an ordered dictionary. *)
Definition get_filters (r : rule) : list (string * band) :=
  default [] (r_filters r).

(** [[[x, y, z] for x in systems for y in instruments for z in bandsets]]. *)
Definition sysinstperms (r : rule) : list (string * string * string) :=
  x ← get_axis (r_systems r);
  y ← get_axis (r_instruments r);
  z ← get_axis (r_bandsets r);
  [(x, y, z)].

(** Lookup and in-place update of an ordered dictionary. *)
Fixpoint dict_get {V : Type} (d : list (string * V)) (k : string) : option V :=
  match d with
  | [] => None
  | (k', v) :: d' => if String.eqb k k' then Some v else dict_get d' k
  end.

Fixpoint dict_alter {V : Type} (f : V -> V) (d : list (string * V)) (k : string)
  : list (string * V) :=
  match d with
  | [] => []
  | (k', v) :: d' =>
      if String.eqb k k' then (k', f v) :: d'
      else (k', v) :: dict_alter f d' k
  end.

(** *** Object identity

    [band_list.append(rule['filters'][bnd])] appends a reference to the
    dictionary stored in the rule table, not a copy.  The rule table is
    therefore the store, and an element of [band_list] is the address
    (rule index, filter name) of a dictionary in it. *)

Definition ref : Type := (nat * string)%type.

Definition deref (tbl : list rule) (r : ref) : res band :=
  do rl <- index tbl r.1;
  do d <- getitem (r_filters rl);
  getitem (dict_get d r.2).

(** The four assignments [band_list[-1][...] = ...] on the object at [r]. *)
Definition set_perm (bnd : string) (perm : string * string * string)
  (b : band) : band :=
  {| b_SVO := b_SVO b;
     b_path := b_path b;
     b_offset := b_offset b;
     b_systems := Some perm.1.1;
     b_instruments := Some perm.1.2;
     b_bandsets := Some perm.2;
     b_name := Some bnd |}.

Definition store_alter (f : band -> band) (tbl : list rule) (r : ref)
  : list rule :=
  match tbl !! r.1 with
  | None => tbl
  | Some rl =>
      <[r.1 := {| r_systems := r_systems rl;
                  r_instruments := r_instruments rl;
                  r_bandsets := r_bandsets rl;
                  r_filters := option_map (fun d => dict_alter f d r.2)
                                          (r_filters rl) |}]> tbl
  end.

(** The state of the registry loops: the store and [band_list]. *)
Definition build_state : Type := (list rule * list ref)%type.

(** [for perm in sysinstperms: ...] (lines 45-50). *)
Fixpoint emit_perms (ri : nat) (bnd : string)
  (perms : list (string * string * string)) (s : build_state) : build_state :=
  match perms with
  | [] => s
  | perm :: perms' =>
      let r := (ri, bnd) in
      emit_perms ri bnd perms'
        (store_alter (set_perm bnd perm) s.1 r, s.2 ++ [r])
  end.

(** [for bnd in rule.get('filters', []): if band == bnd or band == '': ...]. *)
Fixpoint scan_filters (band0 : string) (ri : nat)
  (perms : list (string * string * string)) (keys : list string)
  (s : build_state) : build_state :=
  match keys with
  | [] => s
  | bnd :: keys' =>
      let s' := if String.eqb band0 bnd || String.eqb band0 ""
                then emit_perms ri bnd perms s else s in
      scan_filters band0 ri perms keys' s'
  end.

(** [for rule in filterrules: ...]; [rules] are the rules still to visit
    and [ri] the index of the first of them. *)
Fixpoint scan_rules (band0 : string) (ri : nat) (rules : list rule)
  (s : build_state) : build_state :=
  match rules with
  | [] => s
  | rl :: rules' =>
      scan_rules band0 (S ri) rules'
        (scan_filters band0 ri (sysinstperms rl) (map fst (get_filters rl)) s)
  end.

(** [for bi, band in enumerate(bands): ...] (lines 37-50).  The shape of
    the rules (axes, filter names) is never written, so it is read from
    the table as loaded. *)
Fixpoint scan_bands (filterrules : list rule) (bands : list string)
  (s : build_state) : build_state :=
  match bands with
  | [] => s
  | band0 :: bands' =>
      scan_bands filterrules bands' (scan_rules band0 0 filterrules s)
  end.

(** [self._unique_bands = band_list]: the objects behind the references,
    as they are once the loops have finished. *)
Definition build_band_list (filterrules : list rule) (bands : list string)
  : res (list band) :=
  let s := scan_bands filterrules bands (filterrules, []) in
  map_res (deref s.1) s.2.

(** ** NumPy and built-in numerics used by the code *)

Open Scope Q_scope.

Definition Qlt_bool (x y : Q) : bool := negb (Qle_bool y x).

(** [np.diff(x)] for a one-dimensional array. *)
Fixpoint np_diff (x : list Q) : list Q :=
  match x with
  | a :: (b :: _) as x' => (b - a) :: np_diff x'
  | _ => []
  end.

(** [y[1:] + y[:-1]], elementwise. *)
Definition pair_sums (y : list Q) : list Q :=
  zip_with Qplus (tail y) (removelast y).

(** [arr.sum()]. *)
Definition np_sum (l : list Q) : Q := fold_right Qplus 0 l.

(** [np.trapz(y, x)]: [(d * (y[1:] + y[:-1]) / 2.0).sum()] with
    [d = np.diff(x)].  It is only called on the two columns of the same
    rows, hence with [len(y) = len(x)]. *)
Definition np_trapz (y x : list Q) : Q :=
  np_sum (zip_with (fun d s => d * s / 2) (np_diff x) (pair_sums y)).

(** [np.trapz(y, dx=dx)]: the same sum with a scalar [d = dx]. *)
Definition np_trapz_dx (y : list Q) (dx : Q) : Q :=
  np_sum (map (fun s => dx * s / 2) (pair_sums y)).

(** The built-ins [min] and [max] on a list: the first extremal element,
    [ValueError] on an empty list. *)
Definition py_min (l : list Q) : res Q :=
  match l with
  | [] => Raise ValueError
  | a :: l' => Ok (fold_left (fun m x => if Qlt_bool x m then x else m) l' a)
  end.

Definition py_max (l : list Q) : res Q :=
  match l with
  | [] => Raise ValueError
  | a :: l' => Ok (fold_left (fun m x => if Qlt_bool m x then x else m) l' a)
  end.

(** [np.interp(x, xp, fp)] at one point, for [xp] increasing and no
    [left]/[right] given.  NumPy first locates [x]: beyond the last sample
    the result is [fp[-1]], before the first it is [fp[0]]; otherwise, with
    [j] such that [xp[j] <= x < xp[j+1]] (or [j] the last index), it is
    [fp[j]] when [j] is last or [xp[j] == x], and
    [slope * (x - xp[j]) + fp[j]] else. *)
Fixpoint interp_within (xp fp : list Q) (x : Q) : Q :=
  match xp, fp with
  | x0 :: (x1 :: _) as xp', y0 :: (y1 :: _) as fp' =>
      if Qlt_bool x x1 then
        if Qeq_bool x0 x then y0
        else (y1 - y0) / (x1 - x0) * (x - x0) + y0
      else interp_within xp' fp' x
  | _ :: _, y0 :: _ => y0
  | _, _ => 0
  end.

Definition interp_point (xp fp : list Q) (x : Q) : Q :=
  match last xp, last fp, xp, fp with
  | Some xn, Some yn, x0 :: _, y0 :: _ =>
      if Qlt_bool xn x then yn
      else if Qlt_bool x x0 then y0
      else interp_within xp fp x
  | _, _, _, _ => 0
  end.

(** [np.interp] on an array of points: [ValueError] when [xp] is empty or
    [fp] has another length. *)
Definition np_interp (x xp fp : list Q) : res (list Q) :=
  match xp with
  | [] => Raise ValueError
  | _ :: _ =>
      if Nat.eqb (length xp) (length fp) then Ok (map (interp_point xp fp) x)
      else Raise ValueError
  end.

(** [list(map(list, zip( *rows)))]: the columns of [rows], as many as the
    shortest row has entries (none when there is no row). *)
Definition min_len (rows : list (list Q)) : nat :=
  match rows with
  | [] => 0%nat
  | r :: rows' => fold_left (fun m r' => Nat.min m (length r')) rows' (length r)
  end.

Definition zip_star (rows : list (list Q)) : list (list Q) :=
  map (fun k => omap (fun r : list Q => r !! k) rows) (seq 0 (min_len rows)).

(** [a, b = cols]: exactly two values, else [ValueError]. *)
Definition unpack2 {A : Type} (cols : list A) : res (A * A) :=
  match cols with
  | [a; b] => Ok (a, b)
  | _ => Raise ValueError
  end.

(** [seq[i] = v] on a list: [IndexError] out of range. *)
Definition setitem {A : Type} (l : list A) (i : nat) (v : A) : res (list A) :=
  if Nat.ltb i (length l) then Ok (<[i := v]> l) else Raise IndexError.

(** ** Bandpass sources

    What [__init__] reads from outside the process.  [svo_xml p] is the
    VOTable for the catalogue path [p] as found on disk once the download
    has been tried ([None]: no such file); of a VOTable the code uses the
    values of the parameters named [ZeroPoint], in document order, and the
    first table.  [filter_file p] are the rows of the text file [p] under
    [filters/] ([None]: no such file).  The table written to the [.dat]
    cache and read back through [csv.reader] is taken to be read back
    unchanged. *)

Record votable : Type := mkVotable {
  zero_points : list Q;
  first_table : list (list Q)
}.

Record sources : Type := mkSources {
  svo_xml : string -> option votable;
  filter_file : string -> option (list (list Q))
}.

(** The integrals, offsets and magnitudes of one band or observation. *)
Inductive mag : Type :=
| Inf
| Fin (m : Q).

(** ** The [Filters] object *)

Record Filters : Type := mkFilters {
  _unique_bands : list band;
  _band_insts : list string;
  _band_bsets : list string;
  _band_systs : list string;
  _band_names : list string;
  _n_bands : nat;
  _band_wavelengths : list (list Q);
  _transmissions : list (list Q);
  _min_waves : list Q;
  _max_waves : list Q;
  _filter_integrals : list Q;
  _band_offsets : list Q;
  (* attributes written by [process] *)
  _bands : list string;
  _band_indices : list nat;
  _dxs : list Q;
  _dist_const : Q;
  _luminosities : list Q;
  _systems : list string;
  _instruments : list string;
  _bandsets : list string
}.

(** The arguments of [process]. *)
Record kwargs : Type := mkKwargs {
  all_bands : list string;
  samplewavelengths : list (list Q);
  lumdist : Q;
  luminosities : list Q;
  systems : list string;
  instruments : list string;
  bandsets : list string;
  seds : list (list Q)
}.

(** Attribute assignment [self.f = v], one function per attribute that is
    assigned after the object has been laid out. *)
Definition set_band_wavelengths (self : Filters) (v : list (list Q)) : Filters :=
  mkFilters (_unique_bands self) (_band_insts self) (_band_bsets self)
    (_band_systs self) (_band_names self) (_n_bands self)
    v (_transmissions self) (_min_waves self) (_max_waves self)
    (_filter_integrals self) (_band_offsets self)
    (_bands self) (_band_indices self) (_dxs self) (_dist_const self)
    (_luminosities self) (_systems self) (_instruments self) (_bandsets self).

Definition set_transmissions (self : Filters) (v : list (list Q)) : Filters :=
  mkFilters (_unique_bands self) (_band_insts self) (_band_bsets self)
    (_band_systs self) (_band_names self) (_n_bands self)
    (_band_wavelengths self) v (_min_waves self) (_max_waves self)
    (_filter_integrals self) (_band_offsets self)
    (_bands self) (_band_indices self) (_dxs self) (_dist_const self)
    (_luminosities self) (_systems self) (_instruments self) (_bandsets self).

Definition set_min_waves (self : Filters) (v : list Q) : Filters :=
  mkFilters (_unique_bands self) (_band_insts self) (_band_bsets self)
    (_band_systs self) (_band_names self) (_n_bands self)
    (_band_wavelengths self) (_transmissions self) v (_max_waves self)
    (_filter_integrals self) (_band_offsets self)
    (_bands self) (_band_indices self) (_dxs self) (_dist_const self)
    (_luminosities self) (_systems self) (_instruments self) (_bandsets self).

Definition set_max_waves (self : Filters) (v : list Q) : Filters :=
  mkFilters (_unique_bands self) (_band_insts self) (_band_bsets self)
    (_band_systs self) (_band_names self) (_n_bands self)
    (_band_wavelengths self) (_transmissions self) (_min_waves self) v
    (_filter_integrals self) (_band_offsets self)
    (_bands self) (_band_indices self) (_dxs self) (_dist_const self)
    (_luminosities self) (_systems self) (_instruments self) (_bandsets self).

Definition set_filter_integrals (self : Filters) (v : list Q) : Filters :=
  mkFilters (_unique_bands self) (_band_insts self) (_band_bsets self)
    (_band_systs self) (_band_names self) (_n_bands self)
    (_band_wavelengths self) (_transmissions self) (_min_waves self)
    (_max_waves self) v (_band_offsets self)
    (_bands self) (_band_indices self) (_dxs self) (_dist_const self)
    (_luminosities self) (_systems self) (_instruments self) (_bandsets self).

Definition set_band_offsets (self : Filters) (v : list Q) : Filters :=
  mkFilters (_unique_bands self) (_band_insts self) (_band_bsets self)
    (_band_systs self) (_band_names self) (_n_bands self)
    (_band_wavelengths self) (_transmissions self) (_min_waves self)
    (_max_waves self) (_filter_integrals self) v
    (_bands self) (_band_indices self) (_dxs self) (_dist_const self)
    (_luminosities self) (_systems self) (_instruments self) (_bandsets self).

Definition set_bands (self : Filters) (v : list string) : Filters :=
  mkFilters (_unique_bands self) (_band_insts self) (_band_bsets self)
    (_band_systs self) (_band_names self) (_n_bands self)
    (_band_wavelengths self) (_transmissions self) (_min_waves self)
    (_max_waves self) (_filter_integrals self) (_band_offsets self)
    v (_band_indices self) (_dxs self) (_dist_const self)
    (_luminosities self) (_systems self) (_instruments self) (_bandsets self).

Definition set_band_indices (self : Filters) (v : list nat) : Filters :=
  mkFilters (_unique_bands self) (_band_insts self) (_band_bsets self)
    (_band_systs self) (_band_names self) (_n_bands self)
    (_band_wavelengths self) (_transmissions self) (_min_waves self)
    (_max_waves self) (_filter_integrals self) (_band_offsets self)
    (_bands self) v (_dxs self) (_dist_const self)
    (_luminosities self) (_systems self) (_instruments self) (_bandsets self).

Definition set_dxs (self : Filters) (v : list Q) : Filters :=
  mkFilters (_unique_bands self) (_band_insts self) (_band_bsets self)
    (_band_systs self) (_band_names self) (_n_bands self)
    (_band_wavelengths self) (_transmissions self) (_min_waves self)
    (_max_waves self) (_filter_integrals self) (_band_offsets self)
    (_bands self) (_band_indices self) v (_dist_const self)
    (_luminosities self) (_systems self) (_instruments self) (_bandsets self).

Definition set_dist_const (self : Filters) (v : Q) : Filters :=
  mkFilters (_unique_bands self) (_band_insts self) (_band_bsets self)
    (_band_systs self) (_band_names self) (_n_bands self)
    (_band_wavelengths self) (_transmissions self) (_min_waves self)
    (_max_waves self) (_filter_integrals self) (_band_offsets self)
    (_bands self) (_band_indices self) (_dxs self) v
    (_luminosities self) (_systems self) (_instruments self) (_bandsets self).

(** [self._luminosities], [self._systems], [self._instruments] and
    [self._bandsets] are assigned on four consecutive lines with nothing
    that can raise in between (lines 176-179). *)
Definition set_batch (self : Filters) (kw : kwargs) : Filters :=
  mkFilters (_unique_bands self) (_band_insts self) (_band_bsets self)
    (_band_systs self) (_band_names self) (_n_bands self)
    (_band_wavelengths self) (_transmissions self) (_min_waves self)
    (_max_waves self) (_filter_integrals self) (_band_offsets self)
    (_bands self) (_band_indices self) (_dxs self) (_dist_const self)
    (luminosities kw) (systems kw) (instruments kw) (bandsets kw).

(** Modelled from the spec: [MAG_FAC] is imported from [mosfit.constants],
    which is not part of the sources at hand; the specification gives it as
    [MagnitudeScale = 2.5]. *)
Definition MAG_FAC : Q := 2.5.

Section FiltersModule.

(** [np.log10], and the remaining constants of [mosfit.constants]. *)
Variable log10 : Q -> Q.
Variable AB_OFFSET : Q.
Variable FOUR_PI : Q.
Variable MPC_CGS : Q.

(** *** [__init__], lines 65-147: loading one band

    The loops are written for the master process; the other processes
    receive the very [rows] and [zps] computed here (lines 130-135). *)

(** [for resource in vo_tab.resources: for param in resource.params:
    if param.name == 'ZeroPoint': ...] over the [ZeroPoint] values of one
    document; the state is [(zpfluxes, zps)]. *)
Fixpoint zero_point_loop (sys : string) (values : list Q)
  (st : list Q * list Q) : res (list Q * list Q) :=
  match values with
  | [] => Ok st
  | v :: values' =>
      let zpfluxes := st.1 ++ [v] in
      if negb (String.eqb sys "AB") then
        (* 0th element is AB flux *)
        do f0 <- index zpfluxes 0;
        do fl <- index_last zpfluxes;
        zero_point_loop sys values'
          (zpfluxes, st.2 ++ [2.5 * log10 (f0 / fl)])
      else zero_point_loop sys values' (zpfluxes, st.2)
  end.

(** [for sys in systems: ...] (lines 74-121); the state carries, besides
    [(zpfluxes, zps)], the table last written to [path]. *)
Fixpoint svo_loop (src : sources) (prefix : string) (systems0 : list string)
  (st : list Q * list Q) (tab : list (list Q))
  : res (list Q * list Q * list (list Q)) :=
  match systems0 with
  | [] => Ok (st, tab)
  | sys :: systems' =>
      let svopath := String.append prefix (String.append "/" sys) in
      match svo_xml src svopath with
      | Some vo_tab =>
          do st' <- zero_point_loop sys (zero_points vo_tab) st;
          svo_loop src prefix systems' st' (first_table vo_tab)
      | None =>
          (* Error: Could not read SVO filter! *)
          Raise RuntimeError
      end
  end.

(** Lines 67-129: the rows of the curve and the list [zps]. *)
Definition load_curve (src : sources) (b : band)
  : res (list (list Q) * list Q) :=
  let zps := [0] in
  match b_SVO b with
  | Some svo =>
      let parts := split "/" svo in
      do photsystem <- index_last parts;
      let systems0 :=
        if existsb (String.eqb photsystem) ["AB"] then ["AB"]
        else ["AB"; photsystem] in
      do r <- svo_loop src (join "/" (all_but_last parts)) systems0
                ([], zps) [];
      Ok (map (take 2) r.2, r.1.2)
  | None =>
      do path <- getitem (b_path b);
      match filter_file src path with
      | Some rows => Ok (map (take 2) rows, zps)
      | None => Raise IOError
      end
  end.

(** Lines 144-147. *)
Definition store_offset (b : band) (zps : list Q) (i : nat)
  (offsets : list Q) : res (list Q) :=
  match b_offset b with
  | Some o => setitem offsets i o
  | None =>
      match b_SVO b with
      | Some _ => do z <- index_last zps; setitem offsets i z
      | None => Ok offsets
      end
  end.

(** One turn of [for i, band in enumerate(self._unique_bands)]. *)
Definition init_band (src : sources) (i : nat) (b : band) (self : Filters)
  : res Filters :=
  do r <- load_curve src b;
  do cols <- unpack2 (zip_star r.1);
  do bw <- setitem (_band_wavelengths self) i cols.1;
  do tr <- setitem (_transmissions self) i cols.2;
  do lo <- py_min cols.1;
  do mins <- setitem (_min_waves self) i lo;
  do hi <- py_max cols.1;
  do maxs <- setitem (_max_waves self) i hi;
  do ints <- setitem (_filter_integrals self) i (np_trapz cols.2 cols.1);
  do offs <- store_offset b r.2 i (_band_offsets self);
  Ok (set_band_offsets
        (set_filter_integrals
           (set_max_waves
              (set_min_waves
                 (set_transmissions (set_band_wavelengths self bw) tr)
                 mins) maxs) ints) offs).

Fixpoint init_loop (src : sources) (i : nat) (bs : list band)
  (self : Filters) : res Filters :=
  match bs with
  | [] => Ok self
  | b :: bs' =>
      do self' <- init_band src i b self;
      init_loop src (S i) bs' self'
  end.

(** [Filters.__init__], with [bands] the listified [bands] argument.  The
    attributes that only [process] assigns do not exist yet in Python;
    here they start out empty. *)
Definition init (src : sources) (filterrules : list rule)
  (bands : list string) : res Filters :=
  do band_list <- build_band_list filterrules bands;
  do insts <- map_res (fun x => getitem (b_instruments x)) band_list;
  do bsets <- map_res (fun x => getitem (b_bandsets x)) band_list;
  do systs <- map_res (fun x => getitem (b_systems x)) band_list;
  do names <- map_res (fun x => getitem (b_name x)) band_list;
  let n := length band_list in
  init_loop src 0 band_list
    (mkFilters band_list insts bsets systs names n
       (replicate n []) (replicate n []) (replicate n 0) (replicate n 0)
       (replicate n 0) (replicate n 0)
       [] [] [] 0 [] [] [] []).

(** *** [find_band_index] *)

(** [a and b], where evaluating [b] may raise and is skipped when [a] is
    false. *)
Definition and_then (a : res bool) (b : res bool) : res bool :=
  do x <- a; if x then b else Ok false.

Definition name_is (name : string) (b : band) : res bool :=
  do n <- getitem (b_name b); Ok (String.eqb name n).

Definition str_in_at (a : string) (l : list string) (bi : nat) : res bool :=
  do s <- index l bi; Ok (str_in a s).

(** The conditions of the four [if] statements of the loop body. *)
Definition tier1 (self : Filters) (name instrument bandset system : string)
  (bi : nat) (b : band) : res bool :=
  and_then (name_is name b)
    (and_then (str_in_at instrument (_band_insts self) bi)
       (and_then (str_in_at bandset (_band_bsets self) bi)
          (str_in_at system (_band_systs self) bi))).

Definition tier2 (self : Filters) (name instrument system : string)
  (bi : nat) (b : band) : res bool :=
  and_then (name_is name b)
    (and_then (str_in_at instrument (_band_insts self) bi)
       (str_in_at system (_band_systs self) bi)).

Definition tier3 (self : Filters) (name system : string)
  (bi : nat) (b : band) : res bool :=
  and_then (name_is name b) (str_in_at system (_band_systs self) bi).

Definition tier4 (self : Filters) (name : string)
  (bi : nat) (b : band) : res bool :=
  and_then (name_is name b)
    (and_then (str_in_at "" (_band_insts self) bi)
       (and_then (str_in_at "" (_band_bsets self) bi)
          (str_in_at "" (_band_systs self) bi))).

(** The body of the loop: does the entry at [bi] make one of the four
    [return bi] fire? *)
Definition entry_matches (self : Filters)
  (name instrument bandset system : string) (bi : nat) (b : band)
  : res bool :=
  do t1 <- tier1 self name instrument bandset system bi b;
  if t1 then Ok true else
  do t2 <- tier2 self name instrument system bi b;
  if t2 then Ok true else
  do t3 <- tier3 self name system bi b;
  if t3 then Ok true else
  tier4 self name bi b.

(** [for bi, band in enumerate(self._unique_bands): ...], from index [bi]
    on, then [raise ValueError]. *)
Fixpoint find_from (self : Filters) (name instrument bandset system : string)
  (bi : nat) (bs : list band) : res nat :=
  match bs with
  | [] => Raise ValueError
  | b :: bs' =>
      do hit <- entry_matches self name instrument bandset system bi b;
      if hit then Ok bi
      else find_from self name instrument bandset system (S bi) bs'
  end.

Definition find_band_index (self : Filters)
  (name instrument bandset system : string) : res nat :=
  find_from self name instrument bandset system 0 (_unique_bands self).

(** *** [abmag] and [process] *)

Definition abmag (self : Filters) (eff_fluxes offsets : list Q) : list mag :=
  zip_with
    (fun x y =>
       if Qeq_bool x 0 then Inf
       else Fin (AB_OFFSET - y - MAG_FAC * (log10 x - _dist_const self)))
    eff_fluxes offsets.

(** Lines 171-174: [self._dxs] grows by one element per element of
    [self._band_indices]; what has been appended stays when a later turn
    raises. *)
Fixpoint dxs_loop (kw : kwargs) (indices : list nat) (self : Filters)
  : Filters * res unit :=
  match indices with
  | [] => (self, Ok tt)
  | bi :: indices' =>
      match index (samplewavelengths kw) bi with
      | Raise e => (self, Raise e)
      | Ok wavs =>
          match index wavs 1, index wavs 0 with
          | Ok w1, Ok w0 =>
              dxs_loop kw indices' (set_dxs self (_dxs self ++ [w1 - w0]))
          | Raise e, _ => (self, Raise e)
          | _, Raise e => (self, Raise e)
          end
      end
  end.

(** Lines 182-191: one turn appends to [eff_fluxes] and [offsets]. *)
Definition flux_step (self : Filters) (kw : kwargs) (li : nat)
  : res (Q * Q) :=
  do bi <- index (_band_indices self) li;
  do off <- index (_band_offsets self) bi;
  do wavs <- index (samplewavelengths kw) bi;
  do xp <- index (_band_wavelengths self) bi;
  do fp <- index (_transmissions self) bi;
  do itrans <- np_interp wavs xp fp;
  do sed <- index (seds kw) li;
  let yvals := zip_with Qmult itrans sed in
  do dx <- index (_dxs self) bi;
  do integral <- index (_filter_integrals self) bi;
  Ok (np_trapz_dx yvals dx / integral, off).

Fixpoint flux_loop (self : Filters) (kw : kwargs) (lis : list nat)
  (acc : list Q * list Q) : res (list Q * list Q) :=
  match lis with
  | [] => Ok acc
  | li :: lis' =>
      do r <- flux_step self kw li;
      flux_loop self kw lis' (acc.1 ++ [r.1], acc.2 ++ [r.2])
  end.

(** [eff_fluxes] and [offsets] as they stand at line 192. *)
Definition eff_fluxes_offsets (self : Filters) (kw : kwargs)
  : res (list Q * list Q) :=
  flux_loop self kw (seq 0 (length (_luminosities self))) ([], []).

(** [process]: the object after the call, and the returned
    [model_magnitudes] or the exception raised. *)
Definition process (self : Filters) (kw : kwargs)
  : Filters * res (list mag) :=
  let self := set_bands self (all_bands kw) in
  match map_res (fun name => find_band_index self name "" "" "")
                (_bands self) with
  | Raise e => (self, Raise e)
  | Ok indices =>
      let self := set_dxs (set_band_indices self indices) [] in
      match dxs_loop kw (_band_indices self) self with
      | (self, Raise e) => (self, Raise e)
      | (self, Ok _) =>
          let self :=
            set_dist_const self
              (log10 (FOUR_PI * (lumdist kw * MPC_CGS) ^ 2)) in
          let self := set_batch self kw in
          match eff_fluxes_offsets self kw with
          | Raise e => (self, Raise e)
          | Ok r => (self, Ok (abmag self r.1 r.2))
          end
      end
  end.

End FiltersModule.

(** *** [band_names] and [request] *)

Definition band_names (self : Filters) : list string := _band_names self.

(** What [request] hands back: the object itself, or a list of lists
    (the empty list for a request it does not know). *)
Inductive response : Type :=
| TheFilters (self : Filters)
| Ranges (l : list (list Q)).

Definition request (self : Filters) (req : string) : response :=
  if String.eqb req "filters" then TheFilters self
  else if String.eqb req "band_wave_ranges" then
    Ranges (zip_star [_min_waves self; _max_waves self])
  else Ranges [].

(** ** [tde_photosphere.process] *)

Module TdePhotosphere.

(** The inputs read from [kwargs], as [prepare_input] (defined in the base
    class) hands them over. *)
Record inputs : Type := mkInputs {
  rest_times : list Q;
  bhmass : Q;
  starmass : Q;
  lphoto : Q;
  Rph0 : Q;
  luminosities : list Q;
  Rstar : Q
}.

(** A NumPy float, as far as this module meets it: a number, or [nan]. *)
Inductive npfloat : Type :=
| Num (q : Q)
| NaN.

Record outputs : Type := mkOutputs {
  radiusphot : list npfloat;
  temperaturephot : list npfloat
}.

(** [np.argmax]: the index of the first greatest element, [ValueError]
    on an empty array. *)
Fixpoint argmax_from (best : Q) (besti i : nat) (l : list Q) : nat :=
  match l with
  | [] => besti
  | x :: l' =>
      if Qlt_bool best x then argmax_from x i (S i) l'
      else argmax_from best besti (S i) l'
  end.

Definition np_argmax (l : list Q) : res nat :=
  match l with
  | [] => Raise ValueError
  | x :: l' => Ok (argmax_from x 0 1 l')
  end.

(** An arithmetic expression in one float operand: [nan] where the
    operand is [nan]. *)
Definition nf_map (f : Q -> Q) (x : npfloat) : npfloat :=
  match x with
  | Num q => Num (f q)
  | NaN => NaN
  end.

(** [a < b] on floats: false as soon as one side is [nan]. *)
Definition nf_lt (a b : npfloat) : bool :=
  match a, b with
  | Num x, Num y => Qlt_bool x y
  | _, _ => false
  end.

(** The float [y] has an integer value. *)
Definition is_integer (y : Q) : bool :=
  (Qnum y mod Zpos (Qden y) =? 0)%Z.

(** An elementwise operation on two one-dimensional arrays, with NumPy's
    broadcasting: equal lengths, or one of them of length one. *)
Definition broadcast2 {X Y A : Type} (f : X -> Y -> A) (a : list X)
  (b : list Y) : res (list A) :=
  if Nat.eqb (length a) (length b) then Ok (zip_with f a b)
  else match a, b with
       | [x], _ => Ok (map (f x) b)
       | _, [y] => Ok (map (fun x => f x y) a)
       | _, _ => Raise ValueError
       end.

(** [np.where(a > b, b, a)]. *)
Definition np_where_gt (a b : list npfloat) : res (list npfloat) :=
  broadcast2 (fun x y => if nf_lt y x then y else x) a b.

(** [arr[arr < lo] = lo]: the mask is false on a [nan], which stays. *)
Definition clamp_below (lo : Q) (arr : list npfloat) : list npfloat :=
  map (fun r => if nf_lt r (Num lo) then Num lo else r) arr.

Section Process.

(** [x ** y] on numbers for which it is one, [np.pi], and the physical
    constants of [astropy.constants] and [mosfit.constants] in CGS
    units. *)
Variable pow : Q -> Q -> Q.
Variable pi : Q.
Variable G : Q.
Variable sigma_sb : Q.
Variable DAY_CGS : Q.
Variable M_SUN_CGS : Q.
Variable C_CGS : Q.

(** [x ** y] for a NumPy float [x] and a float exponent [y]: [nan] for a
    negative base under an exponent that is not an integer, and for a
    [nan] base unless the exponent is zero. *)
Definition np_pow (x : npfloat) (y : Q) : npfloat :=
  match x with
  | Num q =>
      if Qlt_bool q 0 && negb (is_integer y) then NaN else Num (pow q y)
  | NaN => if Qeq_bool y 0 then Num 1 else NaN
  end.

Definition STEF_CONST : Q := 4.0 * pi * sigma_sb.

(** [len(np.where(luminosities <= 0)[0])]. *)
Definition count_nonpositive (l : list Q) : nat :=
  length (filter (fun x => Qle_bool x 0 = true) l).

Definition kappa_t : Q := 0.2 * (1 + 0.74).

Definition Ledd (Mh : Q) : Q :=
  4 * pi * G * Mh * M_SUN_CGS * C_CGS / kappa_t.

Definition r_isco (Mh : Q) : Q :=
  6 * G * Mh * M_SUN_CGS / (C_CGS * C_CGS).

(** The semi-major axis of the material that accretes [dt] days after the
    first accretion (lines 53-54 and 59-60). *)
Definition semi_major_axis (Mh dt : Q) : npfloat :=
  np_pow (Num (G * Mh * M_SUN_CGS * (dt * DAY_CGS / pi) ^ 2)) (1 / 3).

(** The power law of line 70 for one luminosity. *)
Definition power_law (Rph_0 : Q) (a_p : npfloat) (Mh l L : Q) : npfloat :=
  np_pow (nf_map (fun a => Rph_0 * a * L / Ledd Mh) a_p) l.

(** [process] with [TESTING = False], the value the class sets. *)
Definition process (kw : inputs) : res outputs :=
  let times := rest_times kw in
  let Mh := bhmass kw in
  let l := lphoto kw in
  let Rph_0 := pow 10.0 (Rph0 kw) in
  let lums := luminosities kw in
  do imax <- np_argmax lums;
  do tpeak <- index times imax;
  let ilumzero := count_nonpositive lums in
  let rphotmin := r_isco Mh in
  if Nat.eqb ilumzero (length lums) then
    Ok {| radiusphot := map (fun one => Num (one * rphotmin))
                            (replicate (length lums) 1);
          temperaturephot := replicate (length lums) (Num 0) |}
  else
    do t0 <- index times ilumzero;
    let a_p := semi_major_axis Mh (tpeak - t0) in
    let a_t := map (fun t => semi_major_axis Mh (t - t0))
                   (drop ilumzero times) in
    let rphotmax := map (nf_map (fun a => 2 * a)) a_t in
    let rphot1 := map (fun one => Num (one * rphotmin))
                      (replicate ilumzero 1) in
    let rphot2 := map (power_law Rph_0 a_p Mh l) (drop ilumzero lums) in
    let rphot2 := clamp_below rphotmin rphot2 in
    (* the value of this expression is dropped *)
    do _ <- np_where_gt rphot2 rphotmax;
    let rphot := rphot1 ++ rphot2 in
    do Tphot <- broadcast2
                  (fun L r =>
                     np_pow (nf_map (fun r' => L / (r' ^ 2 * STEF_CONST)) r)
                            0.25)
                  lums rphot;
    Ok {| radiusphot := rphot; temperaturephot := Tphot |}.

(** The radii of the branch taken when some luminosity is positive, as a
    function of the time of peak [tpeak] and of the time [t0] at index
    [ilumzero]. *)
Definition radii_of (kw : inputs) (tpeak t0 : Q) : list npfloat :=
  let lums := luminosities kw in
  let Mh := bhmass kw in
  let ilumzero := count_nonpositive lums in
  map (fun one => Num (one * r_isco Mh)) (replicate ilumzero 1)
  ++ map (fun L =>
            let r := power_law (pow 10.0 (Rph0 kw))
                               (semi_major_axis Mh (tpeak - t0))
                               Mh (lphoto kw) L in
            if nf_lt r (Num (r_isco Mh)) then Num (r_isco Mh) else r)
         (drop ilumzero lums).

End Process.

End TdePhotosphere.

(** ** [TemperatureFloor.process] *)

Module TemperatureFloor.

Record inputs : Type := mkInputs {
  resttexplosion : Q;
  rest_times : list Q;
  luminosities : list Q;
  temperature : Q;
  vejecta : Q;
  mejecta : Q;
  kappa : Q
}.

Record outputs : Type := mkOutputs {
  radiusphot : list Q;
  temperaturephot : list Q
}.

Section Process.

(** [x ** 0.25], [np.sqrt], and the constants of [mosfit.constants] and
    [astropy.constants]. *)
Variable pow : Q -> Q -> Q.
Variable sqrt : Q -> Q.
Variable FOUR_PI : Q.
Variable sigma_sb : Q.
Variable KM_CGS : Q.
Variable DAY_CGS : Q.

Definition STEF_CONST : Q := FOUR_PI * sigma_sb.
Definition RAD_CONST : Q := KM_CGS * DAY_CGS.

(** [self._radius2] and [self._rec_radius2] (lines 31-37). *)
Definition radius2_list (kw : inputs) : list Q :=
  map (fun x => (RAD_CONST * vejecta kw * (x - resttexplosion kw)) ^ 2)
      (rest_times kw).

Definition rec_radius2_list (kw : inputs) : list Q :=
  map (fun x => x / (STEF_CONST * temperature kw ^ 4)) (luminosities kw).

(** One turn of the loop of lines 40-52: the values appended to [rphot]
    and [Tphot]. *)
Definition floor_step (kw : inputs) (li : nat) (lum : Q) : res (Q * Q) :=
  do radius2 <- index (radius2_list kw) li;
  do rec_radius2 <- index (rec_radius2_list kw) li;
  if Qlt_bool radius2 rec_radius2 then
    Ok (sqrt radius2, pow (lum / (STEF_CONST * radius2)) 0.25)
  else
    Ok (sqrt rec_radius2, temperature kw).

Fixpoint floor_loop (kw : inputs) (li : nat) (lums : list Q)
  (acc : list Q * list Q) : res (list Q * list Q) :=
  match lums with
  | [] => Ok acc
  | lum :: lums' =>
      do r <- floor_step kw li lum;
      floor_loop kw (S li) lums' (acc.1 ++ [r.1], acc.2 ++ [r.2])
  end.

Definition process (kw : inputs) : res outputs :=
  do r <- floor_loop kw 0 (luminosities kw) ([], []);
  Ok {| radiusphot := r.1; temperaturephot := r.2 |}.

End Process.

End TemperatureFloor.

(** ** Notions used to state the properties *)

(** The references [band_list] is expected to hold: for each requested
    band, rule by rule and filter name by filter name, one reference per
    combination of the rule. *)
Definition requested (band0 bnd : string) : bool :=
  String.eqb band0 bnd || String.eqb band0 "".

Definition refs_of_rule (band0 : string) (ri : nat) (rl : rule) : list ref :=
  bnd ← List.filter (requested band0) (map fst (get_filters rl));
  perm ← sysinstperms rl;
  [(ri, bnd)].

Fixpoint refs_of_rules (band0 : string) (ri : nat) (rules : list rule)
  : list ref :=
  match rules with
  | [] => []
  | rl :: rules' => refs_of_rule band0 ri rl ++ refs_of_rules band0 (S ri) rules'
  end.

Definition refs_of_bands (filterrules : list rule) (bands : list string)
  : list ref :=
  band0 ← bands; refs_of_rules band0 0 filterrules.

(** The area under the polygon through the points [(x, y)], trapezoid by
    trapezoid. *)
Fixpoint trapezoid_area (pts : list (Q * Q)) : Q :=
  match pts with
  | p0 :: (p1 :: _) as pts' =>
      (p1.1 - p0.1) * (p0.2 + p1.2) / 2 + trapezoid_area pts'
  | _ => 0
  end.

(** The four tests of [find_band_index] for a request, read on the
    fields of a registry entry, as the code makes them: [in] is Python's
    on strings, so [field_has ""] holds of every field that is set. *)
Definition named (name : string) (b : band) : bool :=
  match b_name b with
  | Some n => String.eqb name n
  | None => false
  end.

Definition field_has (a : string) (field : option string) : bool :=
  match field with
  | Some s => str_in a s
  | None => false
  end.

Definition satisfies_tier1 (name instrument bandset system : string)
  (b : band) : bool :=
  named name b && field_has instrument (b_instruments b)
  && field_has bandset (b_bandsets b) && field_has system (b_systems b).

Definition satisfies_tier2 (name instrument system : string) (b : band)
  : bool :=
  named name b && field_has instrument (b_instruments b)
  && field_has system (b_systems b).

Definition satisfies_tier3 (name system : string) (b : band) : bool :=
  named name b && field_has system (b_systems b).

Definition satisfies_tier4 (name : string) (b : band) : bool :=
  named name b && field_has "" (b_instruments b)
  && field_has "" (b_bandsets b) && field_has "" (b_systems b).

Definition satisfies_some_tier (name instrument bandset system : string)
  (b : band) : bool :=
  satisfies_tier1 name instrument bandset system b
  || satisfies_tier2 name instrument system b
  || satisfies_tier3 name system b
  || satisfies_tier4 name b.

(** The fourth tier as the specification words it: the entry is the
    fully-unqualified default, its instrument, bandset and system being
    the empty string.  The first three tiers are worded as the code tests
    them. *)
Definition unqualified (field : option string) : bool :=
  match field with
  | Some s => String.eqb s ""
  | None => false
  end.

Definition spec_tier4 (name : string) (b : band) : bool :=
  named name b && unqualified (b_instruments b)
  && unqualified (b_bandsets b) && unqualified (b_systems b).

Definition spec_some_tier (name instrument bandset system : string)
  (b : band) : bool :=
  satisfies_tier1 name instrument bandset system b
  || satisfies_tier2 name instrument system b
  || satisfies_tier3 name system b
  || spec_tier4 name b.

(** The invariant [__init__] sets up between [_unique_bands] and the four
    lists of strings derived from it (lines 52-56). *)
Definition registry_wf (self : Filters) : Prop :=
  map b_instruments (_unique_bands self) = map Some (_band_insts self)
  /\ map b_bandsets (_unique_bands self) = map Some (_band_bsets self)
  /\ map b_systems (_unique_bands self) = map Some (_band_systs self)
  /\ map b_name (_unique_bands self) = map Some (_band_names self).

(** The registry: every attribute [__init__] assigns. *)
Definition same_registry (a b : Filters) : Prop :=
  _unique_bands a = _unique_bands b
  /\ _band_insts a = _band_insts b
  /\ _band_bsets a = _band_bsets b
  /\ _band_systs a = _band_systs b
  /\ _band_names a = _band_names b
  /\ _n_bands a = _n_bands b
  /\ _band_wavelengths a = _band_wavelengths b
  /\ _transmissions a = _transmissions b
  /\ _min_waves a = _min_waves b
  /\ _max_waves a = _max_waves b
  /\ _filter_integrals a = _filter_integrals b
  /\ _band_offsets a = _band_offsets b.

(** What [__init__] has stored for the band at index [j]. *)
Definition entry (self : Filters) (j : nat)
  : option (list Q) * option (list Q) * option Q * option Q * option Q
    * option Q :=
  (_band_wavelengths self !! j, _transmissions self !! j,
   _min_waves self !! j, _max_waves self !! j,
   _filter_integrals self !! j, _band_offsets self !! j).

(** The offset left at a band's index by lines 144-147, given what was
    there before. *)
Definition offset_after (b : band) (zps : list Q) (before : option Q)
  : option Q :=
  match b_offset b with
  | Some o => Some o
  | None =>
      match b_SVO b with
      | Some _ => last zps
      | None => before
      end
  end.

(** The band [b] has been loaded into index [i] of [self]: its curve was
    read as the columns [w] and [t] and its zero points as [zps]. *)
Definition loaded (log10 : Q -> Q) (src : sources) (self : Filters)
  (i : nat) (b : band) (w t : list Q) (zps : list Q) : Prop :=
  exists rows lo hi,
    load_curve log10 src b = Ok (rows, zps)
    /\ unpack2 (zip_star rows) = Ok (w, t)
    /\ py_min w = Ok lo /\ py_max w = Ok hi
    /\ entry self i
       = (Some w, Some t, Some lo, Some hi, Some (np_trapz t w),
          offset_after b zps (Some 0)).

(** The catalogue path asked for the curve of [svo] in the photometric
    system [sys] (lines 75-76). *)
Definition svo_path (svo sys : string) : string :=
  String.append (join "/" (all_but_last (split "/" svo)))
                (String.append "/" sys).

(** The effective flux of one observation as the specification words it:
    the transmission interpolated onto the observation's grid [wavs], times
    the SED, integrated by the trapezoidal rule with the step given by the
    first two points of that same grid, over the band's integral. *)
Definition effective_flux_on_own_grid (wavs xp fp sed : list Q)
  (integral : Q) : res Q :=
  do itrans <- np_interp wavs xp fp;
  do w1 <- index wavs 1;
  do w0 <- index wavs 0;
  Ok (np_trapz_dx (zip_with Qmult itrans sed) (w1 - w0) / integral).

(** Grid points outside the domain of the curve [(xp, fp)] add nothing to
    the terms summed for the band-weighted flux. *)
Definition outside_points_excluded (xp fp wavs sed : list Q) : Prop :=
  forall itrans lo hi k x y,
    np_interp wavs xp fp = Ok itrans ->
    py_min xp = Ok lo -> py_max xp = Ok hi ->
    wavs !! k = Some x -> (x < lo \/ hi < x) ->
    zip_with Qmult itrans sed !! k = Some y ->
    y == 0.

(** ** Worked inputs *)

(** A stand-in for [np.log10] and the constants, to run the definitions:
    the outcomes stated on the inputs below do not depend on them. *)
Definition log10_stand_in (x : Q) : Q := x.

Definition no_filters : Filters :=
  mkFilters [] [] [] [] [] 0 [] [] [] [] [] [] [] [] [] 0 [] [] [] [].

Definition unwrap (r : res Filters) : Filters :=
  match r with
  | Ok st => st
  | Raise _ => no_filters
  end.

Definition local_band (path : string) : band :=
  mkBand None (Some path) None None None None None.

(** One rule, two systems, one filter. *)
Definition rules_two_systems : list rule :=
  [ mkRule (Some ["AB"; "Vega"]) None None (Some [("V", local_band "V.dat")]) ].

(** A rule without qualifiers, then one for instrument [PS1] in system
    [AB], both with a filter [V]; and the same rules the other way round. *)
Definition rules_default_first : list rule :=
  [ mkRule None None None (Some [("V", local_band "V.dat")]);
    mkRule (Some ["AB"]) (Some ["PS1"]) None
           (Some [("V", local_band "PS1_V.dat")]) ].

Definition rules_default_last : list rule :=
  [ mkRule (Some ["AB"]) (Some ["PS1"]) None
           (Some [("V", local_band "PS1_V.dat")]);
    mkRule None None None (Some [("V", local_band "V.dat")]) ].

(** The qualified rule alone. *)
Definition rules_PS1_only : list rule :=
  [ mkRule (Some ["AB"]) (Some ["PS1"]) None
           (Some [("V", local_band "PS1_V.dat")]) ].

(** One rule with the filters [A] and [B]. *)
Definition rules_A_B : list rule :=
  [ mkRule None None None
           (Some [("A", local_band "A.dat"); ("B", local_band "B.dat")]) ].

(** The curve files: all flat at [1], [A.dat] on the grid [0, 1, 2] and
    the others on [0, 2, 4]. *)
Definition curve_files : sources :=
  mkSources (fun _ => None)
    (fun path =>
       if String.eqb path "A.dat" then Some [[0; 1]; [1; 1]; [2; 1]]
       else if String.eqb path "B.dat" || String.eqb path "V.dat"
               || String.eqb path "PS1_V.dat"
       then Some [[0; 1]; [2; 1]; [4; 1]]
       else None).

Definition filters_default_first : Filters :=
  Eval vm_compute in
    unwrap (init log10_stand_in curve_files rules_default_first ["V"]).

Definition filters_default_last : Filters :=
  Eval vm_compute in
    unwrap (init log10_stand_in curve_files rules_default_last ["V"]).

Definition filters_A_B : Filters :=
  Eval vm_compute in
    unwrap (init log10_stand_in curve_files rules_A_B ["A"; "B"]).

Definition filters_PS1_only : Filters :=
  Eval vm_compute in
    unwrap (init log10_stand_in curve_files rules_PS1_only ["V"]).

(** Two observations, the first in band [B] and the second in band [A];
    each band is sampled on its own grid, and both SEDs are flat at [1]. *)
Definition batch_B_A : kwargs :=
  mkKwargs ["B"; "A"] [[0; 1; 2]; [0; 2; 4]] 1 [1; 1] [""; ""] [""; ""]
           [""; ""] [[1; 1; 1]; [1; 1; 1]].

Definition batch_A_B : kwargs :=
  mkKwargs ["A"; "B"] [[0; 1; 2]; [0; 2; 4]] 1 [1; 1] [""; ""] [""; ""]
           [""; ""] [[1; 1; 1]; [1; 1; 1]].

(** A band with a remote-catalogue source whose native system is Vega,
    and the two documents the catalogue serves for it. *)
Definition rules_svo : list rule :=
  [ mkRule (Some ["Vega"]) None None
      (Some [("U", mkBand (Some "Generic/Bessell.U/Vega") None None
                     None None None None)]) ].

Definition catalogue : sources :=
  mkSources
    (fun path =>
       if String.eqb path "Generic/Bessell.U/AB"
       then Some (mkVotable [4] [[0; 1]; [2; 1]])
       else if String.eqb path "Generic/Bessell.U/Vega"
       then Some (mkVotable [2] [[0; 1]; [2; 1]])
       else None)
    (fun _ => None).

Definition filters_svo : Filters :=
  Eval vm_compute in
    unwrap (init log10_stand_in catalogue rules_svo ["U"]).

(** The first call on [filters_A_B]: the object it leaves and what it
    returns. *)
Definition run_B_A : Filters * res (list mag) :=
  Eval vm_compute in process log10_stand_in 0 1 1 filters_A_B batch_B_A.

Definition band_A : band :=
  mkBand None (Some "A.dat") None (Some "") (Some "") (Some "") (Some "A").

Definition band_U : band :=
  mkBand (Some "Generic/Bessell.U/Vega") None None
         (Some "Vega") (Some "") (Some "") (Some "U").

(** A stand-in for [**] and an input of the TDE photosphere with two
    luminosities at zero followed by two positive ones. *)
Definition pow_stand_in (x y : Q) : Q := x.

Definition tde_inputs : TdePhotosphere.inputs :=
  TdePhotosphere.mkInputs [0; 1; 2; 3] 1 1 1 0 [0; 0; 5; 2] 1.

(** ** Notions for the further properties *)

(** [_n_bands] and the lengths of the six per-band lists [__init__]
    fills. *)
Definition layout (self : Filters) : nat * list nat :=
  (_n_bands self,
   [length (_band_wavelengths self); length (_transmissions self);
    length (_min_waves self); length (_max_waves self);
    length (_filter_integrals self); length (_band_offsets self)]).

(** [f] applied to the result of a computation that may raise. *)
Definition res_map {A B : Type} (f : A -> B) (m : res A) : res B :=
  do x <- m; Ok (f x).

(** What a dictionary of the rule table reads once the registry loops are
    over, if it was appended at all: its own keys, with the name of its
    filter and the last combination of its rule written over them. *)
Definition entry_of (filterrules : list rule) (r : ref) : res band :=
  do rl <- index filterrules r.1;
  do b0 <- deref filterrules r;
  do perm <- index_last (sysinstperms rl);
  Ok (set_perm r.2 perm b0).

(** The store and [band_list] in the course of the registry loops: the
    dictionaries referred to from [band_list] read as [entry_of] says, and
    the others as in the rule table. *)
Definition store_inv (filterrules : list rule) (s : build_state) : Prop :=
  forall r,
    (r ∈ s.2 -> deref s.1 r = entry_of filterrules r)
    /\ (r ∉ s.2 -> deref s.1 r = deref filterrules r).

(** ** Further worked inputs *)

Definition mags_of (r : res (list mag)) : list mag :=
  match r with
  | Ok mags => mags
  | Raise _ => []
  end.

Definition fluxes_of (r : res (list Q * list Q)) : list Q * list Q :=
  match r with
  | Ok x => x
  | Raise _ => ([], [])
  end.

(** A batch asking for a band [Z] that the registry does not have. *)
Definition batch_Z : kwargs :=
  mkKwargs ["A"; "Z"] [[0; 1; 2]; [0; 2; 4]] 1 [1; 1] [""; ""] [""; ""]
           [""; ""] [[1; 1; 1]; [1; 1; 1]].

(** The batch [batch_B_A] with both bands sampled on grids of spacing
    [1], what [process] makes of it, and the fluxes of its loop. *)
Definition batch_same_spacing : kwargs :=
  mkKwargs ["B"; "A"] [[0; 1; 2]; [0; 1; 2]] 1 [1; 1] [""; ""] [""; ""]
           [""; ""] [[1; 1; 1]; [1; 1; 1]].

Definition run_same_spacing : Filters * res (list mag) :=
  Eval vm_compute in
    process log10_stand_in 0 1 1 filters_A_B batch_same_spacing.

Definition fluxes_same_spacing : list Q * list Q :=
  Eval vm_compute in
    fluxes_of (eff_fluxes_offsets run_same_spacing.1 batch_same_spacing).

(** [lo <= r] on floats, which is false of a [nan]: the lower bound as a
    statement about a returned radius. *)
Definition at_least (lo : Q) (r : TdePhotosphere.npfloat) : bool :=
  match r with
  | TdePhotosphere.Num q => Qle_bool lo q
  | TdePhotosphere.NaN => false
  end.

(** TDE inputs with a negative luminosity after the positive one, under
    the exponent [lphoto = 0.5], and their outputs. *)
Definition tde_inputs_negative : TdePhotosphere.inputs :=
  TdePhotosphere.mkInputs [1; 2] 1 1 0.5 0 [5; -1] 1.

Definition tde_outputs_negative : TdePhotosphere.outputs :=
  Eval vm_compute in
    match TdePhotosphere.process pow_stand_in 3 1 1 1 1 1
            tde_inputs_negative with
    | Ok out => out
    | Raise _ => TdePhotosphere.mkOutputs [] []
    end.

(** TDE inputs without accretion, and the outputs for [tde_inputs]. *)
Definition tde_inputs_dark : TdePhotosphere.inputs :=
  TdePhotosphere.mkInputs [0; 1] 1 1 1 0 [0; 0] 1.

Definition tde_outputs : TdePhotosphere.outputs :=
  Eval vm_compute in
    match TdePhotosphere.process pow_stand_in 3 1 1 1 1 1 tde_inputs with
    | Ok out => out
    | Raise _ => TdePhotosphere.mkOutputs [] []
    end.

(** Inputs of the temperature floor: three times for two luminosities,
    and one time for two luminosities; a stand-in for [np.sqrt]. *)
Definition sqrt_stand_in (x : Q) : Q := x.

Definition floor_inputs : TemperatureFloor.inputs :=
  TemperatureFloor.mkInputs 0 [1; 2; 3] [8; 1] 1 1 1 1.

Definition floor_inputs_short : TemperatureFloor.inputs :=
  TemperatureFloor.mkInputs 0 [1] [8; 1] 1 1 1 1.

Definition floor_outputs : TemperatureFloor.outputs :=
  Eval vm_compute in
    match TemperatureFloor.process pow_stand_in sqrt_stand_in 1 1 1 1
            floor_inputs with
    | Ok out => out
    | Raise _ => TemperatureFloor.mkOutputs [] []
    end.

(** The curve of the band [b] can be read from [src]: the documents or
    the file its source names are there, and the table [__init__] reads
    has rows, each of two entries at least. *)
Definition readable (src : sources) (b : band) : Prop :=
  exists table : list (list Q),
    match b_SVO b with
    | Some svo =>
        exists native ab_doc native_doc,
          last (split "/" svo) = Some native
          /\ svo_xml src (svo_path svo "AB") = Some ab_doc
          /\ svo_xml src (svo_path svo native) = Some native_doc
          /\ table = first_table native_doc
    | None =>
        exists path,
          b_path b = Some path /\ filter_file src path = Some table
    end
    /\ table <> []
    /\ Forall (fun r => (2 <= length r)%nat) table.

(** The registry built from [rules_two_systems]. *)
Definition registry_two_systems : list band :=
  Eval vm_compute in
    match build_band_list rules_two_systems ["V"] with
    | Ok reg => reg
    | Raise _ => []
    end.

(** * Properties *)

(** ** Lists and the exception monad *)

Lemma lookup_map {A B : Type} (f : A -> B) (l : list A) (i : nat) :
  map f l !! i = option_map f (l !! i).
Proof.
  revert i; induction l as [|a l IH]; intros [|i]; simpl; auto.
Qed.

Lemma map_Some_lookup {A B : Type} (f : A -> option B) (l : list A)
  (l' : list B) (i : nat) (x : A) :
  map f l = map Some l' -> l !! i = Some x ->
  exists y, l' !! i = Some y /\ f x = Some y.
Proof.
  intros Hmap Hx.
  assert (H : map f l !! i = map Some l' !! i) by (rewrite Hmap; reflexivity).
  rewrite !lookup_map, Hx in H; simpl in H.
  destruct (l' !! i) as [y|]; simpl in H; [|discriminate].
  exists y; split; [reflexivity|congruence].
Qed.

Lemma bind_Ok {A B : Type} (m : res A) (k : A -> res B) (b : B) :
  bind m k = Ok b -> exists a, m = Ok a /\ k a = Ok b.
Proof.
  destruct m as [a|e]; simpl; intros H; [eauto|discriminate].
Qed.

Lemma index_Ok {A : Type} (l : list A) (i : nat) (a : A) :
  index l i = Ok a <-> l !! i = Some a.
Proof.
  unfold index; destruct (l !! i); split; intros H; congruence.
Qed.

Lemma setitem_Ok {A : Type} (l l' : list A) (i : nat) (v : A) :
  setitem l i v = Ok l' -> (i < length l)%nat /\ l' = <[i := v]> l.
Proof.
  unfold setitem; destruct (Nat.ltb_spec i (length l)) as [Hlt|Hge];
    intros H; [split; [assumption|congruence]|discriminate].
Qed.

Ltac bind_inv H :=
  let a := fresh "a" in
  let Ha := fresh "Ha" in
  apply bind_Ok in H; destruct H as (a & Ha & H).

(** ** [find_band_index] on a well-formed registry *)

(** On a well-formed registry no lookup of the loop body can fail, and the
    body fires exactly when the entry satisfies one of the tiers. *)
Lemma entry_matches_wf (self : Filters)
  (name instrument bandset system : string) (bi : nat) (b : band) :
  registry_wf self ->
  _unique_bands self !! bi = Some b ->
  entry_matches self name instrument bandset system bi b
  = Ok (satisfies_some_tier name instrument bandset system b).
Proof.
  intros (Hi & Hb & Hs & Hn) Hbi.
  destruct (map_Some_lookup _ _ _ _ _ Hi Hbi) as (si & Hsi & Hfi).
  destruct (map_Some_lookup _ _ _ _ _ Hb Hbi) as (sb & Hsb & Hfb).
  destruct (map_Some_lookup _ _ _ _ _ Hs Hbi) as (ss & Hss & Hfs).
  destruct (map_Some_lookup _ _ _ _ _ Hn Hbi) as (sn & Hsn & Hfn).
  unfold entry_matches, tier1, tier2, tier3, tier4, and_then, name_is,
    str_in_at, index, satisfies_some_tier, satisfies_tier1, satisfies_tier2,
    satisfies_tier3, satisfies_tier4, named, field_has.
  rewrite Hfi, Hfb, Hfs, Hfn, Hsi, Hsb, Hss; simpl.
  destruct (String.eqb name sn); simpl; [|reflexivity].
  destruct (str_in instrument si), (str_in bandset sb), (str_in system ss);
    simpl; try reflexivity;
    destruct (str_in "" si), (str_in "" sb), (str_in "" ss); reflexivity.
Qed.

(** The loop returns the first index whose entry fires, and raises
    [ValueError] when there is none. *)
Lemma find_from_first (self : Filters)
  (name instrument bandset system : string) (bs : list band) :
  forall bi,
  (forall k b, bs !! k = Some b ->
     entry_matches self name instrument bandset system (bi + k) b
     = Ok (satisfies_some_tier name instrument bandset system b)) ->
  match find_from self name instrument bandset system bi bs with
  | Ok r =>
      exists k b, r = (bi + k)%nat /\ bs !! k = Some b
        /\ satisfies_some_tier name instrument bandset system b = true
        /\ forall k' b', (k' < k)%nat -> bs !! k' = Some b' ->
             satisfies_some_tier name instrument bandset system b' = false
  | Raise e =>
      e = ValueError
      /\ forall k b, bs !! k = Some b ->
           satisfies_some_tier name instrument bandset system b = false
  end.
Proof.
  induction bs as [|b bs IH]; intros bi Hbody; simpl.
  - split; [reflexivity|]. intros k b Hk. destruct k; discriminate.
  - pose proof (Hbody 0%nat b eq_refl) as H0.
    rewrite Nat.add_0_r in H0. rewrite H0; simpl.
    destruct (satisfies_some_tier name instrument bandset system b) eqn:Hsat.
    + exists 0%nat, b. rewrite Nat.add_0_r.
      repeat split; auto. intros k' b' Hlt; lia.
    + specialize (IH (S bi)).
      assert (Hbody' : forall k b0, bs !! k = Some b0 ->
                entry_matches self name instrument bandset system (S bi + k) b0
                = Ok (satisfies_some_tier name instrument bandset system b0)).
      { intros k b0 Hk. specialize (Hbody (S k) b0 Hk).
        replace (S bi + k)%nat with (bi + S k)%nat by lia. exact Hbody. }
      specialize (IH Hbody').
      destruct (find_from self name instrument bandset system (S bi) bs)
        as [r|e].
      * destruct IH as (k & b0 & Hr & Hk & Hs & Hfirst).
        exists (S k), b0. repeat split; auto; [lia|].
        intros [|k'] b' Hlt Hk'; simpl in Hk'.
        -- congruence.
        -- apply (Hfirst k' b'); [lia|assumption].
      * destruct IH as (He & Hnone). split; [assumption|].
        intros [|k] b0 Hk; simpl in Hk; [congruence|eauto].
Qed.

Lemma find_band_index_first (self : Filters)
  (name instrument bandset system : string) :
  registry_wf self ->
  match find_band_index self name instrument bandset system with
  | Ok r =>
      exists b, _unique_bands self !! r = Some b
        /\ satisfies_some_tier name instrument bandset system b = true
        /\ forall k' b', (k' < r)%nat -> _unique_bands self !! k' = Some b' ->
             satisfies_some_tier name instrument bandset system b' = false
  | Raise e =>
      e = ValueError
      /\ forall k b, _unique_bands self !! k = Some b ->
           satisfies_some_tier name instrument bandset system b = false
  end.
Proof.
  intros Hwf. unfold find_band_index.
  pose proof (find_from_first self name instrument bandset system
                (_unique_bands self) 0%nat) as H.
  assert (Hbody : forall k b, _unique_bands self !! k = Some b ->
            entry_matches self name instrument bandset system (0 + k) b
            = Ok (satisfies_some_tier name instrument bandset system b)).
  { intros k b Hk. simpl. apply entry_matches_wf; assumption. }
  specialize (H Hbody).
  destruct (find_from self name instrument bandset system 0
              (_unique_bands self)) as [r|e]; [|exact H].
  destruct H as (k & b & Hr & Hk & Hs & Hfirst). simpl in Hr. subst r.
  exists b. auto.
Qed.

(** C6.  A request that satisfies no tier is resolved all the same.  The
    registry built from one rule for instrument [PS1] in system [AB] has
    the single entry [V] with those qualifiers.  For the request
    [("V", "HST", "", "Vega")] that entry satisfies none of the four tiers
    of the specification: its instrument does not contain [HST], its
    system does not contain [Vega], and it is not the unqualified default.
    [find_band_index] returns its index [0] instead of raising: the fourth
    test of the code, ['' in self._band_insts[bi]] and its two siblings,
    holds of every string, and is the only one of the four that passes
    here.  A name that no entry has does raise [ValueError]. *)
Theorem unmatched_request_is_resolved :
  init log10_stand_in curve_files rules_PS1_only ["V"] = Ok filters_PS1_only
  /\ (exists e,
        _unique_bands filters_PS1_only = [e]
        /\ b_name e = Some "V" /\ b_instruments e = Some "PS1"
        /\ b_bandsets e = Some "" /\ b_systems e = Some "AB"
        /\ satisfies_tier1 "V" "HST" "" "Vega" e = false
        /\ satisfies_tier2 "V" "HST" "Vega" e = false
        /\ satisfies_tier3 "V" "Vega" e = false
        /\ spec_tier4 "V" e = false
        /\ satisfies_tier4 "V" e = true)
  /\ (forall k b, _unique_bands filters_PS1_only !! k = Some b ->
        spec_some_tier "V" "HST" "" "Vega" b = false)
  /\ find_band_index filters_PS1_only "V" "HST" "" "Vega" = Ok 0%nat
  /\ find_band_index filters_PS1_only "B" "HST" "" "Vega" = Raise ValueError.
Proof.
  split; [vm_compute; reflexivity|]. split.
  - eexists. split; [reflexivity|]. repeat split; reflexivity.
  - split; [|split; vm_compute; reflexivity].
    intros [|k] b Hk; simpl in Hk; [|discriminate].
    injection Hk as <-. vm_compute. reflexivity.
Qed.

(** ** [__init__]: what the loading loop leaves in the object *)

Lemma map_res_getitem {A B : Type} (f : A -> option B) (l : list A)
  (l' : list B) :
  map_res (fun x => getitem (f x)) l = Ok l' -> map f l = map Some l'.
Proof.
  revert l'; induction l as [|a l IH]; intros l' H; simpl in H.
  - injection H as <-. reflexivity.
  - bind_inv H. bind_inv H. injection H as <-.
    unfold getitem in Ha. destruct (f a) as [y|] eqn:Hf; [|discriminate].
    injection Ha as <-. simpl. rewrite Hf, (IH _ Ha0). reflexivity.
Qed.

Lemma index_last_Ok {A : Type} (l : list A) (a : A) :
  index_last l = Ok a -> last l = Some a.
Proof.
  unfold index_last; destruct (last l); intros H; congruence.
Qed.

Lemma store_offset_inv (b : band) (zps : list Q) (i : nat)
  (offs offs' : list Q) :
  store_offset b zps i offs = Ok offs' ->
  offs' !! i = offset_after b zps (offs !! i)
  /\ forall j, j <> i -> offs' !! j = offs !! j.
Proof.
  unfold store_offset, offset_after.
  destruct (b_offset b) as [o|].
  - intros H. apply setitem_Ok in H as [Hlt ->]. split.
    + apply list_lookup_insert_eq; assumption.
    + intros j Hj. apply list_lookup_insert_ne; congruence.
  - destruct (b_SVO b) as [svo|].
    + intros H. bind_inv H. apply index_last_Ok in Ha.
      apply setitem_Ok in H as [Hlt ->]. split.
      * rewrite Ha. apply list_lookup_insert_eq; assumption.
      * intros j Hj. apply list_lookup_insert_ne; congruence.
    + intros H. injection H as <-. auto.
Qed.

Section InitLoop.

Variable log10 : Q -> Q.
Variable src : sources.

(** One turn of the loop writes index [i] and nothing else. *)
Lemma init_band_inv (i : nat) (b : band) (self self' : Filters) :
  init_band log10 src i b self = Ok self' ->
  (exists rows zps w t lo hi,
     load_curve log10 src b = Ok (rows, zps)
     /\ unpack2 (zip_star rows) = Ok (w, t)
     /\ py_min w = Ok lo /\ py_max w = Ok hi
     /\ entry self' i
        = (Some w, Some t, Some lo, Some hi, Some (np_trapz t w),
           offset_after b zps (_band_offsets self !! i)))
  /\ (forall j, j <> i -> entry self' j = entry self j)
  /\ _unique_bands self' = _unique_bands self
  /\ _band_insts self' = _band_insts self
  /\ _band_bsets self' = _band_bsets self
  /\ _band_systs self' = _band_systs self
  /\ _band_names self' = _band_names self.
Proof.
  unfold init_band. intros H.
  apply bind_Ok in H as ([rows zps] & Hload & H).
  apply bind_Ok in H as ([w t] & Hcols & H). simpl in H.
  apply bind_Ok in H as (bw & Hbw & H).
  apply bind_Ok in H as (tr & Htr & H).
  apply bind_Ok in H as (lo & Hlo & H).
  apply bind_Ok in H as (mins & Hmins & H).
  apply bind_Ok in H as (hi & Hhi & H).
  apply bind_Ok in H as (maxs & Hmaxs & H).
  apply bind_Ok in H as (ints & Hints & H).
  apply bind_Ok in H as (offs & Hoffs & H).
  injection H as <-.
  apply setitem_Ok in Hbw as [L1 ->]. apply setitem_Ok in Htr as [L2 ->].
  apply setitem_Ok in Hmins as [L3 ->]. apply setitem_Ok in Hmaxs as [L4 ->].
  apply setitem_Ok in Hints as [L5 ->].
  apply store_offset_inv in Hoffs as [Ho1 Ho2].
  repeat split; try reflexivity.
  - exists rows, zps, w, t, lo, hi. repeat split; auto.
    unfold entry; simpl.
    rewrite !list_lookup_insert_eq by assumption. rewrite Ho1. reflexivity.
  - intros j Hj. unfold entry; simpl.
    rewrite !list_lookup_insert_ne by congruence.
    rewrite (Ho2 j Hj). reflexivity.
Qed.

(** The whole loop, started at index [i0] on the bands [bs]: the entries
    below [i0] are left alone, and every band of [bs] whose offset slot
    still holds the initial [0.0] ends up loaded at its index. *)
Lemma init_loop_inv (bs : list band) :
  forall (i0 : nat) (self st : Filters),
  init_loop log10 src i0 bs self = Ok st ->
  (forall j, (j < i0)%nat -> entry st j = entry self j)
  /\ (forall k b, bs !! k = Some b ->
        _band_offsets self !! (i0 + k)%nat = Some 0 ->
        exists w t zps, loaded log10 src st (i0 + k) b w t zps)
  /\ _unique_bands st = _unique_bands self
  /\ _band_insts st = _band_insts self
  /\ _band_bsets st = _band_bsets self
  /\ _band_systs st = _band_systs self
  /\ _band_names st = _band_names self.
Proof.
  induction bs as [|b bs IH]; intros i0 self st H; simpl in H.
  - injection H as <-. repeat split; auto.
    intros k b Hk. destruct k; discriminate.
  - apply bind_Ok in H as (self1 & Hband & Hloop).
    apply init_band_inv in Hband
      as (Hat & Hother & Hu & Hi & Hb & Hs & Hn).
    apply IH in Hloop as (Hpre & Hload & Hu' & Hi' & Hb' & Hs' & Hn').
    split; [|split; [|repeat split; congruence]].
    + intros j Hj. rewrite Hpre by lia. apply Hother. lia.
    + intros [|k] b0 Hk Hzero; simpl in Hk.
      * injection Hk as <-. rewrite Nat.add_0_r in *.
        destruct Hat as (rows & zps & w & t & lo & hi & H1 & H2 & H3 & H4 & H5).
        exists w, t, zps, rows, lo, hi. repeat split; auto.
        rewrite Hpre by lia. rewrite H5, Hzero. reflexivity.
      * replace (i0 + S k)%nat with (S i0 + k)%nat in * by lia.
        apply (Hload k b0 Hk).
        assert (Hent : entry self1 (S i0 + k) = entry self (S i0 + k))
          by (apply Hother; lia).
        unfold entry in Hent. injection Hent as _ _ _ _ _ Hoff.
        etransitivity; [exact Hoff|exact Hzero].
Qed.

(** [__init__] as a whole: the registry is the list of bands built from
    the rule table, its derived lists are in step with it, and every band
    is loaded at its own index. *)
Lemma init_inv (filterrules : list rule) (bands : list string)
  (st : Filters) :
  init log10 src filterrules bands = Ok st ->
  build_band_list filterrules bands = Ok (_unique_bands st)
  /\ registry_wf st
  /\ forall i b, _unique_bands st !! i = Some b ->
       exists w t zps, loaded log10 src st i b w t zps.
Proof.
  unfold init. intros H.
  apply bind_Ok in H as (band_list & Hbuild & H).
  apply bind_Ok in H as (insts & Hinsts & H).
  apply bind_Ok in H as (bsets & Hbsets & H).
  apply bind_Ok in H as (systs & Hsysts & H).
  apply bind_Ok in H as (names & Hnames & H).
  apply init_loop_inv in H as (_ & Hload & Hu & Hi & Hb & Hs & Hn).
  simpl in *. split; [congruence|]. split.
  - unfold registry_wf. rewrite Hu, Hi, Hb, Hs, Hn.
    repeat split; apply map_res_getitem; assumption.
  - intros i b Hib. rewrite Hu in Hib.
    apply (Hload i b Hib). apply lookup_replicate_2.
    apply lookup_lt_Some in Hib. exact Hib.
Qed.

End InitLoop.

(** ** The numerics: [np.trapz], [min] and [max] *)

Lemma Qlt_bool_iff (x y : Q) : Qlt_bool x y = true <-> x < y.
Proof.
  unfold Qlt_bool. rewrite negb_true_iff.
  destruct (Qle_bool y x) eqn:H.
  - apply Qle_bool_iff in H. split; [discriminate|].
    intros Hlt. exfalso. apply (Qlt_not_le _ _ Hlt H).
  - split; [intros _|reflexivity].
    apply Qnot_le_lt. intros Hle. apply Qle_bool_iff in Hle. congruence.
Qed.

Lemma Qlt_bool_false (x y : Q) : Qlt_bool x y = false <-> y <= x.
Proof.
  unfold Qlt_bool. rewrite negb_false_iff. apply Qle_bool_iff.
Qed.

Lemma np_trapz_step (x0 x1 y0 y1 : Q) (xs ys : list Q) :
  np_trapz (y0 :: y1 :: ys) (x0 :: x1 :: xs)
  == (x1 - x0) * (y0 + y1) / 2 + np_trapz (y1 :: ys) (x1 :: xs).
Proof.
  unfold np_trapz, pair_sums.
  cbn [np_diff tail removelast zip_with np_sum fold_right].
  field.
Qed.

(** [np.trapz(y, x)] is the area under the polygon through the points
    [(x[k], y[k])]. *)
Lemma np_trapz_area (x : list Q) :
  forall y, np_trapz y x == trapezoid_area (zip x y).
Proof.
  induction x as [|x0 xs IH]; intros y.
  - reflexivity.
  - destruct xs as [|x1 xs].
    + destruct y as [|y0 [|y1 ys]]; reflexivity.
    + destruct y as [|y0 [|y1 ys]]; try reflexivity.
      rewrite np_trapz_step, (IH (y1 :: ys)). reflexivity.
Qed.

Lemma fold_min_spec (l : list Q) :
  forall a,
  let m := fold_left (fun m x => if Qlt_bool x m then x else m) l a in
  (m = a \/ In m l) /\ m <= a /\ Forall (fun x => m <= x) l.
Proof.
  induction l as [|x l IH]; intros a; simpl.
  - repeat split; auto. apply Qle_refl.
  - destruct (Qlt_bool x a) eqn:Hlt.
    + apply Qlt_bool_iff in Hlt.
      destruct (IH x) as (Hin & Hle & Hall). repeat split.
      * destruct Hin; auto.
      * apply Qle_trans with x; [assumption|apply Qlt_le_weak; assumption].
      * constructor; assumption.
    + apply Qlt_bool_false in Hlt.
      destruct (IH a) as (Hin & Hle & Hall). repeat split.
      * destruct Hin; auto.
      * assumption.
      * constructor; [apply Qle_trans with a; assumption|assumption].
Qed.

Lemma fold_max_spec (l : list Q) :
  forall a,
  let m := fold_left (fun m x => if Qlt_bool m x then x else m) l a in
  (m = a \/ In m l) /\ a <= m /\ Forall (fun x => x <= m) l.
Proof.
  induction l as [|x l IH]; intros a; simpl.
  - repeat split; auto. apply Qle_refl.
  - destruct (Qlt_bool a x) eqn:Hlt.
    + apply Qlt_bool_iff in Hlt.
      destruct (IH x) as (Hin & Hle & Hall). repeat split.
      * destruct Hin; auto.
      * apply Qle_trans with x; [apply Qlt_le_weak; assumption|assumption].
      * constructor; assumption.
    + apply Qlt_bool_false in Hlt.
      destruct (IH a) as (Hin & Hle & Hall). repeat split.
      * destruct Hin; auto.
      * assumption.
      * constructor; [apply Qle_trans with a; assumption|assumption].
Qed.

(** [min(l)] is an element of [l] below all the others. *)
Lemma py_min_spec (l : list Q) (m : Q) :
  py_min l = Ok m -> In m l /\ Forall (fun x => m <= x) l.
Proof.
  destruct l as [|a l]; simpl; [discriminate|]. intros H. injection H as <-.
  destruct (fold_min_spec l a) as (Hin & Hle & Hall). split.
  - destruct Hin as [->|Hin]; auto.
  - constructor; assumption.
Qed.

Lemma py_max_spec (l : list Q) (m : Q) :
  py_max l = Ok m -> In m l /\ Forall (fun x => x <= m) l.
Proof.
  destruct l as [|a l]; simpl; [discriminate|]. intros H. injection H as <-.
  destruct (fold_max_spec l a) as (Hin & Hle & Hall). split.
  - destruct Hin as [->|Hin]; auto.
  - constructor; assumption.
Qed.

Lemma Qle_transitive : Transitive Qle.
Proof. intros x y z. apply Qle_trans. Qed.

(** In a sorted list the first element is below, and the last above,
    every element. *)
Lemma sorted_head_least (s : list Q) (first x : Q) :
  Sorted Qle s -> head s = Some first -> In x s -> first <= x.
Proof.
  intros Hs Hhd Hin. apply (Sorted_StronglySorted Qle_transitive) in Hs.
  destruct s as [|a s]; [discriminate|]. injection Hhd as ->.
  apply StronglySorted_inv in Hs as [_ Hall].
  destruct Hin as [->|Hin]; [apply Qle_refl|].
  rewrite Forall_forall in Hall. apply Hall.
  apply list_elem_of_In. exact Hin.
Qed.

Lemma sorted_last_greatest (s : list Q) :
  forall final,
  Sorted Qle s -> last s = Some final -> forall x, In x s -> x <= final.
Proof.
  intros final Hs. apply (Sorted_StronglySorted Qle_transitive) in Hs.
  induction Hs as [|a s Hs IH Hall]; intros Hlast x Hin; [destruct Hin|].
  destruct s as [|b s].
  - simpl in Hlast. injection Hlast as <-.
    destruct Hin as [->|[]]. apply Qle_refl.
  - rewrite last_cons_cons in Hlast.
    destruct Hin as [->|Hin]; [|auto].
    apply Qle_trans with b.
    + rewrite Forall_forall in Hall. apply Hall. left.
    + apply IH; [assumption|left; reflexivity].
Qed.

(** ** The columns of the rows read from a curve file *)

Lemma fold_min_len_le (l : list (list Q)) :
  forall a,
  let m := fold_left (fun m r' => Nat.min m (length r')) l a in
  (m <= a)%nat /\ Forall (fun r => (m <= length r)%nat) l.
Proof.
  induction l as [|r l IH]; intros a; simpl.
  - split; [lia|constructor].
  - destruct (IH (Nat.min a (length r))) as [Hle Hall]. split; [lia|].
    constructor; [lia|assumption].
Qed.

Lemma min_len_le (rows : list (list Q)) :
  Forall (fun r => (min_len rows <= length r)%nat) rows.
Proof.
  destruct rows as [|r rows]; [constructor|]. unfold min_len.
  destruct (fold_min_len_le rows (length r)) as [Hle Hall].
  constructor; assumption.
Qed.

Lemma length_column (k : nat) (rows : list (list Q)) :
  Forall (fun r => (k < length r)%nat) rows ->
  length (omap (fun r : list Q => r !! k) rows) = length rows.
Proof.
  induction 1 as [|r rows Hr _ IH]; [reflexivity|].
  change (omap (fun r0 : list Q => r0 !! k) (r :: rows))
    with (match r !! k with
          | Some y => y :: omap (fun r0 : list Q => r0 !! k) rows
          | None => omap (fun r0 : list Q => r0 !! k) rows
          end).
  destruct (lookup_lt_is_Some_2 r k Hr) as [y ->]. simpl. congruence.
Qed.

(** Unpacking succeeds only on rows that all have two entries and are not
    none; both columns then have one entry per row. *)
Lemma unpack2_zip_star (rows : list (list Q)) (w t : list Q) :
  unpack2 (zip_star rows) = Ok (w, t) ->
  length w = length rows /\ length t = length rows /\ rows <> [].
Proof.
  unfold zip_star. pose proof (min_len_le rows) as Hall.
  destruct (min_len rows) as [|[|[|n]]] eqn:Hn; simpl; try discriminate.
  intros H. injection H as <- <-.
  repeat split.
  - apply length_column. eapply Forall_impl; [exact Hall|].
    intros r Hr. simpl in Hr. lia.
  - apply length_column. eapply Forall_impl; [exact Hall|].
    intros r Hr. simpl in Hr. lia.
  - intros ->. discriminate.
Qed.

Section LoadedBands.

Variable log10 : Q -> Q.
Variable src : sources.

(** C8.  For every band of the registry [__init__] has built, the stored
    integral is the trapezoidal area under the band's own curve on its
    native grid, the two columns of the curve have the same, non-zero
    length, and the stored minimum and maximum wavelength are elements of
    the wavelength column that bound all of it: the first and the last
    element of the column once it is sorted. *)
Theorem band_integral_and_bounds (filterrules : list rule)
  (bands : list string) (st : Filters) (i : nat) (b : band) :
  init log10 src filterrules bands = Ok st ->
  _unique_bands st !! i = Some b ->
  exists w t integral lo hi,
    _band_wavelengths st !! i = Some w
    /\ _transmissions st !! i = Some t
    /\ _filter_integrals st !! i = Some integral
    /\ _min_waves st !! i = Some lo
    /\ _max_waves st !! i = Some hi
    /\ length w = length t /\ w <> []
    /\ integral == trapezoid_area (zip w t)
    /\ In lo w /\ In hi w /\ Forall (fun x => lo <= x /\ x <= hi) w
    /\ forall s first final,
         Permutation w s -> Sorted Qle s ->
         head s = Some first -> last s = Some final ->
         lo == first /\ hi == final.
Proof.
  intros Hinit Hb.
  destruct (init_inv log10 src _ _ _ Hinit) as (_ & _ & Hload).
  destruct (Hload i b Hb)
    as (w & t & zps & rows & lo & hi & _ & Hcols & Hlo & Hhi & Hent).
  unfold entry in Hent. injection Hent as Hw Ht Hmin Hmax Hint _.
  apply unpack2_zip_star in Hcols as (Lw & Lt & Hne).
  apply py_min_spec in Hlo as [Ilo Alo]. apply py_max_spec in Hhi as [Ihi Ahi].
  exists w, t, (np_trapz t w), lo, hi.
  repeat match goal with |- _ /\ _ => split end; auto.
  - congruence.
  - intros ->. destruct rows; [congruence|discriminate].
  - apply np_trapz_area.
  - rewrite Forall_forall in *. intros x Hx. split; auto.
  - intros s first final Hperm Hsort Hhd Hlast. split.
    + apply Qle_antisym.
      * rewrite Forall_forall in Alo. apply Alo. apply list_elem_of_In.
        apply Permutation_in with s; [symmetry; assumption|].
        destruct s; [discriminate|]. simpl in *. left. congruence.
      * apply (sorted_head_least s); auto.
        apply Permutation_in with w; assumption.
    + apply Qle_antisym.
      * apply (sorted_last_greatest s final); auto.
        apply Permutation_in with w; assumption.
      * rewrite Forall_forall in Ahi. apply Ahi. apply list_elem_of_In.
        apply Permutation_in with s; [symmetry; assumption|].
        apply list_elem_of_In. apply last_Some_elem_of. assumption.
Qed.

End LoadedBands.

(** ** Zero points and offsets *)

Section Offsets.

Variable log10 : Q -> Q.
Variable src : sources.

Lemma zero_point_loop_AB (values : list Q) :
  forall st,
  zero_point_loop log10 "AB" values st = Ok (st.1 ++ values, st.2).
Proof.
  induction values as [|v values IH]; intros [fl zps]; simpl.
  - rewrite app_nil_r. reflexivity.
  - rewrite IH. simpl. rewrite <- app_assoc. reflexivity.
Qed.

Lemma zero_point_loop_native (sys : string) (values : list Q) :
  String.eqb sys "AB" = false ->
  forall f0 fl zps,
  zero_point_loop log10 sys values (f0 :: fl, zps)
  = Ok ((f0 :: fl) ++ values,
        zps ++ map (fun v => 2.5 * log10 (f0 / v)) values).
Proof.
  intros Hsys. induction values as [|v values IH]; intros f0 fl zps.
  - simpl. rewrite !app_nil_r. reflexivity.
  - cbn [zero_point_loop fst snd]. rewrite Hsys.
    cbn [negb app index lookup list_lookup bind].
    unfold index_last. rewrite last_cons.
    rewrite last_snoc. cbn [bind].
    change (f0 :: fl ++ [v]) with (f0 :: (fl ++ [v])).
    rewrite IH. simpl. rewrite <- !app_assoc. reflexivity.
Qed.

Lemma split_last_is_Some (svo : string) :
  exists native, last (split "/" svo) = Some native.
Proof.
  assert (H : split "/" svo <> []).
  { induction svo as [|x s IH]; simpl; [discriminate|].
    destruct (Ascii.eqb x "/"); [discriminate|].
    destruct (split "/" s); [contradiction|discriminate]. }
  destruct (last (split "/" svo)) as [n|] eqn:Hl; [eauto|].
  apply last_None in Hl. contradiction.
Qed.

Lemma zero_point_loop_last (sys : string) (values : list Q) :
  forall st st',
  zero_point_loop log10 sys values st = Ok st' ->
  is_Some (last st.2) -> is_Some (last st'.2).
Proof.
  induction values as [|v values IH]; intros st st' H Hs; simpl in H.
  - injection H as <-. exact Hs.
  - destruct (negb (String.eqb sys "AB")).
    + bind_inv H. bind_inv H. apply IH in H; [exact H|].
      simpl. rewrite last_snoc. eauto.
    + apply IH in H; [exact H|exact Hs].
Qed.

Lemma svo_loop_last (prefix : string) (systems0 : list string) :
  forall st tab r,
  svo_loop log10 src prefix systems0 st tab = Ok r ->
  is_Some (last st.2) -> is_Some (last r.1.2).
Proof.
  induction systems0 as [|sys systems0 IH]; intros st tab r H Hs;
    simpl in H.
  - injection H as <-. exact Hs.
  - destruct (svo_xml src _) as [doc|]; [|discriminate].
    bind_inv H. apply IH in H; [exact H|].
    eapply zero_point_loop_last; eassumption.
Qed.

(** The list [zps] a remote-catalogue band is loaded with: for a band
    whose native system is AB it stays [[0.0]]; otherwise its last element
    is [2.5 * log10(ABflux / nativeflux)], with [ABflux] the first
    [ZeroPoint] of the AB document and [nativeflux] the last one of the
    native document. *)
Lemma load_curve_zps (b : band) (svo native : string)
  (rows : list (list Q)) (zps : list Q) :
  b_SVO b = Some svo ->
  last (split "/" svo) = Some native ->
  load_curve log10 src b = Ok (rows, zps) ->
  (native = "AB" -> zps = [0])
  /\ (native <> "AB" ->
      forall ab_doc native_doc ABflux rest nativeflux before,
        svo_xml src (svo_path svo "AB") = Some ab_doc ->
        zero_points ab_doc = ABflux :: rest ->
        svo_xml src (svo_path svo native) = Some native_doc ->
        zero_points native_doc = before ++ [nativeflux] ->
        last zps = Some (2.5 * log10 (ABflux / nativeflux))).
Proof.
  intros Hsvo Hnative. unfold load_curve. rewrite Hsvo.
  unfold index_last. rewrite Hnative. cbn [bind existsb orb].
  fold (svo_path svo "AB").
  destruct (String.eqb_spec native "AB") as [->|Hne]; cbn [orb].
  - intros H. apply bind_Ok in H as ([[fl zps'] tab] & Hloop & H).
    injection H as <- <-. split; [|congruence]. intros _.
    cbn [svo_loop] in Hloop. fold (svo_path svo "AB") in Hloop.
    destruct (svo_xml src (svo_path svo "AB")) as [doc|]; [|discriminate].
    rewrite zero_point_loop_AB in Hloop. simpl in Hloop. congruence.
  - intros H. apply bind_Ok in H as ([[fl zps'] tab] & Hloop & H).
    injection H as <- <-. split; [congruence|]. intros _.
    intros ab_doc native_doc ABflux rest nativeflux before Hab Zab Hnat Znat.
    cbn [svo_loop] in Hloop.
    fold (svo_path svo "AB") in Hloop. fold (svo_path svo native) in Hloop.
    rewrite Hab, Hnat in Hloop. rewrite zero_point_loop_AB in Hloop.
    cbn [bind fst snd app] in Hloop. rewrite Zab in Hloop.
    rewrite zero_point_loop_native in Hloop
      by (apply String.eqb_neq; assumption).
    cbn [bind] in Hloop. injection Hloop as _ <- _.
    rewrite Znat, map_app. cbn [map]. rewrite app_comm_cons.
    apply last_snoc.
Qed.

(** C7.  The offset stored for a band of the registry follows a three-way
    priority: the offset configured in the rule table when there is one;
    otherwise, for a band served by the remote catalogue, the zero-point
    offset derived from its calibration, which is [0] when the band's
    native system is AB and [2.5 * log10(ABflux / nativeflux)] otherwise;
    otherwise [0]. *)
Theorem band_offset_priority (filterrules : list rule)
  (bands : list string) (st : Filters) (i : nat) (b : band) :
  init log10 src filterrules bands = Ok st ->
  _unique_bands st !! i = Some b ->
  exists off,
    _band_offsets st !! i = Some off
    /\ (forall o, b_offset b = Some o -> off = o)
    /\ (b_offset b = None ->
        forall svo native,
          b_SVO b = Some svo -> last (split "/" svo) = Some native ->
          (native = "AB" -> off = 0)
          /\ (native <> "AB" ->
              forall ab_doc native_doc ABflux rest nativeflux before,
                svo_xml src (svo_path svo "AB") = Some ab_doc ->
                zero_points ab_doc = ABflux :: rest ->
                svo_xml src (svo_path svo native) = Some native_doc ->
                zero_points native_doc = before ++ [nativeflux] ->
                off = 2.5 * log10 (ABflux / nativeflux)))
    /\ (b_offset b = None -> b_SVO b = None -> off = 0).
Proof.
  intros Hinit Hb.
  destruct (init_inv log10 src _ _ _ Hinit) as (_ & _ & Hload).
  destruct (Hload i b Hb)
    as (w & t & zps & rows & lo & hi & Hcurve & _ & _ & _ & Hent).
  unfold entry in Hent. injection Hent as _ _ _ _ _ Hoff.
  unfold offset_after in Hoff.
  destruct (b_offset b) as [o|] eqn:Ho.
  - exists o. repeat split; try congruence.
  - destruct (b_SVO b) as [svo|] eqn:Hsvo.
    + destruct (split_last_is_Some svo) as [native Hnative].
      destruct (load_curve_zps b svo native rows zps Hsvo Hnative Hcurve)
        as [HAB Hnat].
      assert (Hz : is_Some (last zps)).
      { unfold load_curve in Hcurve. rewrite Hsvo in Hcurve.
        bind_inv Hcurve. bind_inv Hcurve. injection Hcurve as _ <-.
        apply svo_loop_last in Ha0; [exact Ha0|]. simpl. eauto. }
      destruct Hz as [z Hz]. exists z.
      split; [congruence|]. split; [congruence|]. split; [|congruence].
      intros _ svo' native' Hs' Hn'. injection Hs' as <-.
      rewrite Hnative in Hn'. injection Hn' as <-. split.
      * intros HeqAB. rewrite (HAB HeqAB) in Hz. simpl in Hz. congruence.
      * intros Hne ? ? ? ? ? ? H1 H2 H3 H4.
        specialize (Hnat Hne _ _ _ _ _ _ H1 H2 H3 H4). congruence.
    + exists 0. repeat split; congruence.
Qed.

End Offsets.

(** ** [process] *)

Lemma same_registry_refl (a : Filters) : same_registry a a.
Proof. unfold same_registry. repeat split; reflexivity. Qed.

Lemma same_registry_trans (a b c : Filters) :
  same_registry a b -> same_registry b c -> same_registry a c.
Proof.
  unfold same_registry. intros H1 H2.
  repeat match goal with H : _ /\ _ |- _ => destruct H end.
  repeat split; congruence.
Qed.

(** The loop of lines 172-174 writes [self._dxs] and nothing else. *)
Lemma dxs_loop_only_dxs (kw : kwargs) (indices : list nat) :
  forall self, exists d, (dxs_loop kw indices self).1 = set_dxs self d.
Proof.
  induction indices as [|bi indices IH]; intros self; simpl.
  - exists (_dxs self). destruct self; reflexivity.
  - destruct (index (samplewavelengths kw) bi) as [wavs|e];
      [|exists (_dxs self); destruct self; reflexivity].
    destruct (index wavs 1) as [w1|e1], (index wavs 0) as [w0|e0];
      try (exists (_dxs self); destruct self; reflexivity).
    destruct (IH (set_dxs self (_dxs self ++ [w1 - w0]))) as [d Hd].
    exists d. rewrite Hd. reflexivity.
Qed.

(** [self._dxs] after the loop: one spacing per element of [indices], in
    the order of [indices]. *)
Lemma dxs_loop_dxs (kw : kwargs) (indices : list nat) :
  forall self self',
  dxs_loop kw indices self = (self', Ok tt) ->
  exists spacings,
    _dxs self' = _dxs self ++ spacings
    /\ length spacings = length indices
    /\ forall k bi, indices !! k = Some bi ->
         exists wavs w1 w0,
           samplewavelengths kw !! bi = Some wavs
           /\ wavs !! 1%nat = Some w1 /\ wavs !! 0%nat = Some w0
           /\ spacings !! k = Some (w1 - w0).
Proof.
  induction indices as [|bi indices IH]; intros self self' H; simpl in H.
  - injection H as <-. exists []. rewrite app_nil_r.
    repeat split; auto. intros k bi Hk. destruct k; discriminate.
  - destruct (index (samplewavelengths kw) bi) as [wavs|e] eqn:Hw;
      [|discriminate].
    destruct (index wavs 1) as [w1|e1] eqn:H1,
             (index wavs 0) as [w0|e0] eqn:H0; try discriminate.
    apply IH in H as (sp & Hdx & Hlen & Hsp). simpl in Hdx.
    exists ((w1 - w0) :: sp). rewrite Hdx, <- app_assoc. simpl.
    repeat split; auto.
    intros [|k] bi' Hk; simpl in Hk.
    + injection Hk as <-. exists wavs, w1, w0.
      apply index_Ok in Hw, H1, H0. auto.
    + apply Hsp. assumption.
Qed.

Lemma flux_loop_lengths (self : Filters) (kw : kwargs) (lis : list nat) :
  forall acc r,
  flux_loop self kw lis acc = Ok r ->
  length r.1 = (length acc.1 + length lis)%nat
  /\ length r.2 = (length acc.2 + length lis)%nat.
Proof.
  induction lis as [|li lis IH]; intros acc r H; simpl in H.
  - injection H as <-. simpl. split; lia.
  - bind_inv H. apply IH in H as [H1 H2]. simpl in *.
    rewrite length_app in H1, H2. simpl in *. split; lia.
Qed.

Section Process.

Variable log10 : Q -> Q.
Variable AB_OFFSET : Q.
Variable FOUR_PI : Q.
Variable MPC_CGS : Q.

(** A call that returns leaves the object as it was, but for the eight
    working attributes, which hold the batch and what was derived from
    it; the magnitudes are [abmag] of the fluxes and offsets of the loop
    of lines 182-191, run on that object. *)
Lemma process_Ok_state (self self' : Filters) (kw : kwargs)
  (mags : list mag) :
  process log10 AB_OFFSET FOUR_PI MPC_CGS self kw = (self', Ok mags) ->
  exists indices dxs effs offs,
    self' = mkFilters (_unique_bands self) (_band_insts self)
              (_band_bsets self) (_band_systs self) (_band_names self)
              (_n_bands self) (_band_wavelengths self) (_transmissions self)
              (_min_waves self) (_max_waves self) (_filter_integrals self)
              (_band_offsets self)
              (all_bands kw) indices dxs
              (log10 (FOUR_PI * (lumdist kw * MPC_CGS) ^ 2))
              (luminosities kw) (systems kw) (instruments kw) (bandsets kw)
    /\ eff_fluxes_offsets self' kw = Ok (effs, offs)
    /\ mags = abmag log10 AB_OFFSET self' effs offs.
Proof.
  unfold process.
  destruct (map_res _ _) as [indices|e] eqn:Hidx; [|discriminate].
  destruct (dxs_loop_only_dxs kw
              (_band_indices
                 (set_dxs (set_band_indices
                             (set_bands self (all_bands kw)) indices) []))
              (set_dxs (set_band_indices
                          (set_bands self (all_bands kw)) indices) []))
    as [d Hd].
  destruct (dxs_loop kw _ _) as [self1 [[]|e]]; simpl in Hd; subst self1;
    [|discriminate].
  destruct (eff_fluxes_offsets _ _) as [[effs offs]|e] eqn:Hflux;
    [|discriminate].
  intros H. injection H as <- <-.
  exists indices, d, effs, offs. repeat split. exact Hflux.
Qed.

(** C5.  Whenever [process] returns, the magnitude of every observation
    is given by its effective flux [F] and offset: [+infinity] when
    [F == 0], and otherwise
    [AB_OFFSET - offset - 2.5 * (log10(F) - distConst)] with
    [distConst = log10(FOUR_PI * (lumdist * MPC_CGS)^2)], the luminosity
    distance being converted from megaparsecs to centimetres.  A zero flux
    yields a magnitude like any other: [abmag] has no failing case. *)
Theorem process_magnitude_formula (self self' : Filters) (kw : kwargs)
  (mags : list mag) :
  process log10 AB_OFFSET FOUR_PI MPC_CGS self kw = (self', Ok mags) ->
  exists effs offs,
    eff_fluxes_offsets self' kw = Ok (effs, offs)
    /\ length effs = length (luminosities kw)
    /\ length offs = length (luminosities kw)
    /\ length mags = length (luminosities kw)
    /\ forall li F offset,
         effs !! li = Some F -> offs !! li = Some offset ->
         (F == 0 -> mags !! li = Some Inf)
         /\ (~ F == 0 ->
             mags !! li
             = Some (Fin (AB_OFFSET - offset
                          - 2.5 * (log10 F
                                   - log10 (FOUR_PI
                                            * (lumdist kw * MPC_CGS) ^ 2))))).
Proof.
  intros H.
  apply process_Ok_state in H as (indices & dxs & effs & offs & -> & Hflux & ->).
  exists effs, offs. split; [exact Hflux|].
  unfold eff_fluxes_offsets in Hflux. simpl in Hflux.
  apply flux_loop_lengths in Hflux as [L1 L2]. simpl in L1, L2.
  rewrite length_seq in L1, L2.
  split; [exact L1|]. split; [exact L2|]. split.
  - unfold abmag. rewrite length_zip_with. lia.
  - intros li F offset HF Hoff. unfold abmag.
    rewrite lookup_zip_with, HF, Hoff. simpl.
    destruct (Qeq_bool F 0) eqn:Hz.
    + apply Qeq_bool_iff in Hz. split; [reflexivity|contradiction].
    + split; [|reflexivity]. intros Hz'. apply Qeq_bool_iff in Hz'.
      congruence.
Qed.

(** C9, as amended.  [process] leaves every attribute of the registry as it
    found it: the band definitions and the lists derived from them, the
    wavelength and transmission sequences, the minimum and maximum
    wavelengths, the filter integrals and the band offsets are the same
    before and after a call, whether the call returns the magnitudes or
    raises. *)
Theorem process_keeps_registry (self : Filters) (kw : kwargs) :
  same_registry (process log10 AB_OFFSET FOUR_PI MPC_CGS self kw).1 self.
Proof.
  unfold process.
  destruct (map_res _ _) as [indices|e] eqn:Hidx;
    [|unfold same_registry; repeat split; reflexivity].
  destruct (dxs_loop_only_dxs kw
              (_band_indices
                 (set_dxs (set_band_indices
                             (set_bands self (all_bands kw)) indices) []))
              (set_dxs (set_band_indices
                          (set_bands self (all_bands kw)) indices) []))
    as [d Hd].
  destruct (dxs_loop kw _ _) as [self1 [[]|e]]; simpl in Hd; subst self1;
    [|unfold same_registry; repeat split; reflexivity].
  destruct (eff_fluxes_offsets _ _) as [r|e];
    unfold same_registry; repeat split; reflexivity.
Qed.

End Process.

(** The spacings in [self._dxs] are stored by position in the batch: the
    [k]-th one is the spacing of the grid of the band of the [k]-th
    observation.  Line 191 reads the list at a band index instead. *)
Lemma process_dxs_by_observation (log10 : Q -> Q)
  (AB_OFFSET FOUR_PI MPC_CGS : Q) (self self' : Filters) (kw : kwargs)
  (mags : list mag) :
  process log10 AB_OFFSET FOUR_PI MPC_CGS self kw = (self', Ok mags) ->
  forall k bi, _band_indices self' !! k = Some bi ->
    exists wavs w1 w0,
      samplewavelengths kw !! bi = Some wavs
      /\ wavs !! 1%nat = Some w1 /\ wavs !! 0%nat = Some w0
      /\ _dxs self' !! k = Some (w1 - w0).
Proof.
  unfold process.
  destruct (map_res _ _) as [indices|e] eqn:Hidx; [|discriminate].
  destruct (dxs_loop_only_dxs kw
              (_band_indices
                 (set_dxs (set_band_indices
                             (set_bands self (all_bands kw)) indices) []))
              (set_dxs (set_band_indices
                          (set_bands self (all_bands kw)) indices) []))
    as [d Hd].
  destruct (dxs_loop kw _ _) as [self1 [[]|e]] eqn:Hloop; [|discriminate].
  simpl in Hd. subst self1.
  apply dxs_loop_dxs in Hloop as (sp & Hdx & _ & Hsp). simpl in Hdx, Hsp.
  destruct (eff_fluxes_offsets _ _) as [r|e]; [|discriminate].
  intros H. injection H as <- _. simpl. subst d. exact Hsp.
Qed.

(** ** The registry on concrete rule tables *)

Lemma map_res_lookup {A B : Type} (f : A -> res B) (l : list A) :
  forall l', map_res f l = Ok l' ->
  length l' = length l
  /\ forall i x, l !! i = Some x ->
       exists y, f x = Ok y /\ l' !! i = Some y.
Proof.
  induction l as [|a l IH]; intros l' H; simpl in H.
  - injection H as <-. split; [reflexivity|].
    intros i x Hi. destruct i; discriminate.
  - bind_inv H. bind_inv H. injection H as <-.
    destruct (IH _ Ha0) as [Hlen Hlook]. split; [simpl; congruence|].
    intros [|i] x Hi; simpl in Hi.
    + injection Hi as <-. eauto.
    + apply Hlook. assumption.
Qed.

(** Elements of [band_list] appended from the same dictionary of the rule
    table are one object: they read the same in the registry, whichever
    combination each was appended for. *)
Lemma aliased_entries_equal (filterrules : list rule) (bands : list string)
  (reg : list band) (i j : nat) :
  build_band_list filterrules bands = Ok reg ->
  (scan_bands filterrules bands (filterrules, [])).2 !! i
  = (scan_bands filterrules bands (filterrules, [])).2 !! j ->
  reg !! i = reg !! j.
Proof.
  unfold build_band_list. intros H Hij.
  apply map_res_lookup in H as [Hlen Hlook].
  destruct ((scan_bands filterrules bands (filterrules, [])).2 !! i)
    as [r|] eqn:Hi.
  - symmetry in Hij.
    destruct (Hlook i r Hi) as (y & Hy & ->).
    destruct (Hlook j r Hij) as (y' & Hy' & ->). congruence.
  - symmetry in Hij.
    apply lookup_ge_None in Hi, Hij.
    rewrite (proj2 (lookup_ge_None reg i)), (proj2 (lookup_ge_None reg j));
      [reflexivity|lia|lia].
Qed.

(** [band_list] holds one reference per requested band, rule, matching
    filter name and combination of the rule, in that order: the number
    and the order of the registry entries are those of the cross
    product. *)
Lemma emit_perms_refs (ri : nat) (bnd : string)
  (perms : list (string * string * string)) :
  forall s,
  (emit_perms ri bnd perms s).2 = s.2 ++ (perm ← perms; [(ri, bnd)]).
Proof.
  induction perms as [|perm perms IH]; intros s; simpl.
  - rewrite app_nil_r. reflexivity.
  - rewrite IH. simpl. rewrite <- app_assoc. reflexivity.
Qed.

Lemma scan_filters_refs (band0 : string) (ri : nat)
  (perms : list (string * string * string)) (keys : list string) :
  forall s,
  (scan_filters band0 ri perms keys s).2
  = s.2 ++ (bnd ← List.filter (requested band0) keys;
            perm ← perms; [(ri, bnd)]).
Proof.
  induction keys as [|bnd keys IH]; intros s; simpl.
  - rewrite app_nil_r. reflexivity.
  - rewrite IH. fold (requested band0 bnd).
    destruct (requested band0 bnd); simpl.
    + rewrite emit_perms_refs, <- app_assoc. reflexivity.
    + reflexivity.
Qed.

Lemma scan_rules_refs (band0 : string) (rules : list rule) :
  forall ri s,
  (scan_rules band0 ri rules s).2 = s.2 ++ refs_of_rules band0 ri rules.
Proof.
  induction rules as [|rl rules IH]; intros ri s; simpl.
  - rewrite app_nil_r. reflexivity.
  - rewrite IH, scan_filters_refs, <- app_assoc. reflexivity.
Qed.

Lemma scan_bands_refs (filterrules : list rule) (bands : list string) :
  forall s,
  (scan_bands filterrules bands s).2
  = s.2 ++ refs_of_bands filterrules bands.
Proof.
  induction bands as [|band0 bands IH]; intros s; simpl.
  - rewrite app_nil_r. reflexivity.
  - rewrite IH, scan_rules_refs, <- app_assoc. reflexivity.
Qed.

Lemma registry_length (filterrules : list rule) (bands : list string)
  (reg : list band) :
  build_band_list filterrules bands = Ok reg ->
  length reg = length (refs_of_bands filterrules bands).
Proof.
  unfold build_band_list. intros H.
  apply map_res_lookup in H as [Hlen _].
  rewrite Hlen, scan_bands_refs. reflexivity.
Qed.

(** C1, the code on a rule with two systems.  The rule declares the
    combinations [("AB", "", "")] and [("Vega", "", "")] for its filter
    [V]; the registry gets two entries, as many as there are
    combinations, but both are the one dictionary of the rule table and
    read [systems = "Vega"], the combination written last.  No entry
    carries ["AB"]. *)
Theorem registry_entries_share_one_object :
  sysinstperms (mkRule (Some ["AB"; "Vega"]) None None
                       (Some [("V", local_band "V.dat")]))
  = [("AB", "", ""); ("Vega", "", "")]
  /\ exists e,
       build_band_list rules_two_systems ["V"] = Ok [e; e]
       /\ b_name e = Some "V"
       /\ b_systems e = Some "Vega"
       /\ b_instruments e = Some ""
       /\ b_bandsets e = Some "".
Proof.
  split; [reflexivity|].
  eexists. split; [vm_compute; reflexivity|]. repeat split.
Qed.

(** The test [''] [in s] holds for every string [s]. *)
Lemma str_in_empty (s : string) : str_in "" s = true.
Proof. destruct s; reflexivity. Qed.

(** Hence, on a well-formed registry, the fourth tier asks for the name
    only, and [find_band_index] returns the first entry of that name,
    whatever its qualifiers and those of the request. *)
Lemma find_band_index_first_of_name (self : Filters)
  (name instrument bandset system : string) (r : nat) :
  registry_wf self ->
  find_band_index self name instrument bandset system = Ok r ->
  exists b, _unique_bands self !! r = Some b /\ named name b = true
    /\ forall k b', (k < r)%nat -> _unique_bands self !! k = Some b' ->
         named name b' = false.
Proof.
  intros Hwf Hfind.
  pose proof (find_band_index_first self name instrument bandset system Hwf)
    as H. rewrite Hfind in H. destruct H as (b & Hb & Hsat & Hfirst).
  assert (Hnamed : forall k b', _unique_bands self !! k = Some b' ->
            satisfies_some_tier name instrument bandset system b'
            = named name b').
  { intros k b' Hk. destruct Hwf as (Hi & Hbs & Hs & _).
    destruct (map_Some_lookup _ _ _ _ _ Hi Hk) as (si & _ & Hfi).
    destruct (map_Some_lookup _ _ _ _ _ Hbs Hk) as (sb & _ & Hfb).
    destruct (map_Some_lookup _ _ _ _ _ Hs Hk) as (ss & _ & Hfs).
    unfold satisfies_some_tier, satisfies_tier1, satisfies_tier2,
      satisfies_tier3, satisfies_tier4, field_has.
    rewrite Hfi, Hfb, Hfs, !str_in_empty.
    destruct (named name b'); simpl; [|reflexivity].
    rewrite !orb_true_r. reflexivity. }
  exists b. split; [assumption|]. split.
  - rewrite <- (Hnamed r b Hb). assumption.
  - intros k b' Hlt Hk. rewrite <- (Hnamed k b' Hk). eauto.
Qed.

(** C2, the code on a registry whose unqualified entry comes first.  The
    registry built from [rules_default_first] holds the unqualified [V]
    at index 0 and the [V] of instrument [PS1], system [AB] at index 1.
    A request for [V] with that instrument and system satisfies the first
    tier on entry 1 and only the fourth on entry 0, and the answer is
    index 0.  (Registered the other way round the qualified entry is at
    index 0, and is the answer.) *)
Theorem default_registered_first_is_returned :
  init log10_stand_in curve_files rules_default_first ["V"]
  = Ok filters_default_first
  /\ (exists dflt qual,
        _unique_bands filters_default_first = [dflt; qual]
        /\ b_instruments dflt = Some "" /\ b_systems dflt = Some ""
        /\ b_bandsets dflt = Some ""
        /\ b_instruments qual = Some "PS1" /\ b_systems qual = Some "AB"
        /\ satisfies_tier1 "V" "PS1" "" "AB" qual = true
        /\ satisfies_tier1 "V" "PS1" "" "AB" dflt = false
        /\ satisfies_tier2 "V" "PS1" "AB" dflt = false
        /\ satisfies_tier3 "V" "AB" dflt = false
        /\ satisfies_tier4 "V" dflt = true)
  /\ find_band_index filters_default_first "V" "PS1" "" "AB" = Ok 0%nat
  /\ find_band_index filters_default_last "V" "PS1" "" "AB" = Ok 0%nat.
Proof.
  split; [vm_compute; reflexivity|]. split.
  - do 2 eexists. split; [reflexivity|]. repeat split.
  - split; reflexivity.
Qed.

(** C3, the code on two observations in two bands.  The registry holds
    band [A] (index 0, sampled on the grid [0, 1, 2]) and band [B]
    (index 1, sampled on [0, 2, 4]); the batch observes [B], then [A].
    [self._dxs] is [[2, 1]], one spacing per observation, but the flux
    loop reads it at the band index: the observation in [B] is integrated
    with the step [1] of the grid of [A], and the one in [A] with the step
    [2].  The effective fluxes come out as [1/2] and [2], where the
    trapezoidal rule on each observation's own grid gives [1] and [1]. *)
Theorem flux_step_taken_from_other_grid :
  init log10_stand_in curve_files rules_A_B ["A"; "B"] = Ok filters_A_B
  /\ (let st := (process log10_stand_in 0 1 1 filters_A_B batch_B_A).1 in
      _band_indices st = [1; 0]%nat
      /\ map Qred (_dxs st) = [2; 1]
      /\ exists effs offs,
           eff_fluxes_offsets st batch_B_A = Ok (effs, offs)
           /\ map Qred effs = [1 # 2; 2])
  /\ (exists F, effective_flux_on_own_grid [0; 2; 4] [0; 2; 4] [1; 1; 1]
                  [1; 1; 1] 4 = Ok F /\ Qred F = 1)
  /\ (exists F, effective_flux_on_own_grid [0; 1; 2] [0; 1; 2] [1; 1; 1]
                  [1; 1; 1] 2 = Ok F /\ Qred F = 1).
Proof.
  split; [vm_compute; reflexivity|]. split.
  - split; [vm_compute; reflexivity|]. split; [vm_compute; reflexivity|].
    do 2 eexists. split; vm_compute; reflexivity.
  - split; eexists; split; vm_compute; reflexivity.
Qed.

(** C9, the claim as stated.  Returning the magnitudes is not the only
    effect of [process]: a second call with another batch leaves the
    object different from what the first call left. *)
Lemma process_writes_working_attributes :
  let st1 := (process log10_stand_in 0 1 1 filters_A_B batch_B_A).1 in
  (process log10_stand_in 0 1 1 st1 batch_A_B).1 <> st1.
Proof.
  intros st1 H. apply (f_equal _bands) in H. vm_compute in H. discriminate.
Qed.

(** ** Interpolation outside the domain of the curve *)

(** C4, the claim as stated.  A curve flat at [1] on [5000, 6000], sampled
    on the grid [4000, 5000, 6000, 7000] with an SED flat at [1]: the two
    grid points outside the domain enter the sum with the value [1], not
    with nothing. *)
Lemma outside_points_are_included :
  ~ outside_points_excluded [5000; 6000] [1; 1]
      [4000; 5000; 6000; 7000] [1; 1; 1; 1].
Proof.
  intros H.
  specialize (H [1; 1; 1; 1] 5000 6000 0%nat 4000 (1 * 1)
                eq_refl eq_refl eq_refl eq_refl).
  assert (Hout : 4000 < 5000 \/ 6000 < 4000) by (left; reflexivity).
  specialize (H Hout eq_refl). discriminate.
Qed.

Lemma interp_point_right (xp fp : list Q) (x xn yn : Q) :
  length xp = length fp ->
  last xp = Some xn -> last fp = Some yn -> xn < x ->
  interp_point xp fp x = yn.
Proof.
  intros Hlen Hxn Hyn Hlt. unfold interp_point. rewrite Hxn, Hyn.
  destruct xp as [|x0 xp]; [discriminate|].
  destruct fp as [|y0 fp]; [discriminate|].
  apply Qlt_bool_iff in Hlt. rewrite Hlt. reflexivity.
Qed.

Lemma interp_point_left (xp fp : list Q) (x x0 xn y0 : Q) :
  length xp = length fp ->
  head xp = Some x0 -> last xp = Some xn -> head fp = Some y0 ->
  x < x0 -> x <= xn ->
  interp_point xp fp x = y0.
Proof.
  intros Hlen Hx0 Hxn Hy0 Hlt Hle. unfold interp_point. rewrite Hxn.
  destruct xp as [|x0' xp]; [discriminate|].
  destruct fp as [|y0' fp]; [discriminate|].
  injection Hx0 as ->. injection Hy0 as ->.
  destruct (last (y0 :: fp)) as [yn|] eqn:Hyn.
  - apply Qlt_bool_false in Hle. rewrite Hle.
    apply Qlt_bool_iff in Hlt. rewrite Hlt. reflexivity.
  - apply last_None in Hyn. discriminate.
Qed.

(** C4, as amended.  Where [np.interp] succeeds, a grid point outside the
    domain [[min_wavelength, max_wavelength]] of the curve gets the
    transmission of the nearest end of the curve, [fp[0]] below the domain
    and [fp[-1]] above it: nothing is extrapolated past those values, and
    the point enters the sum with that transmission times its SED sample.
    It adds nothing only when that end of the curve is at zero. *)
Theorem interp_clamps_outside_domain (xp fp wavs sed itrans : list Q)
  (lo hi x s : Q) (k : nat) :
  np_interp wavs xp fp = Ok itrans ->
  py_min xp = Ok lo -> py_max xp = Ok hi ->
  wavs !! k = Some x -> sed !! k = Some s ->
  exists f0 fn,
    head fp = Some f0 /\ last fp = Some fn
    /\ (x < lo ->
        itrans !! k = Some f0
        /\ zip_with Qmult itrans sed !! k = Some (f0 * s))
    /\ (hi < x ->
        itrans !! k = Some fn
        /\ zip_with Qmult itrans sed !! k = Some (fn * s)).
Proof.
  intros Hinterp Hlo Hhi Hx Hs. unfold np_interp in Hinterp.
  destruct xp as [|x0 xp]; [discriminate|].
  destruct (Nat.eqb_spec (length (x0 :: xp)) (length fp)) as [Hlen|];
    [|discriminate].
  injection Hinterp as <-.
  destruct fp as [|y0 fp]; [discriminate|].
  destruct (last (x0 :: xp)) as [xn|] eqn:Hxn;
    [|apply last_None in Hxn; discriminate].
  destruct (last (y0 :: fp)) as [yn|] eqn:Hyn;
    [|apply last_None in Hyn; discriminate].
  apply py_min_spec in Hlo as [_ Alo]. apply py_max_spec in Hhi as [_ Ahi].
  rewrite Forall_forall in Alo, Ahi.
  assert (Hin0 : x0 ∈ x0 :: xp) by left.
  assert (Hinn : xn ∈ x0 :: xp) by (apply last_Some_elem_of; assumption).
  exists y0, yn. split; [reflexivity|]. split; [reflexivity|].
  assert (Hk : forall v, interp_point (x0 :: xp) (y0 :: fp) x = v ->
            map (interp_point (x0 :: xp) (y0 :: fp)) wavs !! k = Some v
            /\ zip_with Qmult (map (interp_point (x0 :: xp) (y0 :: fp)) wavs)
                 sed !! k = Some (v * s)).
  { intros v Hv. assert (Hm : map (interp_point (x0 :: xp) (y0 :: fp)) wavs
                             !! k = Some v)
      by (rewrite lookup_map, Hx; simpl; congruence).
    split; [exact Hm|]. rewrite lookup_zip_with, Hm, Hs. reflexivity. }
  split; intros Hout; apply Hk.
  - apply (interp_point_left _ _ x x0 xn y0); auto.
    + apply Qlt_le_trans with lo; auto.
    + apply Qlt_le_weak. apply Qlt_le_trans with lo; auto.
  - apply (interp_point_right _ _ x xn yn); auto.
    apply Qle_lt_trans with hi; auto.
Qed.

(** ** The TDE photosphere *)

Lemma argmax_from_lt (l : list Q) :
  forall best besti i,
  (besti < i)%nat ->
  (TdePhotosphere.argmax_from best besti i l < i + length l)%nat.
Proof.
  induction l as [|x l IH]; intros best besti i Hlt; simpl.
  - lia.
  - destruct (Qlt_bool best x).
    + specialize (IH x i (S i)). lia.
    + specialize (IH best besti (S i)). lia.
Qed.

Lemma np_argmax_lt (l : list Q) (i : nat) :
  TdePhotosphere.np_argmax l = Ok i -> (i < length l)%nat.
Proof.
  destruct l as [|x l]; simpl; [discriminate|]. intros H. injection H as <-.
  pose proof (argmax_from_lt l x 0%nat 1%nat). lia.
Qed.

Lemma count_nonpositive_le (l : list Q) :
  (TdePhotosphere.count_nonpositive l <= length l)%nat.
Proof. unfold TdePhotosphere.count_nonpositive. apply length_filter. Qed.

Lemma count_nonpositive_lt (l : list Q) (L : Q) :
  In L l -> 0 < L ->
  (TdePhotosphere.count_nonpositive l < length l)%nat.
Proof.
  unfold TdePhotosphere.count_nonpositive.
  induction l as [|x l IH]; intros Hin Hpos; [destruct Hin|].
  rewrite filter_cons. destruct Hin as [->|Hin].
  - destruct (decide (Qle_bool L 0 = true)) as [Hle|_].
    + apply Qle_bool_iff in Hle. exfalso. apply (Qlt_not_le _ _ Hpos Hle).
    + pose proof (length_filter (fun x => Qle_bool x 0 = true) l).
      simpl. lia.
  - specialize (IH Hin Hpos).
    destruct (decide (Qle_bool x 0 = true)); simpl; lia.
Qed.

Lemma broadcast2_same_length {X Y A : Type} (f : X -> Y -> A)
  (a : list X) (b : list Y) :
  length a = length b ->
  TdePhotosphere.broadcast2 f a b = Ok (zip_with f a b).
Proof.
  intros H. unfold TdePhotosphere.broadcast2.
  rewrite (proj2 (Nat.eqb_eq _ _) H). reflexivity.
Qed.

(** What the mask of line 72 leaves: the minimum, the value itself when
    it is a number not below the minimum, or a [nan]. *)
Lemma clamp_one (lo : Q) (r : TdePhotosphere.npfloat) :
  match (if TdePhotosphere.nf_lt r (TdePhotosphere.Num lo)
         then TdePhotosphere.Num lo else r) with
  | TdePhotosphere.Num q => lo <= q
  | TdePhotosphere.NaN => r = TdePhotosphere.NaN
  end.
Proof.
  destruct r as [q|]; simpl; [|reflexivity].
  destruct (Qlt_bool q lo) eqn:H; [apply Qle_refl|].
  apply Qlt_bool_false. assumption.
Qed.

Section TdeProcess.

Variable pow : Q -> Q -> Q.
Variables pi G sigma_sb DAY_CGS M_SUN_CGS C_CGS : Q.

Local Abbreviation process :=
  (TdePhotosphere.process pow pi G sigma_sb DAY_CGS M_SUN_CGS C_CGS).
Local Abbreviation semi_major_axis :=
  (TdePhotosphere.semi_major_axis pow pi G DAY_CGS M_SUN_CGS).
Local Abbreviation power_law :=
  (TdePhotosphere.power_law pow pi G M_SUN_CGS C_CGS).
Local Abbreviation Ledd := (TdePhotosphere.Ledd pi G M_SUN_CGS C_CGS).
Local Abbreviation r_isco := (TdePhotosphere.r_isco G M_SUN_CGS C_CGS).
Local Abbreviation radii_of :=
  (TdePhotosphere.radii_of pow pi G DAY_CGS M_SUN_CGS C_CGS).

Lemma radii_of_length (kw : TdePhotosphere.inputs) (tpeak t0 : Q) :
  length (radii_of kw tpeak t0) = length (TdePhotosphere.luminosities kw).
Proof.
  unfold TdePhotosphere.radii_of. cbv zeta.
  rewrite length_app, !length_map, length_replicate, length_drop.
  pose proof (count_nonpositive_le (TdePhotosphere.luminosities kw)). lia.
Qed.

(** An element of the radii is a number at least [rphotmin], or it is a
    [nan]: then its index is [ilumzero] or later and the power law of the
    luminosity at that index is a [nan]. *)
Lemma radii_of_ge (kw : TdePhotosphere.inputs) (tpeak t0 : Q) (k : nat)
  (r : TdePhotosphere.npfloat) :
  radii_of kw tpeak t0 !! k = Some r ->
  match r with
  | TdePhotosphere.Num q => r_isco (TdePhotosphere.bhmass kw) <= q
  | TdePhotosphere.NaN =>
      exists L,
        (TdePhotosphere.count_nonpositive (TdePhotosphere.luminosities kw)
         <= k)%nat
        /\ TdePhotosphere.luminosities kw !! k = Some L
        /\ power_law (pow 10.0 (TdePhotosphere.Rph0 kw))
             (semi_major_axis (TdePhotosphere.bhmass kw) (tpeak - t0))
             (TdePhotosphere.bhmass kw) (TdePhotosphere.lphoto kw) L
           = TdePhotosphere.NaN
  end.
Proof.
  unfold TdePhotosphere.radii_of. cbv zeta. intros Hk.
  apply lookup_app_Some in Hk as [Hk|[Hge Hk]].
  - rewrite lookup_map in Hk.
    destruct (replicate _ 1 !! k) as [one|] eqn:Hone; [|discriminate].
    apply lookup_replicate in Hone as [-> _]. injection Hk as <-.
    rewrite Qmult_1_l. apply Qle_refl.
  - rewrite length_map, length_replicate in Hge, Hk.
    rewrite lookup_map, lookup_drop in Hk.
    replace (TdePhotosphere.count_nonpositive
               (TdePhotosphere.luminosities kw)
             + (k - TdePhotosphere.count_nonpositive
                      (TdePhotosphere.luminosities kw)))%nat
      with k in Hk by lia.
    destruct (TdePhotosphere.luminosities kw !! k) as [L|] eqn:HL;
      [|discriminate].
    injection Hk as <-.
    match goal with
    | |- match (if TdePhotosphere.nf_lt ?x _ then _ else _) with _ => _ end =>
        pose proof (clamp_one (r_isco (TdePhotosphere.bhmass kw)) x) as Hc;
        destruct (if TdePhotosphere.nf_lt x
                       (TdePhotosphere.Num
                          (r_isco (TdePhotosphere.bhmass kw)))
                  then TdePhotosphere.Num
                         (r_isco (TdePhotosphere.bhmass kw))
                  else x) as [q|]
    end.
    + exact Hc.
    + exists L. split; [exact Hge|]. split; [reflexivity|exact Hc].
Qed.

(** Whenever [process] returns on an input with a positive luminosity,
    the radii are [radii_of] at the two times read from [rest_times]. *)
Lemma process_radii (kw : TdePhotosphere.inputs)
  (out : TdePhotosphere.outputs) :
  (exists L, In L (TdePhotosphere.luminosities kw) /\ 0 < L) ->
  process kw = Ok out ->
  exists imax tpeak t0,
    TdePhotosphere.np_argmax (TdePhotosphere.luminosities kw) = Ok imax
    /\ TdePhotosphere.rest_times kw !! imax = Some tpeak
    /\ TdePhotosphere.rest_times kw
       !! TdePhotosphere.count_nonpositive (TdePhotosphere.luminosities kw)
       = Some t0
    /\ TdePhotosphere.radiusphot out = radii_of kw tpeak t0.
Proof.
  intros (L & HL & Hpos) H.
  pose proof (count_nonpositive_lt _ L HL Hpos) as Hcount.
  unfold TdePhotosphere.process in H.
  apply bind_Ok in H as (imax & Himax & H).
  apply bind_Ok in H as (tpeak & Htpeak & H).
  rewrite (proj2 (Nat.eqb_neq _ _)) in H by lia.
  apply bind_Ok in H as (t0 & Ht0 & H).
  apply bind_Ok in H as (dropped & _ & H).
  apply bind_Ok in H as (Tphot & _ & H).
  injection H as <-. apply index_Ok in Htpeak, Ht0.
  exists imax, tpeak, t0. repeat split; auto.
  cbn [TdePhotosphere.radiusphot]. unfold TdePhotosphere.radii_of. cbv zeta.
  unfold TdePhotosphere.clamp_below. rewrite map_map. reflexivity.
Qed.

(** On an input with as many times as luminosities, one of them
    positive, [process] returns: no index is out of range and the two
    elementwise operations are on arrays of equal length. *)
Lemma process_returns (kw : TdePhotosphere.inputs) :
  length (TdePhotosphere.rest_times kw)
  = length (TdePhotosphere.luminosities kw) ->
  (exists L, In L (TdePhotosphere.luminosities kw) /\ 0 < L) ->
  exists out, process kw = Ok out.
Proof.
  intros Hlen (L & HL & Hpos).
  pose proof (count_nonpositive_lt _ L HL Hpos) as Hcount.
  destruct (TdePhotosphere.np_argmax (TdePhotosphere.luminosities kw))
    as [imax|e] eqn:Himax.
  2:{ unfold TdePhotosphere.np_argmax in Himax.
      destruct (TdePhotosphere.luminosities kw);
        [destruct HL|discriminate]. }
  pose proof (np_argmax_lt _ imax Himax) as Hlt.
  destruct (lookup_lt_is_Some_2 (TdePhotosphere.rest_times kw) imax)
    as [tpeak Htpeak]; [lia|].
  destruct (lookup_lt_is_Some_2 (TdePhotosphere.rest_times kw)
              (TdePhotosphere.count_nonpositive
                 (TdePhotosphere.luminosities kw)))
    as [t0 Ht0]; [lia|].
  unfold TdePhotosphere.process.
  rewrite Himax. cbn [bind]. unfold index at 1. rewrite Htpeak. cbn [bind].
  rewrite (proj2 (Nat.eqb_neq _ _)) by lia.
  unfold index at 1. rewrite Ht0. cbn [bind].
  unfold TdePhotosphere.np_where_gt, TdePhotosphere.clamp_below.
  rewrite broadcast2_same_length
    by (rewrite !length_map, !length_drop; lia).
  cbn [bind].
  rewrite broadcast2_same_length
    by (rewrite length_app, !length_map, length_replicate, length_drop;
        lia).
  eexists. reflexivity.
Qed.

(** The times enter the radii through the time of peak and the time at
    index [ilumzero] only: changing any other time changes [a_t], and with
    it [rphotmax], and leaves the radii as they were. *)
Lemma radii_ignore_other_times (kw kw' : TdePhotosphere.inputs)
  (out out' : TdePhotosphere.outputs) (imax : nat) :
  (exists L, In L (TdePhotosphere.luminosities kw) /\ 0 < L) ->
  TdePhotosphere.luminosities kw' = TdePhotosphere.luminosities kw ->
  TdePhotosphere.bhmass kw' = TdePhotosphere.bhmass kw ->
  TdePhotosphere.lphoto kw' = TdePhotosphere.lphoto kw ->
  TdePhotosphere.Rph0 kw' = TdePhotosphere.Rph0 kw ->
  TdePhotosphere.np_argmax (TdePhotosphere.luminosities kw) = Ok imax ->
  TdePhotosphere.rest_times kw' !! imax
  = TdePhotosphere.rest_times kw !! imax ->
  TdePhotosphere.rest_times kw'
  !! TdePhotosphere.count_nonpositive (TdePhotosphere.luminosities kw)
  = TdePhotosphere.rest_times kw
    !! TdePhotosphere.count_nonpositive (TdePhotosphere.luminosities kw) ->
  process kw = Ok out -> process kw' = Ok out' ->
  TdePhotosphere.radiusphot out' = TdePhotosphere.radiusphot out.
Proof.
  intros Hpos Hl Hm Hp Hr Himax Hpeak Hzero Hout Hout'.
  assert (Hpos' : exists L, In L (TdePhotosphere.luminosities kw') /\ 0 < L)
    by (rewrite Hl; exact Hpos).
  destruct (process_radii kw out Hpos Hout)
    as (i & tpeak & t0 & Hi & Ht & H0 & ->).
  destruct (process_radii kw' out' Hpos' Hout')
    as (i' & tpeak' & t0' & Hi' & Ht' & H0' & ->).
  rewrite Hl in Hi', H0'.
  assert (i = imax) by congruence. assert (i' = imax) by congruence.
  subst i i'.
  assert (tpeak' = tpeak) by congruence. assert (t0' = t0) by congruence.
  subst tpeak' t0'.
  unfold TdePhotosphere.radii_of. rewrite Hl, Hm, Hp, Hr. reflexivity.
Qed.

(** C10.  On an input with at least one positive luminosity and a
    non-zero Eddington luminosity (so that no quotient of the radii has a
    zero divisor: [pi] and [C_CGS] are factors of [Ledd]), whenever
    [process] returns, the radii it returns are: the minimum radius
    [rphotmin = r_isco] for the first [ilumzero] elements, then the power
    law [(Rph_0 * a_p * L / Ledd) ** l] of each later luminosity, replaced
    by [rphotmin] where it compares below it.  So every element is a
    number at least [rphotmin], or else a [nan]; and it is a [nan] only
    from index [ilumzero] on and only where the power law itself is a
    [nan], on which the comparison of the lower clamp is false.  The
    bound [rphotmax = 2 * a_t] does not occur in the radii: the comparison
    against it is evaluated and its value dropped.  And [process] does
    return when there are as many times as luminosities. *)
Theorem radius_clamped_below_only (kw : TdePhotosphere.inputs) :
  (exists L, In L (TdePhotosphere.luminosities kw) /\ 0 < L) ->
  ~ Ledd (TdePhotosphere.bhmass kw) == 0 ->
  let lums := TdePhotosphere.luminosities kw in
  let times := TdePhotosphere.rest_times kw in
  let Mh := TdePhotosphere.bhmass kw in
  let ilumzero := TdePhotosphere.count_nonpositive lums in
  let rphotmin := r_isco Mh in
  (length times = length lums -> exists out, process kw = Ok out)
  /\ forall out,
       process kw = Ok out ->
       exists imax tpeak t0,
         TdePhotosphere.np_argmax lums = Ok imax
         /\ times !! imax = Some tpeak
         /\ times !! ilumzero = Some t0
         /\ TdePhotosphere.radiusphot out
            = map (fun one => TdePhotosphere.Num (one * rphotmin))
                  (replicate ilumzero 1)
              ++ map (fun L =>
                        let r := power_law
                                   (pow 10.0 (TdePhotosphere.Rph0 kw))
                                   (semi_major_axis Mh (tpeak - t0))
                                   Mh (TdePhotosphere.lphoto kw) L in
                        if TdePhotosphere.nf_lt r
                             (TdePhotosphere.Num rphotmin)
                        then TdePhotosphere.Num rphotmin else r)
                     (drop ilumzero lums)
         /\ length (TdePhotosphere.radiusphot out) = length lums
         /\ forall k r,
              TdePhotosphere.radiusphot out !! k = Some r ->
              match r with
              | TdePhotosphere.Num q => rphotmin <= q
              | TdePhotosphere.NaN =>
                  exists L,
                    (ilumzero <= k)%nat
                    /\ lums !! k = Some L
                    /\ power_law (pow 10.0 (TdePhotosphere.Rph0 kw))
                         (semi_major_axis Mh (tpeak - t0))
                         Mh (TdePhotosphere.lphoto kw) L
                       = TdePhotosphere.NaN
              end.
Proof.
  intros Hpos _ lums times Mh ilumzero rphotmin. split.
  - intros Hlen. apply process_returns; assumption.
  - intros out Hout.
    destruct (process_radii kw out Hpos Hout)
      as (imax & tpeak & t0 & Hi & Ht & H0 & Hr).
    exists imax, tpeak, t0. rewrite Hr.
    split; [exact Hi|]. split; [exact Ht|]. split; [exact H0|].
    split; [reflexivity|]. split.
    + apply radii_of_length.
    + intros k r. apply radii_of_ge.
Qed.

End TdeProcess.

(** C10, the claim as it stands.  With the luminosities [[5, -1]] and the
    exponent [lphoto = 0.5] there is a positive luminosity and [ilumzero]
    is [1]; the power law of the luminosity [-1] has a negative base, so
    it is a [nan], the mask [rphot2 < rphotmin] is false on it, and the
    radius returned at index [1], after the first accretion, is a [nan]:
    it is not at least [rphotmin]. *)
Lemma negative_luminosity_radius_is_nan :
  (exists L, In L (TdePhotosphere.luminosities tde_inputs_negative)
             /\ 0 < L)
  /\ TdePhotosphere.process pow_stand_in 3 1 1 1 1 1 tde_inputs_negative
     = Ok tde_outputs_negative
  /\ TdePhotosphere.count_nonpositive
       (TdePhotosphere.luminosities tde_inputs_negative) = 1%nat
  /\ TdePhotosphere.radiusphot tde_outputs_negative
     = [TdePhotosphere.Num
          (1 * TdePhotosphere.r_isco 1 1 1
                 (TdePhotosphere.bhmass tde_inputs_negative));
        TdePhotosphere.NaN]
  /\ ~ Forall
        (fun r =>
           at_least (TdePhotosphere.r_isco 1 1 1
                       (TdePhotosphere.bhmass tde_inputs_negative)) r
           = true)
        (drop (TdePhotosphere.count_nonpositive
                 (TdePhotosphere.luminosities tde_inputs_negative))
              (TdePhotosphere.radiusphot tde_outputs_negative)).
Proof.
  split; [exists 5; split; [simpl; tauto|reflexivity]|].
  split; [vm_compute; reflexivity|].
  split; [vm_compute; reflexivity|].
  split; [vm_compute; reflexivity|].
  intros H. apply Forall_cons in H as [H _]. discriminate H.
Qed.

(** ** The theorems at concrete inputs *)

Lemma band_integral_and_bounds_witness :
  init log10_stand_in curve_files rules_A_B ["A"; "B"] = Ok filters_A_B
  /\ _unique_bands filters_A_B !! 0%nat = Some band_A
  /\ exists w t integral lo hi,
       _band_wavelengths filters_A_B !! 0%nat = Some w
       /\ _transmissions filters_A_B !! 0%nat = Some t
       /\ _filter_integrals filters_A_B !! 0%nat = Some integral
       /\ _min_waves filters_A_B !! 0%nat = Some lo
       /\ _max_waves filters_A_B !! 0%nat = Some hi
       /\ length w = length t /\ w <> []
       /\ integral == trapezoid_area (zip w t)
       /\ In lo w /\ In hi w /\ Forall (fun x => lo <= x /\ x <= hi) w
       /\ forall s first final,
            Permutation w s -> Sorted Qle s ->
            head s = Some first -> last s = Some final ->
            lo == first /\ hi == final.
Proof.
  assert (H1 : init log10_stand_in curve_files rules_A_B ["A"; "B"]
               = Ok filters_A_B) by (vm_compute; reflexivity).
  assert (H2 : _unique_bands filters_A_B !! 0%nat = Some band_A)
    by reflexivity.
  split; [exact H1|]. split; [exact H2|].
  exact (band_integral_and_bounds log10_stand_in curve_files rules_A_B
           ["A"; "B"] filters_A_B 0 band_A H1 H2).
Defined.

Lemma band_offset_priority_witness :
  init log10_stand_in catalogue rules_svo ["U"] = Ok filters_svo
  /\ _unique_bands filters_svo !! 0%nat = Some band_U
  /\ exists off,
       _band_offsets filters_svo !! 0%nat = Some off
       /\ (forall o, b_offset band_U = Some o -> off = o)
       /\ (b_offset band_U = None ->
           forall svo native,
             b_SVO band_U = Some svo -> last (split "/" svo) = Some native ->
             (native = "AB" -> off = 0)
             /\ (native <> "AB" ->
                 forall ab_doc native_doc ABflux rest nativeflux before,
                   svo_xml catalogue (svo_path svo "AB") = Some ab_doc ->
                   zero_points ab_doc = ABflux :: rest ->
                   svo_xml catalogue (svo_path svo native)
                   = Some native_doc ->
                   zero_points native_doc = before ++ [nativeflux] ->
                   off = 2.5 * log10_stand_in (ABflux / nativeflux)))
       /\ (b_offset band_U = None -> b_SVO band_U = None -> off = 0).
Proof.
  assert (H1 : init log10_stand_in catalogue rules_svo ["U"]
               = Ok filters_svo) by (vm_compute; reflexivity).
  assert (H2 : _unique_bands filters_svo !! 0%nat = Some band_U)
    by reflexivity.
  split; [exact H1|]. split; [exact H2|].
  exact (band_offset_priority log10_stand_in catalogue rules_svo ["U"]
           filters_svo 0 band_U H1 H2).
Defined.

Lemma process_magnitude_formula_witness :
  process log10_stand_in 0 1 1 filters_A_B batch_B_A
  = (run_B_A.1, Ok [Fin (800 # 640); Fin (-800 # 320)])
  /\ exists effs offs,
       eff_fluxes_offsets run_B_A.1 batch_B_A = Ok (effs, offs)
       /\ length effs = length (luminosities batch_B_A)
       /\ length offs = length (luminosities batch_B_A)
       /\ length [Fin (800 # 640); Fin (-800 # 320)]
          = length (luminosities batch_B_A)
       /\ forall li F offset,
            effs !! li = Some F -> offs !! li = Some offset ->
            (F == 0 -> [Fin (800 # 640); Fin (-800 # 320)] !! li = Some Inf)
            /\ (~ F == 0 ->
                [Fin (800 # 640); Fin (-800 # 320)] !! li
                = Some (Fin (0 - offset
                             - 2.5 * (log10_stand_in F
                                      - log10_stand_in
                                          (1 * (lumdist batch_B_A * 1) ^ 2))))).
Proof.
  assert (H1 : process log10_stand_in 0 1 1 filters_A_B batch_B_A
               = (run_B_A.1, Ok [Fin (800 # 640); Fin (-800 # 320)]))
    by (vm_compute; reflexivity).
  split; [exact H1|].
  exact (process_magnitude_formula log10_stand_in 0 1 1 filters_A_B
           run_B_A.1 batch_B_A [Fin (800 # 640); Fin (-800 # 320)] H1).
Defined.

Lemma interp_clamps_outside_domain_witness :
  np_interp [4000; 5000; 6000; 7000] [5000; 6000] [1; 1] = Ok [1; 1; 1; 1]
  /\ py_min [5000; 6000] = Ok 5000 /\ py_max [5000; 6000] = Ok 6000
  /\ [4000; 5000; 6000; 7000] !! 0%nat = Some 4000
  /\ [1; 1; 1; 1] !! 0%nat = Some 1
  /\ exists f0 fn,
       head [1; 1] = Some f0 /\ last [1; 1] = Some fn
       /\ (4000 < 5000 ->
           [1; 1; 1; 1] !! 0%nat = Some f0
           /\ zip_with Qmult [1; 1; 1; 1] [1; 1; 1; 1] !! 0%nat
              = Some (f0 * 1))
       /\ (6000 < 4000 ->
           [1; 1; 1; 1] !! 0%nat = Some fn
           /\ zip_with Qmult [1; 1; 1; 1] [1; 1; 1; 1] !! 0%nat
              = Some (fn * 1)).
Proof.
  repeat (split; [reflexivity|]).
  exact (interp_clamps_outside_domain [5000; 6000] [1; 1]
           [4000; 5000; 6000; 7000] [1; 1; 1; 1] [1; 1; 1; 1]
           5000 6000 4000 1 0 eq_refl eq_refl eq_refl eq_refl eq_refl).
Defined.

Lemma radius_clamped_below_only_witness :
  (exists L, In L (TdePhotosphere.luminosities tde_inputs) /\ 0 < L)
  /\ ~ TdePhotosphere.Ledd 3 1 1 1 (TdePhotosphere.bhmass tde_inputs) == 0
  /\ length (TdePhotosphere.rest_times tde_inputs)
     = length (TdePhotosphere.luminosities tde_inputs)
  /\ exists out,
       TdePhotosphere.process pow_stand_in 3 1 1 1 1 1 tde_inputs = Ok out
       /\ forall k q,
            TdePhotosphere.radiusphot out !! k
            = Some (TdePhotosphere.Num q) ->
            TdePhotosphere.r_isco 1 1 1 (TdePhotosphere.bhmass tde_inputs)
            <= q.
Proof.
  assert (H1 : exists L, In L (TdePhotosphere.luminosities tde_inputs)
                         /\ 0 < L).
  { exists 5. split; [simpl; tauto|reflexivity]. }
  assert (H0 : ~ TdePhotosphere.Ledd 3 1 1 1
                   (TdePhotosphere.bhmass tde_inputs) == 0)
    by (vm_compute; discriminate).
  assert (H2 : length (TdePhotosphere.rest_times tde_inputs)
               = length (TdePhotosphere.luminosities tde_inputs))
    by reflexivity.
  split; [exact H1|]. split; [exact H0|]. split; [exact H2|].
  destruct (radius_clamped_below_only pow_stand_in 3 1 1 1 1 1 tde_inputs
              H1 H0) as [Hret Hrad].
  destruct (Hret H2) as [out Hout]. exists out. split; [exact Hout|].
  destruct (Hrad out Hout)
    as (imax & tpeak & t0 & _ & _ & _ & _ & _ & Hge).
  intros k q Hk. exact (Hge k (TdePhotosphere.Num q) Hk).
Defined.

(** * Further properties of the code *)

(** ** What [__init__] lays out, and [request] *)

Lemma store_offset_length (b : band) (zps : list Q) (i : nat)
  (offs offs' : list Q) :
  store_offset b zps i offs = Ok offs' -> length offs' = length offs.
Proof.
  unfold store_offset. destruct (b_offset b) as [o|].
  - intros H. apply setitem_Ok in H as [_ ->]. apply length_insert.
  - destruct (b_SVO b) as [svo|].
    + intros H. bind_inv H. apply setitem_Ok in H as [_ ->].
      apply length_insert.
    + intros H. injection H as <-. reflexivity.
Qed.

Lemma init_band_layout (log10 : Q -> Q) (src : sources) (i : nat)
  (b : band) (self self' : Filters) :
  init_band log10 src i b self = Ok self' -> layout self' = layout self.
Proof.
  unfold init_band. intros H.
  apply bind_Ok in H as (r & _ & H). apply bind_Ok in H as (cols & _ & H).
  apply bind_Ok in H as (bw & Hbw & H). apply bind_Ok in H as (tr & Htr & H).
  apply bind_Ok in H as (lo & _ & H). apply bind_Ok in H as (mins & Hmins & H).
  apply bind_Ok in H as (hi & _ & H). apply bind_Ok in H as (maxs & Hmaxs & H).
  apply bind_Ok in H as (ints & Hints & H).
  apply bind_Ok in H as (offs & Hoffs & H). injection H as <-.
  apply setitem_Ok in Hbw as [_ ->]. apply setitem_Ok in Htr as [_ ->].
  apply setitem_Ok in Hmins as [_ ->]. apply setitem_Ok in Hmaxs as [_ ->].
  apply setitem_Ok in Hints as [_ ->].
  apply store_offset_length in Hoffs.
  unfold layout. simpl. rewrite !length_insert, Hoffs. reflexivity.
Qed.

Lemma init_loop_layout (log10 : Q -> Q) (src : sources) (bs : list band) :
  forall i self st,
  init_loop log10 src i bs self = Ok st -> layout st = layout self.
Proof.
  induction bs as [|b bs IH]; intros i self st H; simpl in H.
  - injection H as <-. reflexivity.
  - apply bind_Ok in H as (self1 & Hband & Hloop).
    apply IH in Hloop. apply init_band_layout in Hband. congruence.
Qed.

Lemma map_res_length {A B : Type} (f : A -> res B) (l : list A)
  (l' : list B) :
  map_res f l = Ok l' -> length l' = length l.
Proof. intros H. apply map_res_lookup in H as [H _]. exact H. Qed.

(** [zip( *[a, b])] pairs the two lists up, as far as the shorter goes. *)
Lemma zip_star_pair (a b : list Q) :
  zip_star [a; b] = zip_with (fun x y => [x; y]) a b.
Proof.
  apply list_eq. intros k. unfold zip_star.
  rewrite lookup_map, lookup_zip_with. simpl min_len.
  destruct (Nat.lt_ge_cases k (Nat.min (length a) (length b))) as [Hlt|Hge].
  - rewrite lookup_seq_lt by assumption. simpl.
    destruct (lookup_lt_is_Some_2 a k) as [x Hx]; [lia|].
    destruct (lookup_lt_is_Some_2 b k) as [y Hy]; [lia|].
    rewrite Hx, Hy. reflexivity.
  - rewrite lookup_seq_ge by assumption. simpl.
    destruct (a !! k) as [x|] eqn:Hx; [|reflexivity]. simpl.
    destruct (b !! k) as [y|] eqn:Hy; [|reflexivity].
    apply lookup_lt_Some in Hx, Hy. lia.
Qed.

Section Layout.

Variable log10 : Q -> Q.
Variable src : sources.

(** X1.  A [Filters] object that [__init__] has built holds one slot per
    band in every per-band list: the four lists of qualifiers and names
    and the six lists of curve data all have the length [_n_bands], the
    number of entries of the registry. *)
Theorem init_one_slot_per_band (filterrules : list rule)
  (bands : list string) (st : Filters) :
  init log10 src filterrules bands = Ok st ->
  let n := length (_unique_bands st) in
  _n_bands st = n
  /\ length (_band_insts st) = n /\ length (_band_bsets st) = n
  /\ length (_band_systs st) = n /\ length (_band_names st) = n
  /\ length (_band_wavelengths st) = n /\ length (_transmissions st) = n
  /\ length (_min_waves st) = n /\ length (_max_waves st) = n
  /\ length (_filter_integrals st) = n /\ length (_band_offsets st) = n.
Proof.
  intros Hinit n.
  pose proof (init_inv log10 src _ _ _ Hinit) as (_ & Hwf & _).
  destruct Hwf as (Hi & Hb & Hs & Hn).
  apply (f_equal length) in Hi, Hb, Hs, Hn.
  rewrite !length_map in Hi, Hb, Hs, Hn.
  unfold init in Hinit.
  apply bind_Ok in Hinit as (band_list & _ & H).
  apply bind_Ok in H as (insts & _ & H). apply bind_Ok in H as (bsets & _ & H).
  apply bind_Ok in H as (systs & _ & H). apply bind_Ok in H as (names & _ & H).
  pose proof (init_loop_inv log10 src _ _ _ _ H) as (_ & _ & Hu & _).
  apply init_loop_layout in H. unfold layout in H. simpl in H, Hu.
  rewrite !length_replicate in H. injection H as H0 H1 H2 H3 H4 H5 H6.
  subst n. rewrite Hu. repeat split; congruence.
Qed.

(** X2.  [request('band_wave_ranges')] on such an object answers with one
    pair [[lo, hi]] per band, in registry order; [lo] and [hi] are
    wavelengths of the band's own curve and every wavelength of the curve
    lies between them. *)
Theorem band_wave_ranges_bound_the_curves (filterrules : list rule)
  (bands : list string) (st : Filters) :
  init log10 src filterrules bands = Ok st ->
  exists ranges,
    request st "band_wave_ranges" = Ranges ranges
    /\ length ranges = length (_unique_bands st)
    /\ forall i b, _unique_bands st !! i = Some b ->
         exists w lo hi,
           _band_wavelengths st !! i = Some w
           /\ ranges !! i = Some [lo; hi]
           /\ In lo w /\ In hi w
           /\ Forall (fun x => lo <= x /\ x <= hi) w.
Proof.
  intros Hinit.
  exists (zip_with (fun x y => [x; y]) (_min_waves st) (_max_waves st)).
  split; [unfold request; simpl; rewrite zip_star_pair; reflexivity|].
  pose proof (init_inv log10 src _ _ _ Hinit) as (_ & _ & Hload).
  split.
  - unfold init in Hinit.
    apply bind_Ok in Hinit as (band_list & _ & H).
    apply bind_Ok in H as (insts & _ & H).
    apply bind_Ok in H as (bsets & _ & H).
    apply bind_Ok in H as (systs & _ & H).
    apply bind_Ok in H as (names & _ & H).
    pose proof (init_loop_inv log10 src _ _ _ _ H) as (_ & _ & Hu & _).
    apply init_loop_layout in H. unfold layout in H. simpl in H, Hu.
    rewrite !length_replicate in H. injection H as _ _ _ H3 H4 _ _.
    rewrite length_zip_with, H3, H4, Hu. lia.
  - intros i b Hb.
    destruct (Hload i b Hb)
      as (w & t & zps & rows & lo & hi & _ & _ & Hlo & Hhi & Hent).
    unfold entry in Hent. injection Hent as Hw _ Hmin Hmax _ _.
    apply py_min_spec in Hlo as [Ilo Alo].
    apply py_max_spec in Hhi as [Ihi Ahi].
    exists w, lo, hi. split; [exact Hw|]. split.
    + rewrite lookup_zip_with, Hmin, Hmax. reflexivity.
    + repeat split; auto. rewrite Forall_forall in *. intros x Hx. auto.
Qed.

End Layout.

(** [request] hands back the object itself for ['filters'] and the empty
    list for any request other than the two it knows. *)
Lemma request_other (self : Filters) (req : string) :
  request self "filters" = TheFilters self
  /\ (req <> "filters" -> req <> "band_wave_ranges" ->
      request self req = Ranges []).
Proof.
  split; [reflexivity|]. intros H1 H2. unfold request.
  apply String.eqb_neq in H1, H2. rewrite H1, H2. reflexivity.
Qed.

(** ** [find_band_index] and the qualifiers of a request *)

Lemma named_iff (name : string) (b : band) :
  named name b = true <-> b_name b = Some name.
Proof.
  unfold named. destruct (b_name b) as [n|]; [|split; discriminate].
  destruct (String.eqb_spec name n) as [->|Hne]; split; try reflexivity;
    try discriminate. intros H. congruence.
Qed.

(** On a well-formed registry an entry satisfies one of the four tiers
    exactly when it has the requested name. *)
Lemma some_tier_is_name (self : Filters)
  (name instrument bandset system : string) (k : nat) (b : band) :
  registry_wf self -> _unique_bands self !! k = Some b ->
  satisfies_some_tier name instrument bandset system b = named name b.
Proof.
  intros (Hi & Hbs & Hs & _) Hk.
  destruct (map_Some_lookup _ _ _ _ _ Hi Hk) as (si & _ & Hfi).
  destruct (map_Some_lookup _ _ _ _ _ Hbs Hk) as (sb & _ & Hfb).
  destruct (map_Some_lookup _ _ _ _ _ Hs Hk) as (ss & _ & Hfs).
  unfold satisfies_some_tier, satisfies_tier1, satisfies_tier2,
    satisfies_tier3, satisfies_tier4, field_has.
  rewrite Hfi, Hfb, Hfs, !str_in_empty.
  destruct (named name b); simpl; [|reflexivity].
  rewrite !orb_true_r. reflexivity.
Qed.

Lemma find_from_ext (self : Filters)
  (name i1 b1 s1 i2 b2 s2 : string) (bs : list band) :
  forall bi,
  (forall k b, bs !! k = Some b ->
     entry_matches self name i1 b1 s1 (bi + k) b
     = entry_matches self name i2 b2 s2 (bi + k) b) ->
  find_from self name i1 b1 s1 bi bs = find_from self name i2 b2 s2 bi bs.
Proof.
  induction bs as [|b bs IH]; intros bi H; simpl; [reflexivity|].
  pose proof (H 0%nat b eq_refl) as H0. rewrite Nat.add_0_r in H0.
  rewrite H0. destruct (entry_matches self name i2 b2 s2 bi b) as [hit|e];
    simpl; [|reflexivity].
  destruct hit; [reflexivity|]. apply IH. intros k b0 Hk.
  replace (S bi + k)%nat with (bi + S k)%nat by lia. apply H. exact Hk.
Qed.

(** X3.  On a registry as [__init__] lays it out, the instrument, bandset
    and system of a request have no bearing on the answer of
    [find_band_index]: it is the index of the first entry whose name is
    the requested one, and [ValueError] is raised exactly when no entry
    has that name. *)
Theorem find_band_index_by_name_only (self : Filters)
  (name instrument bandset system : string) :
  registry_wf self ->
  find_band_index self name instrument bandset system
  = find_band_index self name "" "" ""
  /\ match find_band_index self name instrument bandset system with
     | Ok r =>
         exists e, _unique_bands self !! r = Some e
           /\ b_name e = Some name
           /\ forall k e', (k < r)%nat -> _unique_bands self !! k = Some e' ->
                b_name e' <> Some name
     | Raise err =>
         err = ValueError
         /\ forall k e, _unique_bands self !! k = Some e ->
              b_name e <> Some name
     end.
Proof.
  intros Hwf. split.
  - unfold find_band_index. apply find_from_ext. intros k b Hk. simpl.
    rewrite !entry_matches_wf by assumption.
    rewrite !(some_tier_is_name self _ _ _ _ k b Hwf Hk). reflexivity.
  - pose proof (find_band_index_first self name instrument bandset system
                  Hwf) as H.
    destruct (find_band_index self name instrument bandset system) as [r|err].
    + destruct H as (e & Hr & Hsat & Hfirst). exists e.
      split; [exact Hr|]. split.
      * apply named_iff. rewrite <- (some_tier_is_name self name instrument
                                       bandset system r e Hwf Hr). exact Hsat.
      * intros k e' Hlt Hk Hname. apply named_iff in Hname.
        rewrite <- (some_tier_is_name self name instrument bandset system
                      k e' Hwf Hk) in Hname.
        rewrite (Hfirst k e' Hlt Hk) in Hname. discriminate.
    + destruct H as (-> & Hnone). split; [reflexivity|].
      intros k e Hk Hname. apply named_iff in Hname.
      rewrite <- (some_tier_is_name self name instrument bandset system
                    k e Hwf Hk) in Hname.
      rewrite (Hnone k e Hk) in Hname. discriminate.
Qed.

(** ** [process]: when it raises, and what it needs to return *)

Lemma map_res_raise {A B : Type} (f : A -> res B) (e : exn) (l : list A) :
  (forall x, In x l -> (exists y, f x = Ok y) \/ f x = Raise e) ->
  (exists x, In x l /\ f x = Raise e) ->
  map_res f l = Raise e.
Proof.
  induction l as [|a l IH]; intros Hall (x & Hin & Hx); [destruct Hin|].
  simpl. destruct (Hall a (or_introl eq_refl)) as [[y Hy]|Ha].
  - rewrite Hy. simpl. destruct Hin as [->|Hin]; [congruence|].
    rewrite IH; [reflexivity| |eauto].
    intros x0 H0. apply Hall. right. exact H0.
  - rewrite Ha. reflexivity.
Qed.

Lemma flux_loop_steps (self : Filters) (kw : kwargs) (lis : list nat) :
  forall acc r,
  flux_loop self kw lis acc = Ok r ->
  forall li, In li lis -> exists x, flux_step self kw li = Ok x.
Proof.
  induction lis as [|l lis IH]; intros acc r H li Hin; [destruct Hin|].
  simpl in H. apply bind_Ok in H as (x & Hx & H).
  destruct Hin as [->|Hin]; [eauto|]. eapply IH; eassumption.
Qed.

Section ProcessOutcomes.

Variable log10 : Q -> Q.
Variable AB_OFFSET : Q.
Variable FOUR_PI : Q.
Variable MPC_CGS : Q.

(** X4.  When a band of the batch has no entry of its name in a
    well-formed registry, [process] raises [ValueError], and the only
    attribute it has written by then is [_bands]. *)
Theorem process_unknown_band (self : Filters) (kw : kwargs)
  (name : string) :
  registry_wf self ->
  In name (all_bands kw) ->
  (forall k e, _unique_bands self !! k = Some e -> b_name e <> Some name) ->
  process log10 AB_OFFSET FOUR_PI MPC_CGS self kw
  = (set_bands self (all_bands kw), Raise ValueError).
Proof.
  intros Hwf Hin Hnone. unfold process.
  assert (Hwf' : registry_wf (set_bands self (all_bands kw))) by exact Hwf.
  rewrite (map_res_raise _ ValueError); [reflexivity| |].
  - intros x _.
    pose proof (find_band_index_first (set_bands self (all_bands kw))
                  x "" "" "" Hwf') as H.
    destruct (find_band_index _ x "" "" "") as [r|e]; [eauto|].
    destruct H as [-> _]. right. reflexivity.
  - exists name. split; [exact Hin|].
    pose proof (find_band_index_first (set_bands self (all_bands kw))
                  name "" "" "" Hwf') as H.
    destruct (find_band_index _ name "" "" "") as [r|e].
    + destruct H as (b & Hr & Hsat & _). exfalso.
      rewrite (some_tier_is_name _ _ _ _ _ r b Hwf' Hr) in Hsat.
      apply named_iff in Hsat. exact (Hnone r b Hr Hsat).
    + destruct H as [-> _]. reflexivity.
Qed.

(** Everything a returning call has gone through. *)
Lemma process_Ok_inv (self self' : Filters) (kw : kwargs)
  (mags : list mag) :
  process log10 AB_OFFSET FOUR_PI MPC_CGS self kw = (self', Ok mags) ->
  exists indices sp effs offs,
    map_res (fun name =>
               find_band_index (set_bands self (all_bands kw)) name "" "" "")
            (all_bands kw) = Ok indices
    /\ self' = mkFilters (_unique_bands self) (_band_insts self)
                 (_band_bsets self) (_band_systs self) (_band_names self)
                 (_n_bands self) (_band_wavelengths self)
                 (_transmissions self) (_min_waves self) (_max_waves self)
                 (_filter_integrals self) (_band_offsets self)
                 (all_bands kw) indices sp
                 (log10 (FOUR_PI * (lumdist kw * MPC_CGS) ^ 2))
                 (luminosities kw) (systems kw) (instruments kw)
                 (bandsets kw)
    /\ length sp = length indices
    /\ (forall k bi, indices !! k = Some bi ->
          exists wavs w1 w0,
            samplewavelengths kw !! bi = Some wavs
            /\ wavs !! 1%nat = Some w1 /\ wavs !! 0%nat = Some w0
            /\ sp !! k = Some (w1 - w0))
    /\ flux_loop self' kw (seq 0 (length (luminosities kw))) ([], [])
       = Ok (effs, offs)
    /\ mags = abmag log10 AB_OFFSET self' effs offs.
Proof.
  unfold process.
  destruct (map_res _ _) as [indices|e] eqn:Hidx; [|discriminate].
  destruct (dxs_loop_only_dxs kw
              (_band_indices
                 (set_dxs (set_band_indices
                             (set_bands self (all_bands kw)) indices) []))
              (set_dxs (set_band_indices
                          (set_bands self (all_bands kw)) indices) []))
    as [d Hd].
  destruct (dxs_loop kw _ _) as [self1 [[]|e]] eqn:Hloop; [|discriminate].
  simpl in Hd. subst self1.
  apply dxs_loop_dxs in Hloop as (sp & Hdx & Hlen & Hsp).
  simpl in Hdx, Hlen, Hsp. subst d.
  destruct (eff_fluxes_offsets _ _) as [[effs offs]|e] eqn:Hflux;
    [|discriminate].
  intros H. injection H as <- <-.
  exists indices, sp, effs, offs.
  split; [reflexivity|]. split; [reflexivity|]. split; [exact Hlen|].
  split; [exact Hsp|]. split; [exact Hflux|reflexivity].
Qed.

(** X5.  [process] returns only on a batch that is complete for the loop
    of lines 182-191: there are at least as many band names and SEDs as
    luminosities, every band of the batch has a sampling grid of at least
    two points, and the band index of every observation is smaller than
    the number of band names, because [self._dxs], which has one element
    per band name, is read at that index.  It then returns one magnitude
    per luminosity. *)
Theorem process_returns_only_if (self self' : Filters) (kw : kwargs)
  (mags : list mag) :
  process log10 AB_OFFSET FOUR_PI MPC_CGS self kw = (self', Ok mags) ->
  (length (luminosities kw) <= length (all_bands kw))%nat
  /\ (length (luminosities kw) <= length (seds kw))%nat
  /\ length mags = length (luminosities kw)
  /\ length (_band_indices self') = length (all_bands kw)
  /\ length (_dxs self') = length (all_bands kw)
  /\ (forall k bi, _band_indices self' !! k = Some bi ->
        exists grid w0 w1,
          samplewavelengths kw !! bi = Some grid
          /\ grid !! 0%nat = Some w0 /\ grid !! 1%nat = Some w1)
  /\ (forall li, (li < length (luminosities kw))%nat ->
        exists bi, _band_indices self' !! li = Some bi
          /\ (bi < length (all_bands kw))%nat
          /\ (bi < length (_band_offsets self))%nat).
Proof.
  intros Hrun.
  apply process_Ok_inv in Hrun
    as (indices & sp & effs & offs & Hidx & -> & Hlen & Hsp & Hflux & ->).
  apply map_res_length in Hidx.
  assert (Hstep : forall li, (li < length (luminosities kw))%nat ->
            exists bi, indices !! li = Some bi
              /\ (bi < length sp)%nat
              /\ (bi < length (_band_offsets self))%nat
              /\ (li < length (seds kw))%nat).
  { intros li Hli.
    destruct (flux_loop_steps _ _ _ _ _ Hflux li) as [x Hx].
    { apply in_seq. lia. }
    unfold flux_step in Hx. simpl in Hx.
    apply bind_Ok in Hx as (bi & Hbi & Hx).
    apply bind_Ok in Hx as (off & Hoff & Hx).
    apply bind_Ok in Hx as (wavs & _ & Hx).
    apply bind_Ok in Hx as (xp & _ & Hx).
    apply bind_Ok in Hx as (fp & _ & Hx).
    apply bind_Ok in Hx as (itrans & _ & Hx).
    apply bind_Ok in Hx as (sed & Hsed & Hx).
    apply bind_Ok in Hx as (dx & Hdx & Hx).
    apply index_Ok in Hbi, Hoff, Hsed, Hdx.
    exists bi. split; [exact Hbi|].
    apply lookup_lt_Some in Hoff, Hsed, Hdx. auto. }
  assert (Hle : (length (luminosities kw) <= length indices)%nat).
  { destruct (luminosities kw) as [|l0 ls] eqn:Hl; [simpl; lia|].
    destruct (Hstep (length ls)) as (bi & Hbi & _); [simpl; lia|].
    apply lookup_lt_Some in Hbi. simpl. lia. }
  assert (Hle' : (length (luminosities kw) <= length (seds kw))%nat).
  { destruct (luminosities kw) as [|l0 ls] eqn:Hl; [simpl; lia|].
    destruct (Hstep (length ls)) as (bi & _ & _ & _ & Hs); [simpl; lia|].
    simpl. lia. }
  apply flux_loop_lengths in Hflux as [L1 L2]. simpl in L1, L2.
  rewrite length_seq in L1, L2. simpl.
  split; [lia|]. split; [exact Hle'|]. split.
  { unfold abmag. rewrite length_zip_with. lia. }
  split; [exact Hidx|]. split; [lia|]. split.
  - intros k bi Hk. destruct (Hsp k bi Hk) as (g & w1 & w0 & H1 & H2 & H3 & _).
    exists g, w0, w1. auto.
  - intros li Hli. destruct (Hstep li Hli) as (bi & Hbi & H1 & H2 & _).
    exists bi. split; [exact Hbi|]. split; [lia|exact H2].
Qed.

(** X6.  Where [np.log10] is increasing on the positive numbers, a
    greater positive flux gets a smaller magnitude, everything else being
    equal. *)
Theorem abmag_decreases_with_flux (self : Filters) (F1 F2 offset : Q) :
  (forall x y, 0 < x -> x < y -> log10 x < log10 y) ->
  0 < F1 -> F1 < F2 ->
  exists m1 m2,
    abmag log10 AB_OFFSET self [F1] [offset] = [Fin m1]
    /\ abmag log10 AB_OFFSET self [F2] [offset] = [Fin m2]
    /\ m2 < m1.
Proof.
  intros Hmono H1 H12.
  assert (H2 : 0 < F2) by (apply Qlt_trans with F1; assumption).
  assert (Hz : forall F, 0 < F -> Qeq_bool F 0 = false).
  { intros F HF. destruct (Qeq_bool F 0) eqn:Hq; [|reflexivity].
    apply Qeq_bool_iff in Hq. rewrite Hq in HF. discriminate. }
  do 2 eexists. unfold abmag. simpl. rewrite (Hz F1 H1), (Hz F2 H2).
  split; [reflexivity|]. split; [reflexivity|].
  specialize (Hmono F1 F2 H1 H12). unfold MAG_FAC. lra.
Qed.

End ProcessOutcomes.

(** ** The curve [__init__] stores for a band *)

Lemma lookup_column (k : nat) (rows : list (list Q)) :
  Forall (fun r => (k < length r)%nat) rows ->
  forall j, omap (fun r : list Q => r !! k) rows !! j
            = rows !! j ≫= (fun r => r !! k).
Proof.
  induction 1 as [|r rows Hr _ IH]; intros j; [reflexivity|].
  change (omap (fun r0 : list Q => r0 !! k) (r :: rows))
    with (match r !! k with
          | Some y => y :: omap (fun r0 : list Q => r0 !! k) rows
          | None => omap (fun r0 : list Q => r0 !! k) rows
          end).
  destruct (lookup_lt_is_Some_2 r k Hr) as [y Hy]. rewrite Hy.
  destruct j as [|j]; simpl; [symmetry; exact Hy|apply IH].
Qed.

(** The two columns unpacked from the rows: every row has two entries at
    least, and the columns are made of the first and of the second entry
    of each row, in order. *)
Lemma unpack2_zip_star_columns (rows : list (list Q)) (w t : list Q) :
  unpack2 (zip_star rows) = Ok (w, t) ->
  Forall (fun r => (2 <= length r)%nat) rows
  /\ forall j, w !! j = rows !! j ≫= (fun r => r !! 0%nat)
            /\ t !! j = rows !! j ≫= (fun r => r !! 1%nat).
Proof.
  unfold zip_star. pose proof (min_len_le rows) as Hall.
  destruct (min_len rows) as [|[|[|n]]] eqn:Hn; simpl; try discriminate.
  intros H. injection H as <- <-. split; [exact Hall|].
  intros j. split; apply lookup_column;
    (eapply Forall_impl; [exact Hall|]); intros r Hr; simpl in Hr; lia.
Qed.

Section Curves.

Variable log10 : Q -> Q.
Variable src : sources.

(** Where the rows of a band come from: for a catalogue band, the table
    of the document of its native system, the documents of the AB system
    and of the native system both being there; for any other band, the
    file named by its [path]. *)
Lemma load_curve_source (b : band) (rows : list (list Q)) (zps : list Q) :
  load_curve log10 src b = Ok (rows, zps) ->
  exists table,
    rows = map (take 2) table
    /\ match b_SVO b with
       | Some svo =>
           exists native ab_doc native_doc,
             last (split "/" svo) = Some native
             /\ svo_xml src (svo_path svo "AB") = Some ab_doc
             /\ svo_xml src (svo_path svo native) = Some native_doc
             /\ table = first_table native_doc
       | None =>
           exists path,
             b_path b = Some path /\ filter_file src path = Some table
       end.
Proof.
  unfold load_curve. destruct (b_SVO b) as [svo|].
  - intros H. apply bind_Ok in H as (native & Hnative & H).
    apply index_last_Ok in Hnative.
    apply bind_Ok in H as ([[fl zps'] tab] & Hloop & H).
    injection H as <- <-. exists tab. split; [reflexivity|].
    exists native. cbn [existsb orb] in Hloop.
    destruct (String.eqb_spec native "AB") as [->|Hne]; cbn [orb] in Hloop.
    + cbn [svo_loop] in Hloop. fold (svo_path svo "AB") in Hloop.
      destruct (svo_xml src (svo_path svo "AB")) as [doc|] eqn:Hdoc;
        [|discriminate].
      apply bind_Ok in Hloop as (st' & _ & Hloop). injection Hloop as _ <-.
      exists doc, doc. auto.
    + cbn [svo_loop] in Hloop.
      fold (svo_path svo "AB") in Hloop. fold (svo_path svo native) in Hloop.
      destruct (svo_xml src (svo_path svo "AB")) as [doc|] eqn:Hdoc;
        [|discriminate].
      apply bind_Ok in Hloop as (st' & _ & Hloop).
      destruct (svo_xml src (svo_path svo native)) as [ndoc|] eqn:Hndoc;
        [|discriminate].
      apply bind_Ok in Hloop as (st'' & _ & Hloop). injection Hloop as _ <-.
      exists doc, ndoc. auto.
  - intros H. apply bind_Ok in H as (path & Hpath & H).
    unfold getitem in Hpath. destruct (b_path b) as [p|]; [|discriminate].
    injection Hpath as ->.
    destruct (filter_file src path) as [table|] eqn:Hf; [|discriminate].
    injection H as <- <-. exists table. split; [reflexivity|]. eauto.
Qed.

(** X7.  [__init__] succeeds only when the curve of every band of the
    registry could be read: for a band with an [SVO] identifier the
    catalogue documents of the AB system and of the band's native system
    are both at hand, and the curve is the table of the native one; for
    any other band the file named by [path] is there.  The table has at
    least one row, every row has at least two entries, and the stored
    wavelengths and transmissions are the first and the second entry of
    each row, in the order of the rows. *)
Theorem init_stores_the_first_two_columns (filterrules : list rule)
  (bands : list string) (st : Filters) (i : nat) (b : band) :
  init log10 src filterrules bands = Ok st ->
  _unique_bands st !! i = Some b ->
  exists table w t,
    match b_SVO b with
    | Some svo =>
        exists native ab_doc native_doc,
          last (split "/" svo) = Some native
          /\ svo_xml src (svo_path svo "AB") = Some ab_doc
          /\ svo_xml src (svo_path svo native) = Some native_doc
          /\ table = first_table native_doc
    | None =>
        exists path,
          b_path b = Some path /\ filter_file src path = Some table
    end
    /\ table <> []
    /\ Forall (fun r => (2 <= length r)%nat) table
    /\ _band_wavelengths st !! i = Some w
    /\ _transmissions st !! i = Some t
    /\ length w = length table /\ length t = length table
    /\ forall j r, table !! j = Some r ->
         w !! j = r !! 0%nat /\ t !! j = r !! 1%nat.
Proof.
  intros Hinit Hb.
  destruct (init_inv log10 src _ _ _ Hinit) as (_ & _ & Hload).
  destruct (Hload i b Hb)
    as (w & t & zps & rows & lo & hi & Hcurve & Hcols & _ & _ & Hent).
  unfold entry in Hent. injection Hent as Hw Ht _ _ _ _.
  apply load_curve_source in Hcurve as (table & -> & Hsrc).
  pose proof (unpack2_zip_star_columns _ _ _ Hcols) as [Hall Hcol].
  apply unpack2_zip_star in Hcols as (Lw & Lt & Hne).
  rewrite length_map in Lw, Lt.
  exists table, w, t. split; [exact Hsrc|]. split.
  { intros ->. apply Hne. reflexivity. }
  split.
  { apply Forall_forall. intros r Hr.
    rewrite Forall_forall in Hall.
    assert (Hin : take 2 r ∈ map (take 2) table).
    { apply list_elem_of_In, in_map, list_elem_of_In. exact Hr. }
    specialize (Hall _ Hin). rewrite length_take in Hall. lia. }
  repeat split; auto.
  - destruct (Hcol j) as [H0 _]. rewrite H0, lookup_map, H. simpl.
    apply lookup_take_lt. lia.
  - destruct (Hcol j) as [_ H1]. rewrite H1, lookup_map, H. simpl.
    apply lookup_take_lt. lia.
Qed.

End Curves.

(** ** The TDE photosphere: no accretion, and the shape of the output *)

Lemma count_nonpositive_all (l : list Q) :
  Forall (fun L => L <= 0) l ->
  TdePhotosphere.count_nonpositive l = length l.
Proof.
  unfold TdePhotosphere.count_nonpositive.
  induction 1 as [|x l Hx _ IH]; [reflexivity|].
  rewrite filter_cons. apply Qle_bool_iff in Hx.
  destruct (decide (Qle_bool x 0 = true)); [|contradiction].
  simpl. congruence.
Qed.

Lemma broadcast2_length {X Y A : Type} (f : X -> Y -> A) (a : list X)
  (b : list Y) (c : list A) :
  length a = length b ->
  TdePhotosphere.broadcast2 f a b = Ok c ->
  length c = length a
  /\ forall k x y, a !! k = Some x -> b !! k = Some y ->
       c !! k = Some (f x y).
Proof.
  intros Hlen H. rewrite broadcast2_same_length in H by assumption.
  injection H as <-. split.
  - rewrite length_zip_with. lia.
  - intros k x y Hx Hy. rewrite lookup_zip_with, Hx, Hy. reflexivity.
Qed.

Section TdeOutputs.

Variable pow : Q -> Q -> Q.
Variables pi G sigma_sb DAY_CGS M_SUN_CGS C_CGS : Q.

Local Abbreviation process :=
  (TdePhotosphere.process pow pi G sigma_sb DAY_CGS M_SUN_CGS C_CGS).
Local Abbreviation r_isco := (TdePhotosphere.r_isco G M_SUN_CGS C_CGS).

(** X8.  With as many times as luminosities and no positive luminosity,
    [process] raises [ValueError] on an empty input (from [np.argmax])
    and otherwise returns the radius [1 * rphotmin] and the temperature
    [0] at every time. *)
Theorem no_accretion_gives_minimum_radius (kw : TdePhotosphere.inputs) :
  length (TdePhotosphere.rest_times kw)
  = length (TdePhotosphere.luminosities kw) ->
  Forall (fun L => L <= 0) (TdePhotosphere.luminosities kw) ->
  match TdePhotosphere.luminosities kw with
  | [] => process kw = Raise ValueError
  | _ :: _ =>
      process kw
      = Ok {| TdePhotosphere.radiusphot :=
                map (fun one =>
                       TdePhotosphere.Num
                         (one * r_isco (TdePhotosphere.bhmass kw)))
                    (replicate (length (TdePhotosphere.luminosities kw)) 1);
              TdePhotosphere.temperaturephot :=
                replicate (length (TdePhotosphere.luminosities kw))
                          (TdePhotosphere.Num 0) |}
  end.
Proof.
  intros Hlen Hall. unfold TdePhotosphere.process.
  pose proof (count_nonpositive_all _ Hall) as Hcount.
  destruct (TdePhotosphere.luminosities kw) as [|L ls] eqn:Hl;
    [reflexivity|].
  destruct (TdePhotosphere.np_argmax (L :: ls)) as [imax|e] eqn:Himax;
    [|discriminate].
  pose proof (np_argmax_lt _ _ Himax) as Hlt.
  destruct (lookup_lt_is_Some_2 (TdePhotosphere.rest_times kw) imax)
    as [tpeak Htpeak]; [lia|].
  cbn [bind]. unfold index. rewrite Htpeak. cbn [bind].
  rewrite Hcount, Nat.eqb_refl. reflexivity.
Qed.

(** X9.  Whenever [process] returns, it returns one radius and one
    temperature per luminosity; and unless every luminosity is at most
    zero, each temperature is [(L / (r ** 2 * STEF_CONST)) ** 0.25] for
    the luminosity [L] and the returned radius [r] of the same index,
    with NumPy's [**]: a [nan] where [r] is one or where the quotient is
    negative. *)
Theorem outputs_aligned_with_luminosities (kw : TdePhotosphere.inputs)
  (out : TdePhotosphere.outputs) :
  process kw = Ok out ->
  let lums := TdePhotosphere.luminosities kw in
  length (TdePhotosphere.radiusphot out) = length lums
  /\ length (TdePhotosphere.temperaturephot out) = length lums
  /\ (TdePhotosphere.count_nonpositive lums <> length lums ->
      forall k L r,
        lums !! k = Some L ->
        TdePhotosphere.radiusphot out !! k = Some r ->
        TdePhotosphere.temperaturephot out !! k
        = Some (TdePhotosphere.np_pow pow
                  (TdePhotosphere.nf_map
                     (fun r' =>
                        L / (r' ^ 2 * TdePhotosphere.STEF_CONST pi sigma_sb))
                     r)
                  0.25)).
Proof.
  intros H lums. unfold TdePhotosphere.process in H. fold lums in H.
  apply bind_Ok in H as (imax & _ & H).
  apply bind_Ok in H as (tpeak & _ & H).
  destruct (Nat.eqb_spec (TdePhotosphere.count_nonpositive lums)
              (length lums)) as [Heq|Hne].
  - injection H as <-. cbn [TdePhotosphere.radiusphot
                             TdePhotosphere.temperaturephot].
    rewrite length_map, !length_replicate.
    split; [reflexivity|]. split; [reflexivity|]. intros Hc. contradiction.
  - apply bind_Ok in H as (t0 & _ & H).
    apply bind_Ok in H as (dropped & _ & H).
    apply bind_Ok in H as (Tphot & HT & H). injection H as <-.
    cbn [TdePhotosphere.radiusphot TdePhotosphere.temperaturephot].
    pose proof (count_nonpositive_le lums) as Hle.
    match type of HT with
    | TdePhotosphere.broadcast2 _ _ ?r = _ =>
        assert (Hlen : length r = length lums)
    end.
    { unfold TdePhotosphere.clamp_below.
      rewrite length_app, !length_map, length_replicate, length_drop. lia. }
    apply broadcast2_length in HT as [HTlen HTk]; [|congruence].
    split; [exact Hlen|]. split; [exact HTlen|].
    intros _ k L r HL Hr. apply (HTk k L r HL Hr).
Qed.

End TdeOutputs.

(** ** The temperature floor *)

Section Floor.

Variable pow : Q -> Q -> Q.
Variable sqrt : Q -> Q.
Variables FOUR_PI sigma_sb KM_CGS DAY_CGS : Q.

Local Abbreviation process :=
  (TemperatureFloor.process pow sqrt FOUR_PI sigma_sb KM_CGS DAY_CGS).
Local Abbreviation floor_step :=
  (TemperatureFloor.floor_step pow sqrt FOUR_PI sigma_sb KM_CGS DAY_CGS).
Local Abbreviation floor_loop :=
  (TemperatureFloor.floor_loop pow sqrt FOUR_PI sigma_sb KM_CGS DAY_CGS).
Local Abbreviation STEF_CONST :=
  (TemperatureFloor.STEF_CONST FOUR_PI sigma_sb).
Local Abbreviation RAD_CONST := (TemperatureFloor.RAD_CONST KM_CGS DAY_CGS).

(** The loop, turn by turn: it appends to what had been accumulated the
    outcome of the step at each index. *)
Lemma floor_loop_inv (kw : TemperatureFloor.inputs) (lums : list Q) :
  forall li acc r,
  floor_loop kw li lums acc = Ok r ->
  exists xs,
    r.1 = acc.1 ++ map fst xs /\ r.2 = acc.2 ++ map snd xs
    /\ length xs = length lums
    /\ forall k lum, lums !! k = Some lum ->
         exists x, xs !! k = Some x /\ floor_step kw (li + k) lum = Ok x.
Proof.
  induction lums as [|lum lums IH]; intros li acc r H; simpl in H.
  - injection H as <-. exists []. simpl. rewrite !app_nil_r.
    repeat split; auto. intros k lum Hk. destruct k; discriminate.
  - apply bind_Ok in H as (x & Hx & H).
    destruct (IH _ _ _ H) as (xs & H1 & H2 & Hlen & Hk). simpl in H1, H2.
    exists (x :: xs). simpl. rewrite H1, H2, <- !app_assoc. simpl.
    repeat split; auto.
    intros [|k] lum' Hlk; simpl in Hlk.
    + injection Hlk as <-. exists x. rewrite Nat.add_0_r. auto.
    + destruct (Hk k lum' Hlk) as (y & Hy & Hs). exists y.
      replace (li + S k)%nat with (S li + k)%nat by lia. auto.
Qed.

Lemma floor_loop_total (kw : TemperatureFloor.inputs) (lums : list Q) :
  forall li acc,
  (forall k lum, lums !! k = Some lum ->
     exists x, floor_step kw (li + k) lum = Ok x) ->
  exists r, floor_loop kw li lums acc = Ok r.
Proof.
  induction lums as [|lum lums IH]; intros li acc H; simpl; [eauto|].
  destruct (H 0%nat lum eq_refl) as [x Hx]. rewrite Nat.add_0_r in Hx.
  rewrite Hx. simpl. apply IH. intros k lum' Hk.
  replace (S li + k)%nat with (li + S k)%nat by lia. apply H. exact Hk.
Qed.

Lemma floor_loop_raise (kw : TemperatureFloor.inputs) (lums : list Q) :
  forall li acc k lum e,
  lums !! k = Some lum ->
  floor_step kw (li + k) lum = Raise e ->
  (forall j lum', (j < k)%nat -> lums !! j = Some lum' ->
     exists x, floor_step kw (li + j) lum' = Ok x) ->
  floor_loop kw li lums acc = Raise e.
Proof.
  induction lums as [|l0 lums IH]; intros li acc k lum e Hk Hraise Hbefore;
    [destruct k; discriminate|].
  simpl. destruct k as [|k]; simpl in Hk.
  - injection Hk as ->. rewrite Nat.add_0_r in Hraise. rewrite Hraise.
    reflexivity.
  - destruct (Hbefore 0%nat l0) as [x Hx]; [lia|reflexivity|].
    rewrite Nat.add_0_r in Hx. rewrite Hx. simpl.
    apply (IH (S li) _ k lum e Hk).
    + replace (S li + k)%nat with (li + S k)%nat by lia. exact Hraise.
    + intros j lum' Hj Hl.
      replace (S li + j)%nat with (li + S j)%nat by lia.
      apply (Hbefore (S j) lum'); [lia|exact Hl].
Qed.

(** A step succeeds exactly at the indices that have a time. *)
Lemma floor_step_Ok (kw : TemperatureFloor.inputs) (li : nat) (lum L t : Q) :
  TemperatureFloor.luminosities kw !! li = Some L ->
  TemperatureFloor.rest_times kw !! li = Some t ->
  let radius2 :=
    (RAD_CONST * TemperatureFloor.vejecta kw
     * (t - TemperatureFloor.resttexplosion kw)) ^ 2 in
  let rec_radius2 :=
    L / (STEF_CONST * TemperatureFloor.temperature kw ^ 4) in
  floor_step kw li lum
  = Ok (if Qlt_bool radius2 rec_radius2
        then (sqrt radius2, pow (lum / (STEF_CONST * radius2)) 0.25)
        else (sqrt rec_radius2, TemperatureFloor.temperature kw)).
Proof.
  intros HL Ht radius2 rec_radius2. unfold TemperatureFloor.floor_step, index,
    TemperatureFloor.radius2_list, TemperatureFloor.rec_radius2_list.
  rewrite !lookup_map, HL, Ht. cbn [option_map bind].
  fold radius2 rec_radius2. destruct (Qlt_bool radius2 rec_radius2);
    reflexivity.
Qed.

Lemma floor_step_no_time (kw : TemperatureFloor.inputs) (li : nat)
  (lum : Q) :
  TemperatureFloor.rest_times kw !! li = None ->
  floor_step kw li lum = Raise IndexError.
Proof.
  intros Ht. unfold TemperatureFloor.floor_step, index,
    TemperatureFloor.radius2_list.
  rewrite lookup_map, Ht. reflexivity.
Qed.

(** X10.  With a time for every luminosity (supernumerary times are
    ignored), [process] returns one radius and one temperature per
    luminosity. *)
Theorem floor_process_returns (kw : TemperatureFloor.inputs) :
  (length (TemperatureFloor.luminosities kw)
   <= length (TemperatureFloor.rest_times kw))%nat ->
  exists out,
    process kw = Ok out
    /\ length (TemperatureFloor.radiusphot out)
       = length (TemperatureFloor.luminosities kw)
    /\ length (TemperatureFloor.temperaturephot out)
       = length (TemperatureFloor.luminosities kw).
Proof.
  intros Hlen. unfold TemperatureFloor.process.
  destruct (floor_loop_total kw (TemperatureFloor.luminosities kw) 0%nat
              ([], [])) as [r Hr].
  { intros k lum Hk. simpl.
    destruct (lookup_lt_is_Some_2 (TemperatureFloor.rest_times kw) k)
      as [t Ht]; [apply lookup_lt_Some in Hk; lia|].
    rewrite (floor_step_Ok kw k lum lum t Hk Ht). eauto. }
  rewrite Hr. cbn [bind]. eexists. split; [reflexivity|].
  apply floor_loop_inv in Hr as (xs & H1 & H2 & Hl & _).
  simpl in H1, H2. cbn [TemperatureFloor.radiusphot
                        TemperatureFloor.temperaturephot].
  rewrite H1, H2, !length_map. auto.
Qed.

(** X11.  With fewer times than luminosities, [process] raises
    [IndexError]: the loop runs over the luminosities and reads
    [self._radius2], which has one element per time, at each index. *)
Theorem floor_process_too_few_times (kw : TemperatureFloor.inputs) :
  (length (TemperatureFloor.rest_times kw)
   < length (TemperatureFloor.luminosities kw))%nat ->
  process kw = Raise IndexError.
Proof.
  intros Hlen. unfold TemperatureFloor.process.
  destruct (lookup_lt_is_Some_2 (TemperatureFloor.luminosities kw)
              (length (TemperatureFloor.rest_times kw)) Hlen) as [lum Hlum].
  rewrite (floor_loop_raise kw _ 0%nat ([], [])
             (length (TemperatureFloor.rest_times kw)) lum IndexError Hlum);
    [reflexivity| |].
  - apply floor_step_no_time. apply lookup_ge_None. simpl. lia.
  - intros j lum' Hj Hl. simpl.
    destruct (lookup_lt_is_Some_2 (TemperatureFloor.rest_times kw) j)
      as [t Ht]; [lia|].
    rewrite (floor_step_Ok kw j lum' lum' t Hl Ht). eauto.
Qed.

(** X12.  Whenever [process] returns and [STEF_CONST * temperature ** 4]
    is not zero, at every index the radius is the
    square root of the smaller of the squared expansion radius
    [(RAD_CONST * vejecta * (t - texplosion)) ** 2] and the squared
    radius [L / (STEF_CONST * temperature ** 4)] at which the photosphere
    is at the floor temperature; the temperature is the floor temperature
    unless the expansion radius is strictly the smaller, in which case it
    is [(L / (STEF_CONST * radius2)) ** 0.25]. *)
Theorem floor_radius_is_the_smaller (kw : TemperatureFloor.inputs)
  (out : TemperatureFloor.outputs) (k : nat) (L t : Q) :
  process kw = Ok out ->
  ~ STEF_CONST * TemperatureFloor.temperature kw ^ 4 == 0 ->
  TemperatureFloor.luminosities kw !! k = Some L ->
  TemperatureFloor.rest_times kw !! k = Some t ->
  let radius2 :=
    (RAD_CONST * TemperatureFloor.vejecta kw
     * (t - TemperatureFloor.resttexplosion kw)) ^ 2 in
  let rec_radius2 :=
    L / (STEF_CONST * TemperatureFloor.temperature kw ^ 4) in
  exists r2,
    TemperatureFloor.radiusphot out !! k = Some (sqrt r2)
    /\ r2 <= radius2 /\ r2 <= rec_radius2
    /\ ((radius2 < rec_radius2 /\ r2 = radius2
         /\ TemperatureFloor.temperaturephot out !! k
            = Some (pow (L / (STEF_CONST * radius2)) 0.25))
        \/ (rec_radius2 <= radius2 /\ r2 = rec_radius2
            /\ TemperatureFloor.temperaturephot out !! k
               = Some (TemperatureFloor.temperature kw))).
Proof.
  intros H _ HL Ht radius2 rec_radius2. unfold TemperatureFloor.process in H.
  apply bind_Ok in H as (r & Hr & H). injection H as <-.
  apply floor_loop_inv in Hr as (xs & H1 & H2 & _ & Hk).
  simpl in H1, H2. cbn [TemperatureFloor.radiusphot
                        TemperatureFloor.temperaturephot].
  destruct (Hk k L HL) as (x & Hx & Hstep). cbn [Nat.add] in Hstep.
  rewrite (floor_step_Ok kw k L L t HL Ht) in Hstep. cbv zeta in Hstep.
  fold radius2 rec_radius2 in Hstep. injection Hstep as <-.
  rewrite H1, H2, !lookup_map, Hx.
  destruct (Qlt_bool radius2 rec_radius2) eqn:Hlt; simpl.
  - apply Qlt_bool_iff in Hlt. exists radius2.
    split; [reflexivity|]. split; [apply Qle_refl|].
    split; [apply Qlt_le_weak; exact Hlt|]. left. auto.
  - apply Qlt_bool_false in Hlt. exists rec_radius2.
    split; [reflexivity|]. split; [exact Hlt|].
    split; [apply Qle_refl|]. right. auto.
Qed.

End Floor.

(** ** The contents of the registry *)

Lemma dict_get_alter {V : Type} (f : V -> V) (d : list (string * V))
  (k k' : string) :
  dict_get (dict_alter f d k) k'
  = if String.eqb k k' then option_map f (dict_get d k') else dict_get d k'.
Proof.
  induction d as [|[k0 v] d IH]; simpl.
  - destruct (String.eqb k k'); reflexivity.
  - destruct (String.eqb_spec k k0) as [->|Hk]; simpl.
    + destruct (String.eqb_spec k' k0) as [->|Hk'].
      * rewrite String.eqb_refl. reflexivity.
      * destruct (String.eqb_spec k0 k') as [Heq|_]; [congruence|reflexivity].
    + destruct (String.eqb_spec k' k0) as [->|Hk'].
      * destruct (String.eqb_spec k k0) as [Heq|_]; [congruence|reflexivity].
      * exact IH.
Qed.

(** Writing through a reference changes what that reference reads, and
    nothing else. *)
Lemma deref_store_alter (f : band -> band) (tbl : list rule) (r r' : ref) :
  deref (store_alter f tbl r) r'
  = if decide (r' = r) then res_map f (deref tbl r') else deref tbl r'.
Proof.
  destruct r as [ri k], r' as [ri' k']. unfold store_alter, deref, res_map.
  simpl. destruct (tbl !! ri) as [rl|] eqn:Hri.
  - unfold index. destruct (decide (ri' = ri)) as [->|Hne].
    + rewrite list_lookup_insert_eq by (apply lookup_lt_Some in Hri; exact Hri).
      rewrite Hri. simpl. destruct (r_filters rl) as [d|]; simpl.
      * rewrite dict_get_alter.
        destruct (String.eqb_spec k k') as [->|Hk].
        -- rewrite decide_True by reflexivity.
           destruct (dict_get d k'); reflexivity.
        -- rewrite decide_False by congruence. reflexivity.
      * destruct (decide _); reflexivity.
    + rewrite list_lookup_insert_ne by congruence.
      rewrite decide_False by congruence. reflexivity.
  - destruct (decide _) as [Heq|]; [|reflexivity].
    injection Heq as -> ->. unfold index. rewrite Hri. reflexivity.
Qed.

Lemma res_map_set_perm (bnd : string) (p q : string * string * string)
  (m : res band) :
  res_map (set_perm bnd q) (res_map (set_perm bnd p) m)
  = res_map (set_perm bnd q) m.
Proof. destruct m; reflexivity. Qed.

(** The turns of the innermost loop on one dictionary leave it with the
    last combination. *)
Lemma emit_perms_store (ri : nat) (bnd : string)
  (perms : list (string * string * string)) (r' : ref) :
  forall s,
  deref (emit_perms ri bnd perms s).1 r'
  = match last perms with
    | Some p =>
        if decide (r' = (ri, bnd)) then res_map (set_perm bnd p) (deref s.1 r')
        else deref s.1 r'
    | None => deref s.1 r'
    end.
Proof.
  induction perms as [|p perms IH]; intros s; [reflexivity|].
  cbn [emit_perms]. rewrite IH. cbn [fst]. rewrite deref_store_alter.
  destruct perms as [|q perms].
  - reflexivity.
  - rewrite last_cons_cons. destruct (last (q :: perms)) as [p'|] eqn:Hl.
    + destruct (decide (r' = (ri, bnd))); [|reflexivity].
      apply res_map_set_perm.
    + apply last_None in Hl. discriminate.
Qed.

Section RegistryContents.

Variable filterrules : list rule.

Lemma emit_perms_inv (ri : nat) (bnd : string) (rl : rule)
  (s : build_state) :
  filterrules !! ri = Some rl ->
  store_inv filterrules s ->
  store_inv filterrules (emit_perms ri bnd (sysinstperms rl) s).
Proof.
  intros Hrl Hinv r'. rewrite emit_perms_store, emit_perms_refs.
  destruct (Hinv r') as [Hin Hout].
  destruct (last (sysinstperms rl)) as [p|] eqn:Hlast.
  - destruct (decide (r' = (ri, bnd))) as [->|Hne].
    + assert (Hfinal : res_map (set_perm bnd p) (deref filterrules (ri, bnd))
                       = entry_of filterrules (ri, bnd)).
      { unfold entry_of, index, index_last. cbn [fst snd].
        rewrite Hrl. cbn [bind]. rewrite Hlast.
        destruct (deref filterrules (ri, bnd)); reflexivity. }
      split.
      * intros _. destruct (decide ((ri, bnd) ∈ s.2)) as [Hm|Hm].
        -- rewrite (Hin Hm), <- Hfinal. apply res_map_set_perm.
        -- rewrite (Hout Hm). exact Hfinal.
      * intros Hnot. exfalso. apply Hnot. apply elem_of_app. right.
        destruct (sysinstperms rl) as [|p0 ps]; [discriminate|].
        simpl. left.
    + split.
      * intros Hm. apply Hin. apply elem_of_app in Hm as [Hm|Hm]; [exact Hm|].
        exfalso. apply list_elem_of_bind in Hm as (p0 & Hm & _).
        apply list_elem_of_singleton in Hm. contradiction.
      * intros Hm. apply Hout. intros Hm'. apply Hm.
        apply elem_of_app. left. exact Hm'.
  - apply last_None in Hlast. rewrite Hlast. simpl. rewrite app_nil_r.
    split; assumption.
Qed.

Lemma scan_filters_inv (band0 : string) (ri : nat) (rl : rule)
  (keys : list string) :
  filterrules !! ri = Some rl ->
  forall s,
  store_inv filterrules s ->
  store_inv filterrules (scan_filters band0 ri (sysinstperms rl) keys s).
Proof.
  intros Hrl. induction keys as [|bnd keys IH]; intros s Hinv; simpl;
    [exact Hinv|].
  apply IH. destruct (String.eqb band0 bnd || String.eqb band0 "");
    [apply emit_perms_inv; assumption|exact Hinv].
Qed.

Lemma scan_rules_inv (band0 : string) (rules : list rule) :
  forall ri s,
  (forall k rl, rules !! k = Some rl -> filterrules !! (ri + k)%nat = Some rl) ->
  store_inv filterrules s ->
  store_inv filterrules (scan_rules band0 ri rules s).
Proof.
  induction rules as [|rl rules IH]; intros ri s Hat Hinv; simpl;
    [exact Hinv|].
  apply IH.
  - intros k rl' Hk. replace (S ri + k)%nat with (ri + S k)%nat by lia.
    apply Hat. exact Hk.
  - apply scan_filters_inv; [|exact Hinv].
    specialize (Hat 0%nat rl eq_refl). rewrite Nat.add_0_r in Hat. exact Hat.
Qed.

Lemma scan_bands_inv (bands : list string) :
  forall s,
  store_inv filterrules s ->
  store_inv filterrules (scan_bands filterrules bands s).
Proof.
  induction bands as [|band0 bands IH]; intros s Hinv; simpl; [exact Hinv|].
  apply IH. apply scan_rules_inv; [|exact Hinv]. intros k rl Hk. exact Hk.
Qed.

Lemma map_res_ext_in {A B : Type} (f g : A -> res B) (l : list A) :
  (forall x, x ∈ l -> f x = g x) -> map_res f l = map_res g l.
Proof.
  induction l as [|a l IH]; intros H; [reflexivity|]. simpl.
  rewrite (H a) by left. rewrite IH; [reflexivity|].
  intros x Hx. apply H. right. exact Hx.
Qed.

(** The registry as a whole: the references appended to [band_list] are
    those of the cross product, in order, and what each of them reads
    once the loops are over is [entry_of] it. *)
Lemma build_band_list_entries (bands : list string) :
  build_band_list filterrules bands
  = map_res (entry_of filterrules) (refs_of_bands filterrules bands).
Proof.
  unfold build_band_list.
  pose proof (scan_bands_inv bands (filterrules, [])) as Hinv.
  assert (H0 : store_inv filterrules (filterrules, [])).
  { intros r. split; [intros H; inversion H|reflexivity]. }
  specialize (Hinv H0).
  rewrite (scan_bands_refs filterrules bands (filterrules, [])) in *.
  simpl "++" in *. apply map_res_ext_in. intros r Hr.
  destruct (Hinv r) as [Hin _]. apply Hin.
  rewrite scan_bands_refs. exact Hr.
Qed.

Lemma entry_of_Ok (r : ref) (e : band) :
  entry_of filterrules r = Ok e ->
  exists rl b0 perm,
    filterrules !! r.1 = Some rl
    /\ dict_get (get_filters rl) r.2 = Some b0
    /\ last (sysinstperms rl) = Some perm
    /\ e = set_perm r.2 perm b0.
Proof.
  unfold entry_of. intros H.
  apply bind_Ok in H as (rl & Hrl & H).
  apply bind_Ok in H as (b0 & Hb0 & H).
  apply bind_Ok in H as (perm & Hperm & H). injection H as <-.
  apply index_Ok in Hrl. apply index_last_Ok in Hperm.
  exists rl, b0, perm. split; [exact Hrl|]. split; [|auto].
  unfold deref, index in Hb0. rewrite Hrl in Hb0. cbn [bind] in Hb0.
  unfold get_filters. destruct (r_filters rl) as [d|]; [|discriminate].
  cbn [getitem bind default] in *. unfold id.
  destruct (dict_get d r.2); simpl in Hb0; [congruence|discriminate].
Qed.

(** X13.  The registry, entry by entry.  Whenever the registry loops
    succeed, there is one entry per reference of the cross product, in the
    order of the loops, and the entry at each position is the dictionary
    of its filter in the rule table (hence with the [SVO], [path] and
    [offset] of the rule table) with the filter's name and, as systems,
    instruments and bandsets, the last combination of its rule. *)
Theorem registry_is_last_combination_per_filter (bands : list string)
  (reg : list band) :
  build_band_list filterrules bands = Ok reg ->
  length reg = length (refs_of_bands filterrules bands)
  /\ forall i e, reg !! i = Some e ->
       exists ri bnd rl b0 perm,
         refs_of_bands filterrules bands !! i = Some (ri, bnd)
         /\ filterrules !! ri = Some rl
         /\ dict_get (get_filters rl) bnd = Some b0
         /\ last (sysinstperms rl) = Some perm
         /\ e = set_perm bnd perm b0.
Proof.
  rewrite build_band_list_entries. intros H.
  apply map_res_lookup in H as [Hlen Hlook]. split; [exact Hlen|].
  intros i e Hi.
  destruct (lookup_lt_is_Some_2 (refs_of_bands filterrules bands) i)
    as [[ri bnd] Hr]; [apply lookup_lt_Some in Hi; lia|].
  destruct (Hlook i _ Hr) as (e' & He' & Hi'). rewrite Hi in Hi'.
  injection Hi' as <-.
  destruct (entry_of_Ok _ _ He') as (rl & b0 & perm & H1 & H2 & H3 & H4).
  exists ri, bnd, rl, b0, perm. auto.
Qed.

End RegistryContents.

(** X16.  [band_names()] on an object built by [__init__] lists the
    filter names of the references of the cross product, in order: one
    name per requested band, rule, matching filter and combination of the
    rule. *)
Theorem band_names_follow_the_cross_product (log10 : Q -> Q)
  (src : sources) (filterrules : list rule) (bands : list string)
  (st : Filters) :
  init log10 src filterrules bands = Ok st ->
  band_names st = map snd (refs_of_bands filterrules bands).
Proof.
  intros Hinit.
  destruct (init_inv log10 src _ _ _ Hinit) as (Hbuild & Hwf & _).
  destruct Hwf as (_ & _ & _ & Hnames).
  rewrite build_band_list_entries in Hbuild.
  apply map_res_lookup in Hbuild as [Hlen Hlook].
  unfold band_names. apply list_eq. intros i.
  assert (H : map Some (_band_names st) !! i
              = map b_name (_unique_bands st) !! i) by (rewrite Hnames; auto).
  rewrite !lookup_map in *.
  destruct (refs_of_bands filterrules bands !! i) as [r|] eqn:Hr; simpl.
  - destruct (Hlook i r Hr) as (e & He & Hi). rewrite Hi in H. simpl in H.
    destruct (entry_of_Ok _ _ _ He) as (rl & b0 & perm & _ & _ & _ & ->).
    etransitivity; [|symmetry; exact (f_equal (option_map snd) Hr)].
    simpl in *. destruct (_band_names st !! i); simpl in H; congruence.
  - etransitivity; [|symmetry; exact (f_equal (option_map snd) Hr)].
    simpl. apply lookup_ge_None in Hr.
    destruct (_unique_bands st !! i) eqn:Hu;
      [apply lookup_lt_Some in Hu; lia|].
    simpl in H. destruct (_band_names st !! i); [discriminate|reflexivity].
Qed.

(** ** The effective flux when all grids have one spacing *)

Lemma flux_loop_inv (self : Filters) (kw : kwargs) (lis : list nat) :
  forall acc r,
  flux_loop self kw lis acc = Ok r ->
  exists xs,
    r.1 = acc.1 ++ map fst xs /\ r.2 = acc.2 ++ map snd xs
    /\ length xs = length lis
    /\ forall k li, lis !! k = Some li ->
         exists x, xs !! k = Some x /\ flux_step self kw li = Ok x.
Proof.
  induction lis as [|l lis IH]; intros acc r H; simpl in H.
  - injection H as <-. exists []. simpl. rewrite !app_nil_r.
    repeat split; auto. intros k li Hk. destruct k; discriminate.
  - apply bind_Ok in H as (x & Hx & H).
    destruct (IH _ _ H) as (xs & H1 & H2 & Hlen & Hk). simpl in H1, H2.
    exists (x :: xs). simpl. rewrite H1, H2, <- !app_assoc. simpl.
    repeat split; auto.
    intros [|k] li Hlk; simpl in Hlk.
    + injection Hlk as <-. exists x. auto.
    + apply Hk. exact Hlk.
Qed.

Lemma np_trapz_dx_compat (y : list Q) (dx dx' : Q) :
  dx == dx' -> np_trapz_dx y dx == np_trapz_dx y dx'.
Proof.
  intros Heq. unfold np_trapz_dx.
  induction (pair_sums y) as [|s l IH]; simpl; [reflexivity|].
  rewrite IH, Heq. reflexivity.
Qed.

Section UniformGrids.

Variable log10 : Q -> Q.
Variable AB_OFFSET : Q.
Variable FOUR_PI : Q.
Variable MPC_CGS : Q.

(** X14.  When all the sampling grids of a batch have the same spacing
    between their first two points, the effective flux [process] computes
    for an observation is the one obtained on the observation's own grid:
    the trapezoidal integral, with that grid's step, of the interpolated
    transmission times the SED, over the band's integral. *)
Theorem flux_on_own_grid_when_spacings_agree (self self' : Filters)
  (kw : kwargs) (mags : list mag) (effs offs : list Q) (li : nat) (F : Q) :
  process log10 AB_OFFSET FOUR_PI MPC_CGS self kw = (self', Ok mags) ->
  (forall j j' g g' a b a' b',
     samplewavelengths kw !! j = Some g ->
     g !! 0%nat = Some a -> g !! 1%nat = Some b ->
     samplewavelengths kw !! j' = Some g' ->
     g' !! 0%nat = Some a' -> g' !! 1%nat = Some b' ->
     b - a == b' - a') ->
  eff_fluxes_offsets self' kw = Ok (effs, offs) ->
  effs !! li = Some F ->
  exists bi wavs xp fp sed integral F',
    _band_indices self' !! li = Some bi
    /\ samplewavelengths kw !! bi = Some wavs
    /\ _band_wavelengths self !! bi = Some xp
    /\ _transmissions self !! bi = Some fp
    /\ seds kw !! li = Some sed
    /\ _filter_integrals self !! bi = Some integral
    /\ effective_flux_on_own_grid wavs xp fp sed integral = Ok F'
    /\ F == F'.
Proof.
  intros Hrun Hsame Hflux HF.
  apply process_Ok_inv in Hrun
    as (indices & sp & effs' & offs' & _ & -> & Hlen & Hsp & _ & _).
  unfold eff_fluxes_offsets in Hflux. cbn [_luminosities] in Hflux.
  apply flux_loop_inv in Hflux as (xs & H1 & _ & Hxs & Hk).
  cbn [fst app] in H1. subst effs. rewrite lookup_map in HF.
  destruct (xs !! li) as [x|] eqn:Hx; [|discriminate].
  injection HF as <-.
  assert (Hli : (li < length (luminosities kw))%nat).
  { apply lookup_lt_Some in Hx. rewrite Hxs, length_seq in Hx. exact Hx. }
  destruct (Hk li li) as (x' & Hx' & Hstep);
    [rewrite lookup_seq_lt by exact Hli; reflexivity|].
  rewrite Hx in Hx'. injection Hx' as <-.
  unfold flux_step in Hstep. cbn [_band_indices _band_offsets
    _band_wavelengths _transmissions _dxs _filter_integrals] in Hstep.
  apply bind_Ok in Hstep as (bi & Hbi & Hstep).
  apply bind_Ok in Hstep as (off & _ & Hstep).
  apply bind_Ok in Hstep as (wavs & Hwavs & Hstep).
  apply bind_Ok in Hstep as (xp & Hxp & Hstep).
  apply bind_Ok in Hstep as (fp & Hfp & Hstep).
  apply bind_Ok in Hstep as (itrans & Hitrans & Hstep).
  apply bind_Ok in Hstep as (sed & Hsed & Hstep).
  apply bind_Ok in Hstep as (dx & Hdx & Hstep).
  apply bind_Ok in Hstep as (integral & Hint & Hstep).
  injection Hstep as <-.
  apply index_Ok in Hbi, Hwavs, Hxp, Hfp, Hsed, Hdx, Hint.
  destruct (Hsp li bi Hbi) as (wavs0 & w1 & w0 & Hg & Hw1 & Hw0 & _).
  rewrite Hwavs in Hg. injection Hg as <-.
  destruct (lookup_lt_is_Some_2 indices bi) as [bj Hbj];
    [apply lookup_lt_Some in Hdx; lia|].
  destruct (Hsp bi bj Hbj) as (g' & w1' & w0' & Hg' & Hw1' & Hw0' & Hdx').
  rewrite Hdx in Hdx'. injection Hdx' as ->.
  exists bi, wavs, xp, fp, sed, integral,
    (np_trapz_dx (zip_with Qmult itrans sed) (w1 - w0) / integral).
  cbn [_band_indices fst].
  repeat (split; [assumption|]). split.
  - unfold effective_flux_on_own_grid. rewrite Hitrans. cbn [bind].
    unfold index. rewrite Hw1, Hw0. reflexivity.
  - rewrite (np_trapz_dx_compat _ (w1' - w0') (w1 - w0)); [reflexivity|].
    apply (Hsame bj bi g' wavs w0' w1' w0 w1); assumption.
Qed.

End UniformGrids.

(** ** When [process] returns *)

Lemma map_res_total {A B : Type} (f : A -> res B) (l : list A) :
  (forall x, In x l -> exists y, f x = Ok y) ->
  exists l', map_res f l = Ok l'.
Proof.
  induction l as [|a l IH]; intros H; simpl; [eauto|].
  destruct (H a (or_introl eq_refl)) as [y Hy]. rewrite Hy. simpl.
  destruct IH as [l' Hl']; [intros x Hx; apply H; right; exact Hx|].
  rewrite Hl'. simpl. eauto.
Qed.

Lemma dxs_loop_total (kw : kwargs) (indices : list nat) :
  forall self,
  (forall bi, In bi indices ->
     exists g w0 w1, samplewavelengths kw !! bi = Some g
       /\ g !! 0%nat = Some w0 /\ g !! 1%nat = Some w1) ->
  exists self1, dxs_loop kw indices self = (self1, Ok tt).
Proof.
  induction indices as [|bi indices IH]; intros self H; simpl; [eauto|].
  destruct (H bi (or_introl eq_refl)) as (g & w0 & w1 & Hg & H0 & H1).
  unfold index. rewrite Hg, H1, H0. apply IH.
  intros bj Hbj. apply H. right. exact Hbj.
Qed.

Lemma flux_loop_total (self : Filters) (kw : kwargs) (lis : list nat) :
  forall acc,
  (forall li, In li lis -> exists x, flux_step self kw li = Ok x) ->
  exists r, flux_loop self kw lis acc = Ok r.
Proof.
  induction lis as [|li lis IH]; intros acc H; simpl; [eauto|].
  destruct (H li (or_introl eq_refl)) as [x Hx]. rewrite Hx. simpl.
  apply IH. intros lj Hlj. apply H. right. exact Hlj.
Qed.

Lemma init_offsets_length (log10 : Q -> Q) (src : sources)
  (filterrules : list rule) (bands : list string) (st : Filters) :
  init log10 src filterrules bands = Ok st ->
  length (_band_offsets st) = length (_unique_bands st).
Proof.
  unfold init. intros H.
  apply bind_Ok in H as (band_list & _ & H).
  apply bind_Ok in H as (insts & _ & H). apply bind_Ok in H as (bsets & _ & H).
  apply bind_Ok in H as (systs & _ & H). apply bind_Ok in H as (names & _ & H).
  pose proof (init_loop_inv log10 src _ _ _ _ H) as (_ & _ & Hu & _).
  apply init_loop_layout in H. unfold layout in H. simpl in H, Hu.
  rewrite !length_replicate in H. injection H as _ _ _ _ _ _ H6. congruence.
Qed.

Section ProcessReturns.

Variable log10 : Q -> Q.
Variable AB_OFFSET : Q.
Variable FOUR_PI : Q.
Variable MPC_CGS : Q.
Variable src : sources.

(** X15.  On an object built by [__init__], [process] returns one
    magnitude per luminosity as soon as: every band name of the batch is
    the name of some entry of the registry; every band of the registry
    has a sampling grid of at least two points; there are at least as
    many band names and SEDs as luminosities; and there are at least as
    many band names as bands in the registry. *)
Theorem process_returns_if (filterrules : list rule) (bands : list string)
  (self : Filters) (kw : kwargs) :
  init log10 src filterrules bands = Ok self ->
  (forall name, In name (all_bands kw) ->
     exists k e, _unique_bands self !! k = Some e /\ b_name e = Some name) ->
  (forall bi, (bi < length (_unique_bands self))%nat ->
     exists g, samplewavelengths kw !! bi = Some g /\ (2 <= length g)%nat) ->
  (length (luminosities kw) <= length (all_bands kw))%nat ->
  (length (luminosities kw) <= length (seds kw))%nat ->
  (length (_unique_bands self) <= length (all_bands kw))%nat ->
  exists self' mags,
    process log10 AB_OFFSET FOUR_PI MPC_CGS self kw = (self', Ok mags)
    /\ length mags = length (luminosities kw).
Proof.
  intros Hinit Hnames Hgrids Hlums Hseds Hbands.
  pose proof (init_inv log10 src _ _ _ Hinit) as (_ & Hwf & Hload).
  assert (Hwf' : registry_wf (set_bands self (all_bands kw))) by exact Hwf.
  (* the band indices *)
  assert (Hfind : forall name, In name (all_bands kw) ->
            exists r, find_band_index (set_bands self (all_bands kw))
                        name "" "" "" = Ok r
                      /\ (r < length (_unique_bands self))%nat).
  { intros name Hin.
    pose proof (find_band_index_first (set_bands self (all_bands kw))
                  name "" "" "" Hwf') as H.
    destruct (find_band_index _ name "" "" "") as [r|e].
    - destruct H as (b & Hr & _). exists r. split; [reflexivity|].
      apply lookup_lt_Some in Hr. exact Hr.
    - exfalso. destruct H as [_ Hnone].
      destruct (Hnames name Hin) as (k & e0 & Hk & Hname).
      specialize (Hnone k e0 Hk).
      rewrite (some_tier_is_name _ _ _ _ _ k e0 Hwf' Hk) in Hnone.
      apply named_iff in Hname. congruence. }
  destruct (map_res_total
              (fun name => find_band_index (set_bands self (all_bands kw))
                             name "" "" "") (all_bands kw))
    as [indices Hidx].
  { intros name Hin. destruct (Hfind name Hin) as (r & Hr & _). eauto. }
  pose proof (map_res_lookup _ _ _ Hidx) as [Hlen Hlook].
  assert (Hin_range : forall k bi, indices !! k = Some bi ->
            (bi < length (_unique_bands self))%nat).
  { intros k bi Hk.
    destruct (lookup_lt_is_Some_2 (all_bands kw) k) as [name Hname];
      [apply lookup_lt_Some in Hk; lia|].
    destruct (Hlook k name Hname) as (y & Hy & Hk').
    rewrite Hk in Hk'. injection Hk' as <-.
    destruct (Hfind name) as (r & Hr & Hlt).
    { apply list_elem_of_In, list_elem_of_lookup. eauto. }
    congruence. }
  (* the spacings *)
  destruct (dxs_loop_total kw indices
              (set_dxs (set_band_indices
                          (set_bands self (all_bands kw)) indices) []))
    as [self1 Hloop].
  { intros bi Hbi. apply list_elem_of_In, list_elem_of_lookup in Hbi
      as [k Hk].
    destruct (Hgrids bi (Hin_range k bi Hk)) as (g & Hg & Hlen2).
    destruct (lookup_lt_is_Some_2 g 0) as [w0 Hw0]; [lia|].
    destruct (lookup_lt_is_Some_2 g 1) as [w1 Hw1]; [lia|].
    exists g, w0, w1. auto. }
  destruct (dxs_loop_only_dxs kw indices
              (set_dxs (set_band_indices
                          (set_bands self (all_bands kw)) indices) []))
    as [d Hd].
  rewrite Hloop in Hd. simpl in Hd. subst self1.
  pose proof (dxs_loop_dxs _ _ _ _ Hloop) as (sp & Hdx & Hsplen & _).
  simpl in Hdx. subst d.
  (* the slots of the registry *)
  pose proof (init_offsets_length _ _ _ _ _ Hinit) as Hslots.
  (* the flux loop *)
  unfold process.
  change (_bands (set_bands self (all_bands kw))) with (all_bands kw).
  rewrite Hidx.
  change (_band_indices
            (set_dxs (set_band_indices
                        (set_bands self (all_bands kw)) indices) []))
    with indices.
  rewrite Hloop.
  match goal with
  | |- context [eff_fluxes_offsets ?s kw] =>
      destruct (flux_loop_total s kw
                  (seq 0 (length (luminosities kw))) ([], []))
        as [r Hr]
  end.
  { intros li Hli. apply in_seq in Hli. unfold flux_step.
    cbn [_band_indices _band_offsets _band_wavelengths _transmissions
         _dxs _filter_integrals set_batch set_dist_const set_dxs
         set_band_indices set_bands].
    destruct (lookup_lt_is_Some_2 indices li) as [bi Hbi]; [lia|].
    pose proof (Hin_range li bi Hbi) as Hbi_lt.
    destruct (lookup_lt_is_Some_2 (_unique_bands self) bi Hbi_lt)
      as [b Hb].
    destruct (Hload bi b Hb)
      as (w & t & zps & rows & lo & hi & _ & Hcols & _ & _ & Hent).
    unfold entry in Hent. injection Hent as Hw Ht _ _ Hint Hoff.
    apply unpack2_zip_star in Hcols as (Lw & Lt & Hne).
    destruct (Hgrids bi Hbi_lt) as (g & Hg & _).
    destruct (lookup_lt_is_Some_2 (seds kw) li) as [sed Hsed]; [lia|].
    destruct (lookup_lt_is_Some_2 sp bi) as [dx Hdx]; [lia|].
    destruct (lookup_lt_is_Some_2 (_band_offsets self) bi) as [off Hoff'];
      [lia|].
    unfold index. rewrite Hbi. cbn [bind]. rewrite Hoff'. cbn [bind].
    rewrite Hg. cbn [bind]. rewrite Hw. cbn [bind]. rewrite Ht. cbn [bind].
    unfold np_interp. destruct w as [|w0 w]; [destruct rows; [congruence|discriminate]|].
    rewrite (proj2 (Nat.eqb_eq _ _)) by congruence. cbn [bind].
    rewrite Hsed. cbn [bind]. rewrite Hdx. cbn [bind]. rewrite Hint.
    cbn [bind]. eauto. }
  unfold eff_fluxes_offsets. cbn [_luminosities set_batch].
  rewrite Hr. do 2 eexists. split; [reflexivity|].
  apply flux_loop_lengths in Hr as [L1 L2]. simpl in L1, L2.
  rewrite length_seq in L1, L2. unfold abmag. rewrite length_zip_with. lia.
Qed.

End ProcessReturns.

(** ** When [__init__] returns *)

Lemma dict_get_key {V : Type} (d : list (string * V)) (k : string) :
  In k (map fst d) -> exists v, dict_get d k = Some v.
Proof.
  induction d as [|[k0 v] d IH]; intros Hin; [destruct Hin|]. simpl.
  destruct (String.eqb_spec k k0) as [_|Hne]; [eauto|].
  destruct Hin as [Heq|Hin]; [simpl in Heq; congruence|]. apply IH, Hin.
Qed.

Lemma refs_of_rules_elem (band0 : string) (rules : list rule) (r : ref) :
  forall ri,
  r ∈ refs_of_rules band0 ri rules ->
  exists k rl,
    rules !! k = Some rl /\ r.1 = (ri + k)%nat
    /\ In r.2 (map fst (get_filters rl)) /\ sysinstperms rl <> [].
Proof.
  induction rules as [|rl rules IH]; intros ri Hr; simpl in Hr.
  - inversion Hr.
  - apply elem_of_app in Hr as [Hr|Hr].
    + unfold refs_of_rule in Hr.
      apply list_elem_of_bind in Hr as (bnd & Hr & Hbnd).
      apply list_elem_of_bind in Hr as (perm & Hr & Hperm).
      apply list_elem_of_singleton in Hr. subst r.
      exists 0%nat, rl. simpl. split; [reflexivity|]. split; [lia|]. split.
      * apply list_elem_of_In, filter_In in Hbnd as [Hbnd _]. exact Hbnd.
      * intros Hnil. rewrite Hnil in Hperm. inversion Hperm.
    + destruct (IH _ Hr) as (k & rl' & Hk & H1 & H2 & H3).
      exists (S k), rl'. simpl. repeat split; auto. lia.
Qed.

Section InitReturns.

Variable log10 : Q -> Q.
Variable src : sources.

(** X17.  The registry loops themselves never raise: every reference of
    the cross product points to a dictionary of the rule table, and its
    rule has a last combination. *)
Theorem build_band_list_never_raises (filterrules : list rule)
  (bands : list string) :
  exists reg, build_band_list filterrules bands = Ok reg.
Proof.
  rewrite build_band_list_entries. apply map_res_total. intros r Hr.
  apply list_elem_of_In in Hr. unfold refs_of_bands in Hr.
  apply list_elem_of_bind in Hr as (band0 & Hr & _).
  apply refs_of_rules_elem in Hr as (k & rl & Hk & H1 & H2 & H3).
  simpl in H1. subst k.
  destruct (dict_get_key _ _ H2) as [b0 Hb0].
  destruct (last (sysinstperms rl)) as [perm|] eqn:Hlast;
    [|apply last_None in Hlast; contradiction].
  exists (set_perm r.2 perm b0).
  unfold entry_of, deref, index, index_last. rewrite Hk. cbn [bind].
  unfold get_filters in Hb0, H2.
  destruct (r_filters rl) as [d|]; [|destruct H2].
  cbn [getitem bind default] in *. unfold id in Hb0. rewrite Hb0.
  cbn [getitem bind]. rewrite Hlast. reflexivity.
Qed.

Lemma zero_point_loop_total (sys : string) (values : list Q) :
  forall st, exists st', zero_point_loop log10 sys values st = Ok st'.
Proof.
  induction values as [|v values IH]; intros st; simpl; [eauto|].
  destruct (negb (String.eqb sys "AB")); [|apply IH].
  unfold index_last. rewrite last_snoc. unfold index.
  destruct (st.1 ++ [v]) as [|f0 fl] eqn:Happ.
  - destruct st.1; discriminate.
  - simpl. apply IH.
Qed.

Lemma load_curve_total (b : band) :
  readable src b ->
  exists table zps,
    load_curve log10 src b = Ok (map (take 2) table, zps)
    /\ is_Some (last zps)
    /\ table <> [] /\ Forall (fun r => (2 <= length r)%nat) table.
Proof.
  intros (table & Hsrc & Hne & Hall). exists table.
  unfold load_curve. destruct (b_SVO b) as [svo|].
  - destruct Hsrc as (native & ab_doc & native_doc & Hn & Hab & Hnat & ->).
    unfold index_last. rewrite Hn. cbn [bind existsb orb].
    assert (Hloop : exists st,
              svo_loop log10 src (join "/" (all_but_last (split "/" svo)))
                (if String.eqb native "AB" || false then ["AB"]
                 else ["AB"; native]) ([], [0]) []
              = Ok (st, first_table native_doc)).
    { destruct (String.eqb_spec native "AB") as [->|Hne']; cbn [orb svo_loop].
      - fold (svo_path svo "AB"). rewrite Hnat.
        destruct (zero_point_loop_total "AB" (zero_points native_doc)
                    ([], [0])) as [st' ->]. cbn [bind]. eauto.
      - fold (svo_path svo "AB"). fold (svo_path svo native).
        rewrite Hab, Hnat.
        destruct (zero_point_loop_total "AB" (zero_points ab_doc)
                    ([], [0])) as [st' ->]. cbn [bind].
        destruct (zero_point_loop_total native (zero_points native_doc) st')
          as [st'' ->]. cbn [bind]. eauto. }
    destruct Hloop as [st Hloop]. rewrite Hloop. cbn [bind fst snd].
    exists st.2. split; [reflexivity|]. split; [|auto].
    apply svo_loop_last in Hloop; [exact Hloop|]. simpl. eauto.
  - destruct Hsrc as (path & Hp & Hf). rewrite Hp. cbn [getitem bind].
    rewrite Hf. exists [0]. split; [reflexivity|]. split; [simpl; eauto|auto].
Qed.

Lemma min_len_exact (n : nat) (rows : list (list Q)) :
  rows <> [] -> Forall (fun r => length r = n) rows -> min_len rows = n.
Proof.
  destruct rows as [|r rows]; [contradiction|]. intros _ Hall.
  apply Forall_cons in Hall as [Hr Hall]. simpl. rewrite Hr. clear r Hr.
  induction Hall as [|r rows Hr _ IH]; simpl; [reflexivity|].
  rewrite Hr, Nat.min_id. exact IH.
Qed.

(** The rows cut to two entries unpack into two columns without any
    gap. *)
Lemma unpack2_total (table : list (list Q)) :
  table <> [] -> Forall (fun r => (2 <= length r)%nat) table ->
  exists w t,
    unpack2 (zip_star (map (take 2) table)) = Ok (w, t) /\ w <> [].
Proof.
  intros Hne Hall. unfold zip_star.
  rewrite (min_len_exact 2).
  - simpl. do 2 eexists. split; [reflexivity|].
    destruct table as [|r table]; [contradiction|].
    apply Forall_cons in Hall as [Hr _].
    destruct r as [|x [|y r]]; simpl in Hr; try lia. discriminate.
  - destruct table; [contradiction|discriminate].
  - apply Forall_forall. intros r Hr.
    apply list_elem_of_In, in_map_iff in Hr as (r0 & <- & Hr0).
    rewrite Forall_forall in Hall.
    specialize (Hall r0 (proj2 (list_elem_of_In _ _) Hr0)).
    rewrite length_take. lia.
Qed.

Lemma init_band_total (i n m : nat) (b : band) (self : Filters) :
  readable src b ->
  layout self = (m, [n; n; n; n; n; n]) -> (i < n)%nat ->
  exists self', init_band log10 src i b self = Ok self'.
Proof.
  intros Hread Hlay Hi. unfold layout in Hlay.
  injection Hlay as _ L1 L2 L3 L4 L5 L6.
  destruct (load_curve_total b Hread)
    as (table & zps & Hload & [z Hz] & Hne & Hall).
  destruct (unpack2_total table Hne Hall) as (w & t & Hcols & Hw).
  unfold init_band. rewrite Hload. cbn [bind fst snd]. rewrite Hcols.
  cbn [bind fst snd]. unfold setitem.
  rewrite !(proj2 (Nat.ltb_lt _ _)) by lia. cbn [bind].
  destruct w as [|w0 w]; [contradiction|]. cbn [py_min py_max bind].
  unfold store_offset, index_last, setitem. rewrite Hz.
  destruct (b_offset b) as [o|].
  - rewrite (proj2 (Nat.ltb_lt _ _)) by lia. cbn [bind]. eauto.
  - destruct (b_SVO b) as [svo|]; cbn [bind].
    + rewrite (proj2 (Nat.ltb_lt _ _)) by lia. cbn [bind]. eauto.
    + eauto.
Qed.

Lemma init_loop_total (n m : nat) (bs : list band) :
  forall i self,
  Forall (readable src) bs ->
  layout self = (m, [n; n; n; n; n; n]) -> (i + length bs <= n)%nat ->
  exists st, init_loop log10 src i bs self = Ok st.
Proof.
  induction bs as [|b bs IH]; intros i self Hall Hlay Hlen; simpl; [eauto|].
  apply Forall_cons in Hall as [Hb Hall]. simpl in Hlen.
  destruct (init_band_total i n m b self Hb Hlay) as [self' Hband]; [lia|].
  rewrite Hband. cbn [bind]. apply (IH (S i) self' Hall); [|lia].
  apply init_band_layout in Hband. congruence.
Qed.

(** X18.  [__init__] returns as soon as the curve of every band of the
    registry can be read, and the object it returns has that registry. *)
Theorem init_returns_if_readable (filterrules : list rule)
  (bands : list string) (reg : list band) :
  build_band_list filterrules bands = Ok reg ->
  Forall (readable src) reg ->
  exists st,
    init log10 src filterrules bands = Ok st /\ _unique_bands st = reg.
Proof.
  intros Hbuild Hread. unfold init. rewrite Hbuild. cbn [bind].
  pose proof Hbuild as Hent. rewrite build_band_list_entries in Hent.
  apply map_res_lookup in Hent as [_ Hlook].
  assert (Hfields : forall f : band -> option string,
            (forall bnd perm b0, exists s, f (set_perm bnd perm b0) = Some s) ->
            exists l, map_res (fun x => getitem (f x)) reg = Ok l).
  { intros f Hf. apply map_res_total. intros e He.
    apply list_elem_of_In, list_elem_of_lookup in He as [i Hi].
    destruct (lookup_lt_is_Some_2 (refs_of_bands filterrules bands) i)
      as [r Hr].
    { apply lookup_lt_Some in Hi.
      rewrite (registry_length _ _ _ Hbuild) in Hi. exact Hi. }
    destruct (Hlook i r Hr) as (e' & He' & Hi'). rewrite Hi in Hi'.
    injection Hi' as <-.
    apply entry_of_Ok in He' as (rl & b0 & perm & _ & _ & _ & ->).
    destruct (Hf r.2 perm b0) as [s Hs]. rewrite Hs. simpl. eauto. }
  destruct (Hfields b_instruments) as [insts ->]; [simpl; eauto|].
  destruct (Hfields b_bandsets) as [bsets ->]; [simpl; eauto|].
  destruct (Hfields b_systems) as [systs ->]; [simpl; eauto|].
  destruct (Hfields b_name) as [names ->]; [simpl; eauto|].
  cbn [bind].
  match goal with
  | |- context [init_loop log10 src 0 reg ?s] =>
      destruct (init_loop_total (length reg) (length reg) reg 0%nat s Hread)
        as [st Hst]
  end.
  { unfold layout. simpl. rewrite !length_replicate. reflexivity. }
  { simpl. lia. }
  exists st. split; [exact Hst|].
  apply init_loop_inv in Hst as (_ & _ & Hu & _). exact Hu.
Qed.

End InitReturns.

(** ** The further properties at concrete inputs *)

Lemma init_one_slot_per_band_witness :
  init log10_stand_in curve_files rules_A_B ["A"; "B"] = Ok filters_A_B
  /\ _n_bands filters_A_B = length (_unique_bands filters_A_B)
  /\ length (_band_offsets filters_A_B) = length (_unique_bands filters_A_B).
Proof.
  assert (H1 : init log10_stand_in curve_files rules_A_B ["A"; "B"]
               = Ok filters_A_B) by (vm_compute; reflexivity).
  split; [exact H1|].
  pose proof (init_one_slot_per_band log10_stand_in curve_files rules_A_B
                ["A"; "B"] filters_A_B H1) as H.
  cbv zeta in H. split; [apply H|]. apply H.
Defined.

Lemma band_wave_ranges_bound_the_curves_witness :
  init log10_stand_in curve_files rules_A_B ["A"; "B"] = Ok filters_A_B
  /\ exists ranges,
       request filters_A_B "band_wave_ranges" = Ranges ranges
       /\ length ranges = length (_unique_bands filters_A_B).
Proof.
  assert (H1 : init log10_stand_in curve_files rules_A_B ["A"; "B"]
               = Ok filters_A_B) by (vm_compute; reflexivity).
  split; [exact H1|].
  destruct (band_wave_ranges_bound_the_curves log10_stand_in curve_files
              rules_A_B ["A"; "B"] filters_A_B H1) as (ranges & H2 & H3 & _).
  exists ranges. split; [exact H2|exact H3].
Defined.

Lemma find_band_index_by_name_only_witness :
  registry_wf filters_default_first
  /\ find_band_index filters_default_first "V" "PS1" "" "AB"
     = find_band_index filters_default_first "V" "" "" "".
Proof.
  assert (Hwf : registry_wf filters_default_first)
    by (unfold registry_wf; repeat split; reflexivity).
  split; [exact Hwf|].
  exact (proj1 (find_band_index_by_name_only filters_default_first
                  "V" "PS1" "" "AB" Hwf)).
Defined.

Lemma process_unknown_band_witness :
  registry_wf filters_A_B
  /\ In "Z" (all_bands batch_Z)
  /\ (forall k e, _unique_bands filters_A_B !! k = Some e ->
        b_name e <> Some "Z")
  /\ process log10_stand_in 0 1 1 filters_A_B batch_Z
     = (set_bands filters_A_B (all_bands batch_Z), Raise ValueError).
Proof.
  assert (Hwf : registry_wf filters_A_B)
    by (unfold registry_wf; repeat split; reflexivity).
  assert (Hin : In "Z" (all_bands batch_Z)) by (simpl; tauto).
  assert (Hnone : forall k e, _unique_bands filters_A_B !! k = Some e ->
                    b_name e <> Some "Z").
  { intros [|[|k]] e Hk; simpl in Hk; try discriminate;
      injection Hk as <-; discriminate. }
  split; [exact Hwf|]. split; [exact Hin|]. split; [exact Hnone|].
  exact (process_unknown_band log10_stand_in 0 1 1 filters_A_B batch_Z "Z"
           Hwf Hin Hnone).
Defined.

Lemma process_returns_only_if_witness :
  process log10_stand_in 0 1 1 filters_A_B batch_B_A
  = (run_B_A.1, Ok (mags_of run_B_A.2))
  /\ (length (luminosities batch_B_A) <= length (all_bands batch_B_A))%nat
  /\ length (mags_of run_B_A.2) = length (luminosities batch_B_A).
Proof.
  assert (H1 : process log10_stand_in 0 1 1 filters_A_B batch_B_A
               = (run_B_A.1, Ok (mags_of run_B_A.2)))
    by (vm_compute; reflexivity).
  split; [exact H1|].
  pose proof (process_returns_only_if log10_stand_in 0 1 1 filters_A_B
                run_B_A.1 batch_B_A (mags_of run_B_A.2) H1) as H.
  split; [apply H|]. apply H.
Defined.

Lemma abmag_decreases_with_flux_witness :
  (forall x y, 0 < x -> x < y -> log10_stand_in x < log10_stand_in y)
  /\ 0 < 1 /\ 1 < 2
  /\ exists m1 m2,
       abmag log10_stand_in 0 filters_A_B [1] [0] = [Fin m1]
       /\ abmag log10_stand_in 0 filters_A_B [2] [0] = [Fin m2]
       /\ m2 < m1.
Proof.
  assert (H1 : forall x y, 0 < x -> x < y ->
                 log10_stand_in x < log10_stand_in y)
    by (intros x y _ H; exact H).
  assert (H2 : 0 < 1) by reflexivity.
  assert (H3 : 1 < 2) by reflexivity.
  split; [exact H1|]. split; [exact H2|]. split; [exact H3|].
  exact (abmag_decreases_with_flux log10_stand_in 0 filters_A_B 1 2 0
           H1 H2 H3).
Defined.

Lemma init_stores_the_first_two_columns_witness :
  init log10_stand_in catalogue rules_svo ["U"] = Ok filters_svo
  /\ _unique_bands filters_svo !! 0%nat = Some band_U
  /\ exists (table : list (list Q)) w t,
       table <> []
       /\ _band_wavelengths filters_svo !! 0%nat = Some w
       /\ _transmissions filters_svo !! 0%nat = Some t
       /\ length w = length table /\ length t = length table.
Proof.
  assert (H1 : init log10_stand_in catalogue rules_svo ["U"]
               = Ok filters_svo) by (vm_compute; reflexivity).
  assert (H2 : _unique_bands filters_svo !! 0%nat = Some band_U)
    by reflexivity.
  split; [exact H1|]. split; [exact H2|].
  destruct (init_stores_the_first_two_columns log10_stand_in catalogue
              rules_svo ["U"] filters_svo 0 band_U H1 H2)
    as (table & w & t & _ & Hne & _ & Hw & Ht & Lw & Lt & _).
  exists table, w, t. repeat split; assumption.
Defined.

Lemma no_accretion_gives_minimum_radius_witness :
  length (TdePhotosphere.rest_times tde_inputs_dark)
  = length (TdePhotosphere.luminosities tde_inputs_dark)
  /\ Forall (fun L => L <= 0) (TdePhotosphere.luminosities tde_inputs_dark)
  /\ TdePhotosphere.process pow_stand_in 3 1 1 1 1 1 tde_inputs_dark
     = Ok {| TdePhotosphere.radiusphot :=
               map (fun one =>
                      TdePhotosphere.Num
                        (one * TdePhotosphere.r_isco 1 1 1
                                 (TdePhotosphere.bhmass tde_inputs_dark)))
                   (replicate 2 1);
             TdePhotosphere.temperaturephot :=
               replicate 2 (TdePhotosphere.Num 0) |}.
Proof.
  assert (H1 : length (TdePhotosphere.rest_times tde_inputs_dark)
               = length (TdePhotosphere.luminosities tde_inputs_dark))
    by reflexivity.
  assert (H2 : Forall (fun L => L <= 0)
                 (TdePhotosphere.luminosities tde_inputs_dark)).
  { repeat constructor; discriminate. }
  split; [exact H1|]. split; [exact H2|].
  exact (no_accretion_gives_minimum_radius pow_stand_in 3 1 1 1 1 1
           tde_inputs_dark H1 H2).
Defined.

Lemma outputs_aligned_with_luminosities_witness :
  TdePhotosphere.process pow_stand_in 3 1 1 1 1 1 tde_inputs = Ok tde_outputs
  /\ length (TdePhotosphere.radiusphot tde_outputs)
     = length (TdePhotosphere.luminosities tde_inputs)
  /\ length (TdePhotosphere.temperaturephot tde_outputs)
     = length (TdePhotosphere.luminosities tde_inputs).
Proof.
  assert (H1 : TdePhotosphere.process pow_stand_in 3 1 1 1 1 1 tde_inputs
               = Ok tde_outputs) by (vm_compute; reflexivity).
  split; [exact H1|].
  pose proof (outputs_aligned_with_luminosities pow_stand_in 3 1 1 1 1 1
                tde_inputs tde_outputs H1) as H.
  cbv zeta in H. split; [apply H|]. apply H.
Defined.

Lemma floor_process_returns_witness :
  (length (TemperatureFloor.luminosities floor_inputs)
   <= length (TemperatureFloor.rest_times floor_inputs))%nat
  /\ exists out,
       TemperatureFloor.process pow_stand_in sqrt_stand_in 1 1 1 1
         floor_inputs = Ok out
       /\ length (TemperatureFloor.radiusphot out)
          = length (TemperatureFloor.luminosities floor_inputs)
       /\ length (TemperatureFloor.temperaturephot out)
          = length (TemperatureFloor.luminosities floor_inputs).
Proof.
  assert (H1 : (length (TemperatureFloor.luminosities floor_inputs)
                <= length (TemperatureFloor.rest_times floor_inputs))%nat)
    by (simpl; lia).
  split; [exact H1|].
  exact (floor_process_returns pow_stand_in sqrt_stand_in 1 1 1 1
           floor_inputs H1).
Defined.

Lemma floor_process_too_few_times_witness :
  (length (TemperatureFloor.rest_times floor_inputs_short)
   < length (TemperatureFloor.luminosities floor_inputs_short))%nat
  /\ TemperatureFloor.process pow_stand_in sqrt_stand_in 1 1 1 1
       floor_inputs_short = Raise IndexError.
Proof.
  assert (H1 : (length (TemperatureFloor.rest_times floor_inputs_short)
                < length (TemperatureFloor.luminosities floor_inputs_short))
               %nat) by (simpl; lia).
  split; [exact H1|].
  exact (floor_process_too_few_times pow_stand_in sqrt_stand_in 1 1 1 1
           floor_inputs_short H1).
Defined.

Lemma floor_radius_is_the_smaller_witness :
  TemperatureFloor.process pow_stand_in sqrt_stand_in 1 1 1 1 floor_inputs
  = Ok floor_outputs
  /\ ~ TemperatureFloor.STEF_CONST 1 1
        * TemperatureFloor.temperature floor_inputs ^ 4 == 0
  /\ TemperatureFloor.luminosities floor_inputs !! 1%nat = Some 1
  /\ TemperatureFloor.rest_times floor_inputs !! 1%nat = Some 2
  /\ exists r2,
       TemperatureFloor.radiusphot floor_outputs !! 1%nat
       = Some (sqrt_stand_in r2).
Proof.
  assert (H1 : TemperatureFloor.process pow_stand_in sqrt_stand_in 1 1 1 1
                 floor_inputs = Ok floor_outputs)
    by (vm_compute; reflexivity).
  assert (H0 : ~ TemperatureFloor.STEF_CONST 1 1
                 * TemperatureFloor.temperature floor_inputs ^ 4 == 0)
    by (vm_compute; discriminate).
  assert (H2 : TemperatureFloor.luminosities floor_inputs !! 1%nat = Some 1)
    by reflexivity.
  assert (H3 : TemperatureFloor.rest_times floor_inputs !! 1%nat = Some 2)
    by reflexivity.
  split; [exact H1|]. split; [exact H0|]. split; [exact H2|].
  split; [exact H3|].
  destruct (floor_radius_is_the_smaller pow_stand_in sqrt_stand_in 1 1 1 1
              floor_inputs floor_outputs 1 1 2 H1 H0 H2 H3) as (r2 & Hr & _).
  exists r2. exact Hr.
Defined.

Lemma flux_on_own_grid_when_spacings_agree_witness :
  process log10_stand_in 0 1 1 filters_A_B batch_same_spacing
  = (run_same_spacing.1, Ok (mags_of run_same_spacing.2))
  /\ eff_fluxes_offsets run_same_spacing.1 batch_same_spacing
     = Ok fluxes_same_spacing
  /\ fluxes_same_spacing.1 !! 1%nat = Some (32 # 32)
  /\ exists bi wavs xp fp sed integral F',
       _band_indices run_same_spacing.1 !! 1%nat = Some bi
       /\ samplewavelengths batch_same_spacing !! bi = Some wavs
       /\ _band_wavelengths filters_A_B !! bi = Some xp
       /\ _transmissions filters_A_B !! bi = Some fp
       /\ seds batch_same_spacing !! 1%nat = Some sed
       /\ _filter_integrals filters_A_B !! bi = Some integral
       /\ effective_flux_on_own_grid wavs xp fp sed integral = Ok F'
       /\ 32 # 32 == F'.
Proof.
  assert (H1 : process log10_stand_in 0 1 1 filters_A_B batch_same_spacing
               = (run_same_spacing.1, Ok (mags_of run_same_spacing.2)))
    by (vm_compute; reflexivity).
  assert (H2 : forall j j' g g' a b a' b',
            samplewavelengths batch_same_spacing !! j = Some g ->
            g !! 0%nat = Some a -> g !! 1%nat = Some b ->
            samplewavelengths batch_same_spacing !! j' = Some g' ->
            g' !! 0%nat = Some a' -> g' !! 1%nat = Some b' ->
            b - a == b' - a').
  { intros [|[|j]] [|[|j']] g g' a b a' b' Hg Ha Hb Hg' Ha' Hb';
      simpl in Hg, Hg'; try discriminate;
      injection Hg as <-; injection Hg' as <-;
      simpl in Ha, Hb, Ha', Hb';
      injection Ha as <-; injection Hb as <-;
      injection Ha' as <-; injection Hb' as <-; reflexivity. }
  assert (H3 : eff_fluxes_offsets run_same_spacing.1 batch_same_spacing
               = Ok fluxes_same_spacing) by (vm_compute; reflexivity).
  assert (H4 : fluxes_same_spacing.1 !! 1%nat = Some (32 # 32))
    by reflexivity.
  split; [exact H1|]. split; [exact H3|]. split; [exact H4|].
  exact (flux_on_own_grid_when_spacings_agree log10_stand_in 0 1 1
           filters_A_B run_same_spacing.1 batch_same_spacing
           (mags_of run_same_spacing.2) fluxes_same_spacing.1
           fluxes_same_spacing.2 1 (32 # 32) H1 H2 H3 H4).
Defined.

Lemma registry_is_last_combination_per_filter_witness :
  build_band_list rules_two_systems ["V"] = Ok registry_two_systems
  /\ length registry_two_systems
     = length (refs_of_bands rules_two_systems ["V"])
  /\ forall i e, registry_two_systems !! i = Some e ->
       exists ri bnd rl b0 perm,
         refs_of_bands rules_two_systems ["V"] !! i = Some (ri, bnd)
         /\ rules_two_systems !! ri = Some rl
         /\ dict_get (get_filters rl) bnd = Some b0
         /\ last (sysinstperms rl) = Some perm
         /\ e = set_perm bnd perm b0.
Proof.
  assert (H1 : build_band_list rules_two_systems ["V"]
               = Ok registry_two_systems) by (vm_compute; reflexivity).
  split; [exact H1|].
  exact (registry_is_last_combination_per_filter rules_two_systems ["V"]
           registry_two_systems H1).
Defined.

Lemma band_names_follow_the_cross_product_witness :
  init log10_stand_in curve_files rules_A_B ["A"; "B"] = Ok filters_A_B
  /\ band_names filters_A_B = map snd (refs_of_bands rules_A_B ["A"; "B"]).
Proof.
  assert (H1 : init log10_stand_in curve_files rules_A_B ["A"; "B"]
               = Ok filters_A_B) by (vm_compute; reflexivity).
  split; [exact H1|].
  exact (band_names_follow_the_cross_product log10_stand_in curve_files
           rules_A_B ["A"; "B"] filters_A_B H1).
Defined.

Lemma process_returns_if_witness :
  init log10_stand_in curve_files rules_A_B ["A"; "B"] = Ok filters_A_B
  /\ (length (luminosities batch_B_A) <= length (all_bands batch_B_A))%nat
  /\ (length (luminosities batch_B_A) <= length (seds batch_B_A))%nat
  /\ (length (_unique_bands filters_A_B) <= length (all_bands batch_B_A))%nat
  /\ exists self' mags,
       process log10_stand_in 0 1 1 filters_A_B batch_B_A = (self', Ok mags)
       /\ length mags = length (luminosities batch_B_A).
Proof.
  assert (H1 : init log10_stand_in curve_files rules_A_B ["A"; "B"]
               = Ok filters_A_B) by (vm_compute; reflexivity).
  assert (H2 : forall name, In name (all_bands batch_B_A) ->
            exists k e, _unique_bands filters_A_B !! k = Some e
                        /\ b_name e = Some name).
  { intros name [<-|[<-|[]]].
    - exists 1%nat. eexists. split; reflexivity.
    - exists 0%nat. eexists. split; reflexivity. }
  assert (H3 : forall bi, (bi < length (_unique_bands filters_A_B))%nat ->
            exists g, samplewavelengths batch_B_A !! bi = Some g
                      /\ (2 <= length g)%nat).
  { intros [|[|bi]] Hbi; simpl in Hbi; try lia;
      eexists; (split; [reflexivity|simpl; lia]). }
  assert (H4 : (length (luminosities batch_B_A)
                <= length (all_bands batch_B_A))%nat) by (simpl; lia).
  assert (H5 : (length (luminosities batch_B_A)
                <= length (seds batch_B_A))%nat) by (simpl; lia).
  assert (H6 : (length (_unique_bands filters_A_B)
                <= length (all_bands batch_B_A))%nat) by (simpl; lia).
  split; [exact H1|]. split; [exact H4|]. split; [exact H5|].
  split; [exact H6|].
  exact (process_returns_if log10_stand_in 0 1 1 curve_files rules_A_B
           ["A"; "B"] filters_A_B batch_B_A H1 H2 H3 H4 H5 H6).
Defined.

Lemma init_returns_if_readable_witness :
  build_band_list rules_A_B ["A"; "B"] = Ok (_unique_bands filters_A_B)
  /\ Forall (readable curve_files) (_unique_bands filters_A_B)
  /\ exists st,
       init log10_stand_in curve_files rules_A_B ["A"; "B"] = Ok st
       /\ _unique_bands st = _unique_bands filters_A_B.
Proof.
  assert (H1 : build_band_list rules_A_B ["A"; "B"]
               = Ok (_unique_bands filters_A_B))
    by (vm_compute; reflexivity).
  assert (H2 : Forall (readable curve_files) (_unique_bands filters_A_B)).
  { repeat constructor.
    - exists [[0; 1]; [1; 1]; [2; 1]]. split.
      + exists "A.dat". split; reflexivity.
      + split; [discriminate|]. repeat constructor; simpl; lia.
    - exists [[0; 1]; [2; 1]; [4; 1]]. split.
      + exists "B.dat". split; reflexivity.
      + split; [discriminate|]. repeat constructor; simpl; lia. }
  split; [exact H1|]. split; [exact H2|].
  exact (init_returns_if_readable log10_stand_in curve_files rules_A_B
           ["A"; "B"] (_unique_bands filters_A_B) H1 H2).
Defined.
